(** * movie-app: the REST back ends and their rating aggregate

    The repository ships two Express back ends over the same [movies]
    table (backend/db/init.sql):

    - [ServerJs]: server.js, which validates its inputs and talks to the
      pool exported by db.js;
    - [TxBackend]: the back end that connects with [connectWithRetry] and
      rates a movie inside a transaction ([SELECT ... FOR UPDATE]).

    Modelling conventions.

    - The table is a list of rows; a handler is a function from the request
      and the table to a response and the new table.
    - [average_rating] is a DECIMAL(3,2): it is kept as an integer number of
      hundredths.  The server runs in the strict SQL mode that is its
      default: a value outside the range of DECIMAL(3,2) or of a signed
      32-bit INT makes the statement fail.  NULL in the two aggregate
      columns is not modelled.
    - A JavaScript number is an IEEE 754 double: [JsNum] holds the exact
      rational value of a finite double, and every arithmetic operation
      rounds its exact result to the nearest double, ties to even
      ([round_double]).  The sign of a zero is not kept: the one divisor
      that can be zero, [num_ratings + 1], is a positive zero.
    - mysql2 returns a DECIMAL as a string and sends a number as the
      shortest decimal literal that reads back as the same double
      ([Number::toString]); MySQL rounds a decimal literal half away from
      zero.
    - What belongs to MySQL and to the mysql2 driver rather than to the
      repository is a parameter: the LIKE operator, the coercion of a
      JavaScript value into a descriptive column, and whether
      [affectedRows] counts the rows matched or the rows changed (mysql2
      sets CLIENT_FOUND_ROWS unless told otherwise, [mysql2_found_rows]). *)

From Stdlib Require Import ZArith QArith Qround Qabs Qpower List String Ascii.
From Stdlib Require Import DecimalString Bool Lia Lqa.
From Stdlib Require Import Permutation.
Import ListNotations.
Open Scope Z_scope.

(** ** JavaScript and SQL values *)

(** A JSON value of a request body, or [undefined] for an absent key.
    Arrays and objects are not modelled.  [JNum q] is a number, by its
    value [q]; for a [q] that no double has, as the literal 2.675, the
    arithmetic takes the double nearest to it. *)
Inductive JsVal : Type :=
  | JUndefined
  | JNull
  | JBool (b : bool)
  | JNum (q : Q)
  | JStr (s : string).

(** A value held by one of the six descriptive columns. *)
Inductive SqlVal : Type :=
  | SNull
  | SInt (z : Z)
  | SText (s : string).

Definition SqlVal_eqb (a b : SqlVal) : bool :=
  match a, b with
  | SNull, SNull => true
  | SInt x, SInt y => x =? y
  | SText s, SText t => String.eqb s t
  | _, _ => false
  end.

(** Outcome of a statement, with [err.code] when it fails. *)
Inductive SqlResult (A : Type) : Type :=
  | SqlOk (a : A)
  | SqlFail (code : string).
Arguments SqlOk {A} a.
Arguments SqlFail {A} code.

(** [!v] is false: JavaScript truthiness. *)
Definition truthy (v : JsVal) : bool :=
  match v with
  | JUndefined | JNull => false
  | JBool b => b
  | JNum q => negb (Qeq_bool q 0)
  | JStr s => negb (String.eqb s EmptyString)
  end.

(** [Number.isInteger] on a number. *)
Definition isInteger (q : Q) : bool := Qeq_bool q (inject_Z (Qfloor q)).

(** ** JavaScript numbers

    A double is NaN, an infinity, or a finite value kept as the rational
    it stands for. *)
Inductive JsNum : Type :=
  | Fin (q : Q)
  | PosInf
  | NegInf
  | NaN.

(** Nearest integer, the even one on a tie. *)
Definition round_half_even (y : Q) : Z :=
  let f := Qfloor y in
  match (y - inject_Z f ?= 1 # 2)%Q with
  | Lt => f
  | Gt => f + 1
  | Eq => if Z.even f then f else f + 1
  end.

(** The exponent of the power of two at or below a positive rational. *)
Definition binade (x : Q) : Z :=
  let k := Z.log2 (Qnum x) - Z.log2 (Zpos (Qden x)) in
  if Qle_bool (2 ^ k) x then k else k - 1.

(** The double nearest to a rational: 53 significant bits, exponents down
    to that of the subnormals (2^-1074), overflow to an infinity. *)
Definition round_double (x : Q) : JsNum :=
  if Qeq_bool x 0 then Fin 0
  else
    let a := Qabs x in
    let e := Z.max (binade a - 52) (-1074) in
    let y := (inject_Z (round_half_even (a / 2 ^ e)) * 2 ^ e)%Q in
    if Qle_bool (2 ^ 1024) y then (if Qle_bool 0 x then PosInf else NegInf)
    else Fin (Qred (if Qle_bool 0 x then y else - y)).

Definition is_nan (a : JsNum) : bool :=
  match a with NaN => true | _ => false end.

Definition is_zero (a : JsNum) : bool :=
  match a with Fin x => Qeq_bool x 0 | _ => false end.

Definition negative (a : JsNum) : bool :=
  match a with
  | Fin x => negb (Qle_bool 0 x)
  | NegInf => true
  | PosInf | NaN => false
  end.

Definition infinity (neg : bool) : JsNum := if neg then NegInf else PosInf.

(** [a * b], [a + b], [a / b] and [a < b] on numbers. *)
Definition js_mul (a b : JsNum) : JsNum :=
  match a, b with
  | NaN, _ | _, NaN => NaN
  | Fin x, Fin y => round_double (x * y)
  | _, _ =>
      if is_zero a || is_zero b then NaN
      else infinity (xorb (negative a) (negative b))
  end.

Definition js_add (a b : JsNum) : JsNum :=
  match a, b with
  | NaN, _ | _, NaN => NaN
  | Fin x, Fin y => round_double (x + y)
  | PosInf, NegInf | NegInf, PosInf => NaN
  | PosInf, _ | _, PosInf => PosInf
  | NegInf, _ | _, NegInf => NegInf
  end.

Definition js_div (a b : JsNum) : JsNum :=
  match a, b with
  | NaN, _ | _, NaN => NaN
  | Fin x, Fin y =>
      if Qeq_bool y 0 then
        if Qeq_bool x 0 then NaN else infinity (negative a)
      else round_double (x / y)
  | Fin _, _ => Fin 0
  | _, Fin _ => infinity (xorb (negative a) (negative b))
  | _, _ => NaN
  end.

Definition js_lt (a b : JsNum) : bool :=
  match a, b with
  | NaN, _ | _, NaN => false
  | Fin x, Fin y => negb (Qle_bool y x)
  | NegInf, NegInf | PosInf, _ => false
  | NegInf, _ => true
  | Fin _, PosInf => true
  | Fin _, NegInf => false
  end.

(** Bounds of the rounding error of [round_double]: the relative one, and
    the absolute one below the normal range. *)
Definition unit_roundoff : Q := 1 # 9007199254740992.

Definition tiny : Q := 1 # 1152921504606846976.

(** ** Rounding to two fractional digits *)

(** Nearest hundredth of a non-negative number, the larger one on a tie. *)
Definition half_up (x : Q) : Z := Qfloor (x * 100 + (1 # 2)).

(** [Number.prototype.toFixed(2)] of the finite double whose value is [x],
    as a number of hundredths: the nearest one to the exact value, the
    larger one on a tie; a negative number is formatted as the sign
    followed by its magnitude.  (From 10^21 on the method prints an
    exponent instead; such a text is out of the range of the column like
    the hundredths computed here.) *)
Definition toFixed2 (x : Q) : Z :=
  if Qle_bool 0 x then half_up x else - half_up (- x).

(** The hundredths that MySQL rounds the decimal literal [x] to: half away
    from zero. *)
Definition decimal_3_2 (x : Q) : Z :=
  if Qle_bool 0 x then half_up x else - half_up (- x).

(** The number that a stored DECIMAL(3,2) stands for. *)
Definition decimal_value (hundredths : Z) : Q := inject_Z hundredths / 100.

(** A stored DECIMAL(3,2), which mysql2 hands over as a string, as a
    JavaScript number ([parseFloat], or the coercion done by [*]). *)
Definition parseFloat (hundredths : Z) : JsNum :=
  round_double (decimal_value hundredths).

(** What the two aggregate columns accept. *)
Definition store_decimal_3_2 (hundredths : Z) : SqlResult Z :=
  if (-999 <=? hundredths) && (hundredths <=? 999) then SqlOk hundredths
  else SqlFail "ER_WARN_DATA_OUT_OF_RANGE".

Definition store_int (n : Z) : SqlResult Z :=
  if (-2147483648 <=? n) && (n <=? 2147483647) then SqlOk n
  else SqlFail "ER_WARN_DATA_OUT_OF_RANGE".

(** ** The movies table (backend/db/init.sql) *)

Record Movie : Type := mkMovie {
  id : Z;
  title : SqlVal;
  director : SqlVal;
  year : SqlVal;
  genre : SqlVal;
  average_rating : Z;
  num_ratings : Z;
  description : SqlVal;
  poster_url : SqlVal
}.

Record Store : Type := mkStore {
  rows : list Movie;
  auto_increment : Z
}.

Definition with_rows (st : Store) (l : list Movie) : Store :=
  mkStore l (auto_increment st).

(** [SELECT ... FROM movies WHERE id = ?] *)
Definition select_by_id (i : Z) (l : list Movie) : list Movie :=
  filter (fun m => id m =? i) l.

(** [UPDATE movies SET average_rating = ?, num_ratings = ? WHERE id = ?] *)
Definition set_aggregate (a n : Z) (m : Movie) : Movie :=
  mkMovie (id m) (title m) (director m) (year m) (genre m) a n
          (description m) (poster_url m).

Definition update_where_id (i : Z) (f : Movie -> Movie) (l : list Movie)
  : list Movie :=
  map (fun m => if id m =? i then f m else m) l.

(** [DELETE FROM movies WHERE id = ?] *)
Definition delete_where_id (i : Z) (l : list Movie) : list Movie :=
  filter (fun m => negb (id m =? i)) l.

Definition Movie_eqb (a b : Movie) : bool :=
  (id a =? id b) && SqlVal_eqb (title a) (title b)
  && SqlVal_eqb (director a) (director b) && SqlVal_eqb (year a) (year b)
  && SqlVal_eqb (genre a) (genre b)
  && (average_rating a =? average_rating b)
  && (num_ratings a =? num_ratings b)
  && SqlVal_eqb (description a) (description b)
  && SqlVal_eqb (poster_url a) (poster_url b).

(** Rows with id [i] that statement [f] matches, and those it changes. *)
Definition matched_rows (i : Z) (l : list Movie) : Z :=
  Z.of_nat (List.length (select_by_id i l)).

Definition changed_rows (i : Z) (f : Movie -> Movie) (l : list Movie) : Z :=
  Z.of_nat (List.length (filter (fun m => negb (Movie_eqb (f m) m))
                           (select_by_id i l))).

(** ** Responses *)

Inductive Body : Type :=
  | BError (error : string)
  | BMessage (message : string)
  | BRows (l : list Movie)
  | BMovie (m : Movie)
  | BCreated (new_id : Z) (t d y g : JsVal) (avg n : Z) (ds p : JsVal)
  | BRated (message : string) (new_average_rating new_num_ratings : Z).

Record Response : Type := mkResponse {
  status : Z;
  body : Body
}.

(** ** Strings *)

(** White space removed by [String.prototype.trim], among the code units
    below 256. *)
Definition is_white_space (c : ascii) : bool :=
  let n := nat_of_ascii c in
  ((9 <=? n) && (n <=? 13) || (n =? 32) || (n =? 160))%nat.

(** [s.trim() === ""] *)
Fixpoint blank (s : string) : bool :=
  match s with
  | EmptyString => true
  | String c r => is_white_space c && blank r
  end.

Definition lower (c : ascii) : ascii :=
  let n := nat_of_ascii c in
  if ((65 <=? n) && (n <=? 90))%nat then ascii_of_nat (n + 32) else c.

Definition is_line_terminator (c : ascii) : bool :=
  let n := nat_of_ascii c in ((n =? 10) || (n =? 13))%nat.

Fixpoint strip_prefix (p l : list ascii) : option (list ascii) :=
  match p, l with
  | [], _ => Some l
  | a :: p', b :: l' => if Ascii.eqb a b then strip_prefix p' l' else None
  | _ :: _, [] => None
  end.

Definition image_extensions : list string :=
  ["jpg"; "jpeg"; "png"; "gif"; "bmp"; "webp"]%string.

(** [.+\.ext$] on the reversed remainder of the URL: the extension and
    its dot are at the end, after one or more characters none of which is
    a line terminator. *)
Definition ends_with_extension (reversed : list ascii) (ext : string) : bool :=
  match strip_prefix (rev (list_ascii_of_string ("." ++ ext))) reversed with
  | Some before =>
      negb (Nat.eqb (List.length before) 0)
      && forallb (fun c => negb (is_line_terminator c)) before
  | None => false
  end.

(** [/^https?:\/\/.+\.(jpg|jpeg|png|gif|bmp|webp)$/i.test(s)] *)
Definition is_image_url (s : string) : bool :=
  let l := map lower (list_ascii_of_string s) in
  let after_scheme :=
    match strip_prefix (list_ascii_of_string "https://") l with
    | Some r => Some r
    | None => strip_prefix (list_ascii_of_string "http://") l
    end in
  match after_scheme with
  | Some r => existsb (ends_with_extension (rev r)) image_extensions
  | None => false
  end.

(** ** The rating arithmetic shared by the two back ends *)

(** [(oldAverageRating * oldNumRatings + rating) / newNumRatings] *)
Definition newAverageRating (old_average : JsNum) (old_num : Z)
  (rating : JsNum) : JsNum :=
  js_div (js_add (js_mul old_average (Fin (inject_Z old_num))) rating)
         (Fin (inject_Z (old_num + 1))).

Definition error (code : Z) (msg : string) : Response :=
  mkResponse code (BError msg).

Definition message (code : Z) (msg : string) : Response :=
  mkResponse code (BMessage msg).

(** ** Requests *)

(** The six fields that the handlers read from a movie body; any other key
    of the JSON object is ignored by server.js. *)
Record MovieData : Type := mkMovieData {
  d_title : JsVal;
  d_director : JsVal;
  d_year : JsVal;
  d_genre : JsVal;
  d_description : JsVal;
  d_poster_url : JsVal
}.

(** The query string of a search: each parameter is absent or a string. *)
Record SearchQuery : Type := mkSearchQuery {
  q_title : option string;
  q_director : option string;
  q_genre : option string;
  q_year : option string;
  q_term : option string
}.

Inductive Column : Type :=
  | CTitle | CDirector | CYear | CGenre | CDescription | CPosterUrl.

Definition set_column (c : Column) (v : SqlVal) (m : Movie) : Movie :=
  match c with
  | CTitle => mkMovie (id m) v (director m) (year m) (genre m)
                (average_rating m) (num_ratings m) (description m) (poster_url m)
  | CDirector => mkMovie (id m) (title m) v (year m) (genre m)
                (average_rating m) (num_ratings m) (description m) (poster_url m)
  | CYear => mkMovie (id m) (title m) (director m) v (genre m)
                (average_rating m) (num_ratings m) (description m) (poster_url m)
  | CGenre => mkMovie (id m) (title m) (director m) (year m) v
                (average_rating m) (num_ratings m) (description m) (poster_url m)
  | CDescription => mkMovie (id m) (title m) (director m) (year m) (genre m)
                (average_rating m) (num_ratings m) v (poster_url m)
  | CPosterUrl => mkMovie (id m) (title m) (director m) (year m) (genre m)
                (average_rating m) (num_ratings m) (description m) v
  end.

(** [SET c1 = v1, c2 = v2, ...], applied from left to right. *)
Definition set_columns (l : list (Column * SqlVal)) (m : Movie) : Movie :=
  fold_left (fun acc cv => set_column (fst cv) (snd cv) acc) l m.

(** A truthy query parameter. *)
Definition given (p : option string) : option string :=
  match p with
  | Some s => if String.eqb s EmptyString then None else Some s
  | None => None
  end.

(** ** [parseInt(s, 10)] *)

Definition digit_value (c : ascii) : option Z :=
  let n := nat_of_ascii c in
  if ((48 <=? n) && (n <=? 57))%nat then Some (Z.of_nat (n - 48)) else None.

Fixpoint leading_digits (acc : Z) (l : list ascii) : Z :=
  match l with
  | [] => acc
  | c :: r =>
      match digit_value c with
      | Some d => leading_digits (10 * acc + d) r
      | None => acc
      end
  end.

Fixpoint skip_white_space (l : list ascii) : list ascii :=
  match l with
  | c :: r => if is_white_space c then skip_white_space r else l
  | [] => []
  end.

Definition unsigned_prefix (l : list ascii) : option Z :=
  match l with
  | c :: _ =>
      match digit_value c with
      | Some _ => Some (leading_digits 0 l)
      | None => None
      end
  | [] => None
  end.

(** [None] is NaN. *)
Definition parseInt (s : string) : option Z :=
  match skip_white_space (list_ascii_of_string s) with
  | c :: r =>
      if Ascii.eqb c "-" then option_map Z.opp (unsigned_prefix r)
      else if Ascii.eqb c "+" then unsigned_prefix r
      else unsigned_prefix (c :: r)
  | [] => None
  end.

(** ** Numbers and strings *)

(** *** [Number::toString] *)

(** 10^(n-1) <= v < 10^n *)
Definition in_decade (v : Q) (n : Z) : bool :=
  Qle_bool (10 ^ (n - 1)) v && negb (Qle_bool (10 ^ n) v).

(** The [n] with 10^(n-1) <= v < 10^n, for a positive [v]: it is found
    next to the binary exponent scaled by log10(2). *)
Definition decimal_exponent (v : Q) : Z :=
  let g := binade v * 30103 / 100000 in
  if in_decade v g then g
  else if in_decade v (g + 1) then g + 1
  else if in_decade v (g + 2) then g + 2
  else g + 3.

(** The decimal [c] reads back as the double [v]. *)
Definition round_trips (v c : Q) : bool :=
  match round_double c with
  | Fin y => Qeq_bool y v
  | _ => false
  end.

(** The two decimals of [k] digits around [v], the nearer one first, on a
    tie the one with the even last digit. *)
Definition nearest_with_digits (v : Q) (n k : Z) : list Q :=
  let scale := (10 ^ (n - k))%Q in
  let s := Qfloor (v / scale) in
  let lo := (inject_Z s * scale)%Q in
  let hi := (inject_Z (s + 1) * scale)%Q in
  match (v - lo ?= hi - v)%Q with
  | Lt => [lo; hi]
  | Gt => [hi; lo]
  | Eq => if Z.even s then [lo; hi] else [hi; lo]
  end.

(** The decimal with the fewest digits that reads back as the double [v],
    and among those with that many digits the nearest to [v]; 17 digits
    always suffice. *)
Fixpoint shortest (v : Q) (n k : Z) (fuel : nat) : Q :=
  match fuel with
  | O => v
  | S fuel' =>
      match find (round_trips v) (nearest_with_digits v n k) with
      | Some c => c
      | None => shortest v n (k + 1) fuel'
      end
  end.

Definition shortest_decimal (v : Q) : Q :=
  Qred (shortest v (decimal_exponent v) 1 17).

Fixpoint strip_zeros (reversed : list ascii) : list ascii :=
  match reversed with
  | c :: r => if Ascii.eqb c "0" then strip_zeros r else reversed
  | [] => []
  end.

Definition digits_of (z : Z) : string :=
  NilZero.string_of_uint (N.to_uint (Z.to_N z)).

Definition zeros (n : Z) : string :=
  string_of_list_ascii (repeat "0"%char (Z.to_nat n)).

(** The text of a positive double: its [k] digits, placed by the decimal
    exponent [n], with an exponent part below 10^-6 and from 10^21 on. *)
Definition positive_to_string (v : Q) : string :=
  let c := shortest_decimal v in
  let n := decimal_exponent c in
  let all := digits_of (Qfloor (c * 10 ^ (17 - n))) in
  let digits :=
    string_of_list_ascii
      (rev (strip_zeros (rev (list_ascii_of_string all)))) in
  let k := Z.of_nat (String.length digits) in
  if (k <=? n) && (n <=? 21) then (digits ++ zeros (n - k))%string
  else if (0 <? n) && (n <=? 21) then
    (substring 0 (Z.to_nat n) digits ++ "."
     ++ substring (Z.to_nat n) (Z.to_nat (k - n)) digits)%string
  else if (-6 <? n) && (n <=? 0) then
    ("0." ++ zeros (- n) ++ digits)%string
  else
    let e := n - 1 in
    let exponent :=
      ((if (0 <=? e)%Z then "+" else "-") ++ digits_of (Z.abs e))%string in
    if k =? 1 then (digits ++ "e" ++ exponent)%string
    else (substring 0 1 digits ++ "."
          ++ substring 1 (Z.to_nat (k - 1)) digits ++ "e" ++ exponent)%string.

Definition NumberToString (x : JsNum) : string :=
  match x with
  | NaN => "NaN"%string
  | PosInf => "Infinity"%string
  | NegInf => "-Infinity"%string
  | Fin q =>
      if Qeq_bool q 0 then "0"%string
      else if Qle_bool 0 q then positive_to_string q
      else ("-" ++ positive_to_string (- q))%string
  end.

(** The exact value of the literal that mysql2 writes for a finite
    number. *)
Definition decimal_literal (q : Q) : Q :=
  if Qeq_bool q 0 then 0%Q
  else if Qle_bool 0 q then shortest_decimal q
  else (- shortest_decimal (- q))%Q.

(** *** [StringToNumber] *)

Definition digit_in (radix : Z) (c : ascii) : option Z :=
  let n := Z.of_nat (nat_of_ascii (lower c)) in
  let d := if (48 <=? n) && (n <=? 57) then n - 48
           else if (97 <=? n) && (n <=? 102) then n - 87
           else radix in
  if d <? radix then Some d else None.

(** The digits at the front of [l] in the given radix: their number, their
    value after [acc], and what follows them. *)
Fixpoint read_digits (radix : Z) (count acc : Z) (l : list ascii)
  : Z * Z * list ascii :=
  match l with
  | c :: r =>
      match digit_in radix c with
      | Some d => read_digits radix (count + 1) (radix * acc + d) r
      | None => (count, acc, l)
      end
  | [] => (count, acc, [])
  end.

(** [ExponentPart], or nothing, up to the end of the string. *)
Definition exponent_part (l : list ascii) : option Z :=
  match l with
  | [] => Some 0
  | c :: r =>
      if Ascii.eqb (lower c) "e" then
        let (negated, r') :=
          match r with
          | s :: t =>
              if Ascii.eqb s "-" then (true, t)
              else if Ascii.eqb s "+" then (false, t)
              else (false, r)
          | [] => (false, r)
          end in
        match read_digits 10 0 0 r' with
        | (count, e, []) =>
            if count =? 0 then None else Some (if negated then - e else e)
        | _ => None
        end
      else None
  end.

(** [StrUnsignedDecimalLiteral] other than [Infinity]: its exact value. *)
Definition unsigned_decimal (l : list ascii) : option Q :=
  match read_digits 10 0 0 l with
  | (int_count, int_value, r) =>
      let fraction :=
        match r with
        | c :: t =>
            if Ascii.eqb c "." then read_digits 10 0 int_value t
            else (0, int_value, r)
        | [] => (0, int_value, r)
        end in
      match fraction with
      | (frac_count, mantissa, r') =>
          if int_count + frac_count =? 0 then None
          else
            match exponent_part r' with
            | Some e => Some (inject_Z mantissa * 10 ^ (e - frac_count))%Q
            | None => None
            end
      end
  end.

Definition signed_decimal (l : list ascii) : JsNum :=
  let (negated, r) :=
    match l with
    | s :: t =>
        if Ascii.eqb s "-" then (true, t)
        else if Ascii.eqb s "+" then (false, t)
        else (false, l)
    | [] => (false, l)
    end in
  if String.eqb (string_of_list_ascii r) "Infinity" then infinity negated
  else
    match unsigned_decimal r with
    | Some q => round_double (if negated then - q else q)
    | None => NaN
    end.

Definition radix_literal (radix : Z) (l : list ascii) : JsNum :=
  match read_digits radix 0 0 l with
  | (count, v, []) => if count =? 0 then NaN else round_double (inject_Z v)
  | _ => NaN
  end.

Definition StringToNumber (s : string) : JsNum :=
  match rev (skip_white_space
               (rev (skip_white_space (list_ascii_of_string s)))) with
  | [] => Fin 0
  | c :: d :: r =>
      if Ascii.eqb c "0" && Ascii.eqb (lower d) "x" then radix_literal 16 r
      else if Ascii.eqb c "0" && Ascii.eqb (lower d) "o" then radix_literal 8 r
      else if Ascii.eqb c "0" && Ascii.eqb (lower d) "b" then radix_literal 2 r
      else signed_decimal (c :: d :: r)
  | l => signed_decimal l
  end.


(** ** The [:id] segment of a path

    [IdInt z] is the decimal literal of [z] and [IdNaN] a string that
    [Number] maps to NaN.  [IdText s row] is any other spelling [s],
    together with the id, if any, that MySQL finds equal to it in
    [WHERE id = ?]. *)
Inductive IdParam : Type :=
  | IdInt (z : Z)
  | IdNaN
  | IdText (s : string) (row : option Z).

(** [isNaN(id) || parseInt(id, 10) <= 0] *)
Definition invalid_id (p : IdParam) : bool :=
  match p with
  | IdNaN => true
  | IdInt z => z <=? 0
  | IdText s _ =>
      is_nan (StringToNumber s)
      || match parseInt s with
         | Some z => z <=? 0
         | None => false
         end
  end.

(** The id that [WHERE id = ?] compares equal to. *)
Definition row_of (p : IdParam) : option Z :=
  match p with
  | IdInt z => Some z
  | IdNaN => None
  | IdText _ row => row
  end.

(** Rows selected by [WHERE id = ?] for a path parameter. *)
Definition select_param (p : IdParam) (l : list Movie) : list Movie :=
  match row_of p with
  | Some z => select_by_id z l
  | None => []
  end.

(** ** server.js *)

Module ServerJs.

Definition is_string (v : JsVal) : bool :=
  match v with JStr _ => true | _ => false end.

Definition is_undefined (v : JsVal) : bool :=
  match v with JUndefined => true | _ => false end.

(** [!v || typeof v !== "string" || v.trim() === ""] *)
Definition missing_text (v : JsVal) : bool :=
  match v with
  | JStr s => String.eqb s EmptyString || blank s
  | _ => true
  end.

(** [typeof v !== "number" || !Number.isInteger(v) || v <= 0] *)
Definition bad_year (v : JsVal) : bool :=
  match v with
  | JNum q => negb (isInteger q) || Qle_bool q 0
  | _ => true
  end.

(** [typeof v !== "string" || v.trim() === ""] *)
Definition bad_text (v : JsVal) : bool :=
  match v with
  | JStr s => blank s
  | _ => true
  end.

Definition bad_poster_url (v : JsVal) : bool :=
  match v with
  | JStr s => negb (is_image_url s)
  | _ => true
  end.

Definition validateMovieData (data : MovieData) (isNew : bool) : option string :=
  if isNew && missing_text (d_title data) then
    Some "Title is required and must be a non-empty string."%string
  else if isNew && missing_text (d_director data) then
    Some "Director is required and must be a non-empty string."%string
  else if negb (is_undefined (d_year data)) && bad_year (d_year data) then
    Some "Year must be a positive integer."%string
  else if negb (is_undefined (d_genre data)) && bad_text (d_genre data) then
    Some "Genre must be a non-empty string."%string
  else if negb (is_undefined (d_description data))
          && bad_text (d_description data) then
    Some "Description must be a non-empty string."%string
  else if negb (is_undefined (d_poster_url data))
          && bad_poster_url (d_poster_url data) then
    Some "Poster URL must be a valid image URL (http/https)."%string
  else None.

Definition validateRating (rating : JsVal) : option string :=
  match rating with
  | JNum q =>
      if negb (isInteger q) || negb (Qle_bool 1 q) || negb (Qle_bool q 5)
      then Some "Rating must be an integer between 1 and 5."%string
      else None
  | _ => Some "Rating must be an integer between 1 and 5."%string
  end.

Definition invalid_id_response : Response :=
  error 400 "Invalid movie ID. Must be a positive number.".

(** [UPDATE ... WHERE id = ?] for a path parameter. *)
Definition update_param (p : IdParam) (f : Movie -> Movie) (l : list Movie)
  : list Movie :=
  match row_of p with
  | Some z => update_where_id z f l
  | None => l
  end.

Definition delete_param (p : IdParam) (l : list Movie) : list Movie :=
  match row_of p with
  | Some z => delete_where_id z l
  | None => l
  end.

(** [newAverageRating.toFixed(2)] as MySQL reads it: a number of
    hundredths, or nothing for the texts of NaN and of the infinities,
    which are no decimal. *)
Definition toFixed2_decimal (x : JsNum) : option Z :=
  match x with
  | Fin q => Some (toFixed2 q)
  | PosInf | NegInf | NaN => None
  end.

Section Handlers.

(** Whether the connection reports matched rows (CLIENT_FOUND_ROWS) or
    changed rows as [affectedRows] of an UPDATE. *)
Variable found_rows : bool.

(** How MySQL stores a JavaScript value in a column, or why it refuses. *)
Variable sql_store : Column -> JsVal -> SqlResult SqlVal.

(** [column LIKE '%s%'] under the collation of the table. *)
Variable like : SqlVal -> string -> bool.

Definition affectedRows (p : IdParam) (f : Movie -> Movie) (l : list Movie)
  : Z :=
  match row_of p with
  | Some z => if found_rows then matched_rows z l else changed_rows z f l
  | None => 0
  end.

(** The rating handler from the answer [(a, n)] of its SELECT on: the
    arithmetic, the UPDATE and the response. *)
Definition rate_update (p : IdParam) (rating : JsNum) (a n : Z) (st : Store)
  : Response * Store :=
  let oldAverageRating := parseFloat a in
  let oldNumRatings := n in
  let newNumRatings := oldNumRatings + 1 in
  let newAverageRating :=
    newAverageRating oldAverageRating oldNumRatings rating in
  match toFixed2_decimal newAverageRating with
  | None => (error 500 "Failed to rate movie.", st)
  | Some avg =>
      match store_decimal_3_2 avg, store_int newNumRatings with
      | SqlOk avg', SqlOk num' =>
          let f := set_aggregate avg' num' in
          let st' := with_rows st (update_param p f (rows st)) in
          if affectedRows p f (rows st) =? 0 then
            (message 404
               "Movie not found or no changes made during rating.", st')
          else
            (mkResponse 200
               (BRated "Movie rated successfully." avg newNumRatings), st')
      | _, _ => (error 500 "Failed to rate movie.", st)
      end
  end.

(** POST /api/movies/:id/rate *)
Definition post_rate (p : IdParam) (rating : JsVal) (st : Store)
  : Response * Store :=
  if invalid_id p then (invalid_id_response, st)
  else match validateRating rating with
  | Some validationError => (error 400 validationError, st)
  | None =>
      (* a value that passed validateRating is an integer number *)
      let r := match rating with JNum q => round_double q | _ => NaN end in
      match select_param p (rows st) with
      | [] => (message 404 "Movie not found.", st)
      | currentMovie :: _ =>
          rate_update p r (average_rating currentMovie)
                      (num_ratings currentMovie) st
      end
  end.

(** DELETE /api/movies/:id *)
Definition delete_movie (p : IdParam) (st : Store) : Response * Store :=
  if invalid_id p then (invalid_id_response, st)
  else
    let l := delete_param p (rows st) in
    if Z.of_nat (List.length (rows st)) - Z.of_nat (List.length l) =? 0 then
      (message 404 "Movie not found.", with_rows st l)
    else
      (message 200 "Movie deleted successfully.", with_rows st l).

(** GET /api/movies *)
Definition get_movies (st : Store) : Response :=
  mkResponse 200 (BRows (rows st)).

(** GET /api/movies/:id *)
Definition get_movie (p : IdParam) (st : Store) : Response :=
  if invalid_id p then invalid_id_response
  else match select_param p (rows st) with
  | [] => message 404 "Movie not found."
  | m :: _ => mkResponse 200 (BMovie m)
  end.

(** GET /api/movies/search *)
Definition get_search (q : SearchQuery) (st : Store) : Response :=
  let by_title :=
    match given (q_title q) with
    | Some t => [fun m => like (title m) t]
    | None => []
    end in
  let by_director :=
    match given (q_director q) with
    | Some d => [fun m => like (director m) d]
    | None => []
    end in
  let by_genre :=
    match given (q_genre q) with
    | Some g => [fun m => like (genre m) g]
    | None => []
    end in
  let run (params : list (Movie -> bool)) :=
    if Nat.eqb (List.length params) 0 then
      error 400
        "Please provide at least one search criterion (title, director, genre, or year)."
    else
      mkResponse 200
        (BRows (filter (fun m => forallb (fun c => c m) params) (rows st))) in
  match given (q_year q) with
  | Some y =>
      match parseInt y with
      | Some parsedYear =>
          if parsedYear <=? 0 then
            error 400 "Search year must be a positive integer."
          else
            run (by_title ++ by_director ++ by_genre
                 ++ [fun m => SqlVal_eqb (year m) (SInt parsedYear)])
      | None => error 400 "Search year must be a positive integer."
      end
  | None => run (by_title ++ by_director ++ by_genre)
  end.

(** [v || null] *)
Definition or_null (v : JsVal) : JsVal := if truthy v then v else JNull.

(** The row built by the INSERT: the six columns as MySQL stores them,
    the aggregate columns at their defaults. *)
Definition insert_row (new_id : Z) (t d y g ds p : JsVal)
  : SqlResult Movie :=
  match sql_store CTitle t, sql_store CDirector d, sql_store CYear y,
        sql_store CGenre g, sql_store CDescription ds,
        sql_store CPosterUrl p with
  | SqlOk t', SqlOk d', SqlOk y', SqlOk g', SqlOk ds', SqlOk p' =>
      SqlOk (mkMovie new_id t' d' y' g' 0 0 ds' p')
  | SqlFail code, _, _, _, _, _
  | _, SqlFail code, _, _, _, _
  | _, _, SqlFail code, _, _, _
  | _, _, _, SqlFail code, _, _
  | _, _, _, _, SqlFail code, _
  | _, _, _, _, _, SqlFail code => SqlFail code
  end.

(** POST /api/movies *)
Definition post_movie (data : MovieData) (st : Store) : Response * Store :=
  match validateMovieData data true with
  | Some validationError => (error 400 validationError, st)
  | None =>
      let new_id := auto_increment st in
      match insert_row new_id (d_title data) (d_director data)
              (or_null (d_year data)) (or_null (d_genre data))
              (or_null (d_description data)) (or_null (d_poster_url data))
      with
      | SqlOk m =>
          (mkResponse 201
             (BCreated new_id (d_title data) (d_director data)
                (or_null (d_year data)) (or_null (d_genre data)) 0 0
                (or_null (d_description data)) (or_null (d_poster_url data))),
           mkStore (rows st ++ [m]) (new_id + 1))
      | SqlFail code =>
          if String.eqb code "ER_DUP_ENTRY" then
            (error 409 "A movie with this title and director already exists.",
             st)
          else (error 500 "Failed to add movie.", st)
      end
  end.

(** [fieldsToUpdate] with [values]: the fields of the body that are not
    [undefined], in the order of the source. *)
Definition fieldsToUpdate (data : MovieData) : list (Column * JsVal) :=
  filter (fun cv => negb (is_undefined (snd cv)))
    [(CTitle, d_title data); (CDirector, d_director data);
     (CYear, d_year data); (CGenre, d_genre data);
     (CDescription, d_description data); (CPosterUrl, d_poster_url data)].

Fixpoint store_all (l : list (Column * JsVal))
  : SqlResult (list (Column * SqlVal)) :=
  match l with
  | [] => SqlOk []
  | (c, v) :: r =>
      match sql_store c v with
      | SqlOk v' =>
          match store_all r with
          | SqlOk r' => SqlOk ((c, v') :: r')
          | SqlFail code => SqlFail code
          end
      | SqlFail code => SqlFail code
      end
  end.

(** PUT /api/movies/:id *)
Definition put_movie (p : IdParam) (data : MovieData) (st : Store)
  : Response * Store :=
  if invalid_id p then (invalid_id_response, st)
  else match validateMovieData data false with
  | Some validationError => (error 400 validationError, st)
  | None =>
      if Nat.eqb (List.length (fieldsToUpdate data)) 0 then
        (error 400 "No fields provided for update.", st)
      else
        match store_all (fieldsToUpdate data) with
        | SqlOk assignments =>
            let f := set_columns assignments in
            let st' := with_rows st (update_param p f (rows st)) in
            if affectedRows p f (rows st) =? 0 then
              (message 404 "Movie not found or no changes made.", st')
            else (message 200 "Movie updated successfully.", st')
        | SqlFail _ => (error 500 "Failed to update movie.", st)
        end
  end.

(** The routes of server.js. *)
Inductive Request : Type :=
  | GetMovies
  | GetSearch (q : SearchQuery)
  | GetMovie (p : IdParam)
  | PostMovie (data : MovieData)
  | PutMovie (p : IdParam) (data : MovieData)
  | DeleteMovie (p : IdParam)
  | PostRate (p : IdParam) (rating : JsVal).

Definition handle (req : Request) (st : Store) : Response * Store :=
  match req with
  | GetMovies => (get_movies st, st)
  | GetSearch q => (get_search q st, st)
  | GetMovie p => (get_movie p st, st)
  | PostMovie data => post_movie data st
  | PutMovie p data => put_movie p data st
  | DeleteMovie p => delete_movie p st
  | PostRate p rating => post_rate p rating st
  end.

End Handlers.

End ServerJs.

(** ** The transactional back end

    The [:id] segment is an integer literal here: this back end passes the
    string to MySQL unchecked, and the coercion of other strings by the
    comparison [id = ?] is not modelled. *)

Module TxBackend.

(** One [key: value] pair of the body of a PUT, as [SET ?] expands it.
    Values of the aggregate columns are numbers, [num_ratings] an integer;
    a key that names no column makes the statement fail. *)
Inductive Assignment : Type :=
  | SetColumn (c : Column) (v : JsVal)
  | SetAverageRating (q : Q)
  | SetNumRatings (n : Z)
  | SetUnknown (key : string).

(** [ToNumber] *)
Definition to_number (v : JsVal) : JsNum :=
  match v with
  | JUndefined => NaN
  | JNull => Fin 0
  | JBool b => Fin (if b then 1 else 0)
  | JNum q => round_double q
  | JStr s => StringToNumber s
  end.

(** [!rating || rating < 1 || rating > 5] *)
Definition invalid_rating (rating : JsVal) : bool :=
  negb (truthy rating)
  || js_lt (to_number rating) (Fin 1)
  || js_lt (Fin 5) (to_number rating).

(** [currentTotalRating + rating], as the number that the division makes
    of it: [+] concatenates when the rating is a string. *)
Definition newTotalRating (currentTotalRating : JsNum) (rating : JsVal)
  : JsNum :=
  match rating with
  | JStr s => StringToNumber (NumberToString currentTotalRating ++ s)
  | _ => js_add currentTotalRating (to_number rating)
  end.

(** The number [newAverageRating] as the UPDATE stores it: mysql2 writes
    its shortest literal, MySQL rounds it to hundredths; NaN and the
    infinities are written as words that name no column. *)
Definition stored_average (x : JsNum) : SqlResult Z :=
  match x with
  | Fin q => store_decimal_3_2 (decimal_3_2 (decimal_literal q))
  | PosInf | NegInf | NaN => SqlFail "ER_BAD_FIELD_ERROR"
  end.

(** The rating handler from the answer [(a, n)] of its locking SELECT on:
    the arithmetic, the UPDATE, and the COMMIT or the ROLLBACK. *)
Definition rate_update (i : Z) (rating : JsVal) (a n : Z) (st : Store)
  : Response * Store :=
  let currentTotalRating := js_mul (parseFloat a) (Fin (inject_Z n)) in
  let newNumRatings := n + 1 in
  let newTotalRating := newTotalRating currentTotalRating rating in
  let newAverageRating :=
    js_div newTotalRating (Fin (inject_Z newNumRatings)) in
  match stored_average newAverageRating, store_int newNumRatings,
        newAverageRating with
  | SqlOk avg', SqlOk num', Fin q =>
      let f := set_aggregate avg' num' in
      (mkResponse 200
         (BRated "Rating submitted successfully" (toFixed2 q) newNumRatings),
       with_rows st (update_where_id i f (rows st)))
  | _, _, _ => (error 500 "Failed to rate movie", st)
  end.

(** POST /api/movies/:id/rate.  The transaction either commits the UPDATE
    or rolls back to the table it started from. *)
Definition post_rate (i : Z) (rating : JsVal) (st : Store)
  : Response * Store :=
  if invalid_rating rating then
    (error 400 "Invalid rating. Must be between 1 and 5.", st)
  else
    match select_by_id i (rows st) with
    | [] => (error 404 "Movie not found", st)
    | movie :: _ =>
        rate_update i rating (average_rating movie) (num_ratings movie) st
    end.

(** DELETE /api/movies/:id *)
Definition delete_movie (i : Z) (st : Store) : Response * Store :=
  (message 200 "Movie deleted successfully",
   with_rows st (delete_where_id i (rows st))).

Section Handlers.

Variable sql_store : Column -> JsVal -> SqlResult SqlVal.
Variable like : SqlVal -> string -> bool.
(** [ORDER BY title] under the collation of the table. *)
Variable order_by_title : list Movie -> list Movie.

(** GET /api/movies *)
Definition get_movies (st : Store) : Response :=
  mkResponse 200 (BRows (order_by_title (rows st))).

(** GET /api/movies/search *)
Definition get_search (q : SearchQuery) (st : Store) : Response :=
  match given (q_term q) with
  | None => error 400 "Search term is required."
  | Some term =>
      mkResponse 200
        (BRows (filter (fun m => like (title m) term
                                 || like (director m) term
                                 || like (genre m) term) (rows st)))
  end.

(** POST /api/movies *)
Definition post_movie (data : MovieData) (st : Store) : Response * Store :=
  if negb (truthy (d_title data)) || negb (truthy (d_director data)) then
    (error 400 "Title and Director are required.", st)
  else
    let new_id := auto_increment st in
    match ServerJs.insert_row sql_store new_id (d_title data)
            (d_director data) (d_year data) (d_genre data)
            (d_description data) (d_poster_url data) with
    | SqlOk m =>
        let l := rows st ++ [m] in
        (mkResponse 201 (BMovie (hd m (select_by_id new_id l))),
         mkStore l (new_id + 1))
    | SqlFail _ => (error 500 "Failed to add movie", st)
    end.

Definition assign (a : Assignment) (m : Movie) : SqlResult Movie :=
  match a with
  | SetColumn c v =>
      match sql_store c v with
      | SqlOk v' => SqlOk (set_column c v' m)
      | SqlFail code => SqlFail code
      end
  | SetAverageRating q =>
      match stored_average (round_double q) with
      | SqlOk a => SqlOk (set_aggregate a (num_ratings m) m)
      | SqlFail code => SqlFail code
      end
  | SetNumRatings n =>
      match store_int n with
      | SqlOk n' => SqlOk (set_aggregate (average_rating m) n' m)
      | SqlFail code => SqlFail code
      end
  | SetUnknown _ => SqlFail "ER_BAD_FIELD_ERROR"
  end.

Fixpoint assign_all (l : list Assignment) (m : Movie) : SqlResult Movie :=
  match l with
  | [] => SqlOk m
  | a :: r =>
      match assign a m with
      | SqlOk m' => assign_all r m'
      | SqlFail code => SqlFail code
      end
  end.

(** [UPDATE movies SET ? WHERE id = ?] over the table: the statement
    fails as a whole when one assignment fails. *)
Fixpoint update_set (i : Z) (l : list Assignment) (t : list Movie)
  : SqlResult (list Movie) :=
  match t with
  | [] => SqlOk []
  | m :: r =>
      match (if id m =? i then assign_all l m else SqlOk m),
            update_set i l r with
      | SqlOk m', SqlOk r' => SqlOk (m' :: r')
      | SqlFail code, _ | _, SqlFail code => SqlFail code
      end
  end.

Definition is_unknown (a : Assignment) : bool :=
  match a with SetUnknown _ => true | _ => false end.

(** PUT /api/movies/:id.  An empty body, or a key that names no column,
    makes the statement ill-formed whether or not a row matches. *)
Definition put_movie (i : Z) (movieData : list Assignment) (st : Store)
  : Response * Store :=
  match movieData with
  | [] => (error 500 "Failed to update movie", st)
  | _ :: _ =>
      if existsb is_unknown movieData then
        (error 500 "Failed to update movie", st)
      else
        match update_set i movieData (rows st) with
        | SqlOk l => (message 200 "Movie updated successfully", with_rows st l)
        | SqlFail _ => (error 500 "Failed to update movie", st)
        end
  end.

End Handlers.

End TxBackend.

(** ** The specification's vocabulary *)

(** Rounding to two fractional digits, half away from zero, as a number of
    hundredths. *)
Definition round2 (x : Q) : Z :=
  if Qle_bool 0 x then Qfloor (x * 100 + (1 # 2))
  else Qceiling (x * 100 - (1 # 2)).

(** The stored pair (averageRating in hundredths, numRatings) of item [i]. *)
Definition aggregate (i : Z) (st : Store) : option (Z * Z) :=
  match select_by_id i (rows st) with
  | m :: _ => Some (average_rating m, num_ratings m)
  | [] => None
  end.

(** The average after one more rating [r], from the stored pair [(a, n)],
    as a rational. *)
Definition exact_average (a n r : Z) : Q :=
  (decimal_value a * inject_Z n + inject_Z r) / inject_Z (n + 1).

(** One submission folded into an aggregate. *)
Definition fold_rating (agg : Z * Z) (r : Z) : Z * Z :=
  (round2 ((decimal_value (fst agg) * inject_Z (snd agg) + inject_Z r)
           / inject_Z (snd agg + 1)),
   snd agg + 1).

(** [x] lies halfway between two hundredths. *)
Definition tie (x : Q) : bool :=
  Qeq_bool (x * 100 + (1 # 2)) (inject_Z (Qfloor (x * 100 + (1 # 2)))).

(** [k] hundredths is [x] rounded to two fractional digits, or, when [x]
    is a tie, the hundredth below it. *)
Definition near_round2 (x : Q) (k : Z) : Prop :=
  k = round2 x \/ (tie x = true /\ k = round2 x - 1).

Definition valid_rating (r : Z) : Prop := 1 <= r <= 5.

Definition sum (rs : list Z) : Z := fold_right Z.add 0 rs.

Definition mean (rs : list Z) : Q :=
  inject_Z (sum rs) / inject_Z (Z.of_nat (List.length rs)).

(** Ratings submitted one after the other. *)
Definition server_submit_all (found_rows : bool) (i : Z) (rs : list Z)
  (st : Store) : Store :=
  fold_left
    (fun s r => snd (ServerJs.post_rate found_rows (IdInt i)
                       (JNum (inject_Z r)) s))
    rs st.

Definition tx_submit_all (i : Z) (rs : list Z) (st : Store) : Store :=
  fold_left
    (fun s r => snd (TxBackend.post_rate i (JNum (inject_Z r)) s))
    rs st.

(** The stored pairs that a sequence of submissions can lead to: each
    submission stores the average rounded to two fractional digits, or the
    hundredth below it when the average is a tie. *)
Inductive rated_all : Z * Z -> list Z -> Z * Z -> Prop :=
  | rated_nil (agg : Z * Z) : rated_all agg [] agg
  | rated_cons (a n r k : Z) (rs : list Z) (agg : Z * Z) :
      near_round2 (exact_average a n r) k ->
      rated_all (k, n + 1) rs agg ->
      rated_all (a, n) (r :: rs) agg.

(** No submission of [rs], folded from [agg] on, meets a tie. *)
Fixpoint tie_free (agg : Z * Z) (rs : list Z) : bool :=
  match rs with
  | [] => true
  | r :: rs' =>
      negb (tie (exact_average (fst agg) (snd agg) r))
      && tie_free (fold_rating agg r) rs'
  end.

(** mysql2 opens a connection with CLIENT_FOUND_ROWS unless the flag is
    taken out of its configuration, which db.js does not do:
    [affectedRows] counts the rows that the WHERE clause matched. *)
Definition mysql2_found_rows : bool := true.

(** ** The seeded table (backend/db/init.sql) *)

Definition inception : Movie :=
  mkMovie 1 (SText "Inception") (SText "Christopher Nolan") (SInt 2010)
    (SText "Sci-Fi") 0 0
    (SText "A thief who steals corporate secrets through the use of dream-sharing technology is given the inverse task of planting an idea into the mind of a C.E.O.")
    (SText "https://image.tmdb.org/t/p/w500/oYuLEt3zVCKq57qu2F8dT7NIa6f.jpg").

Definition shawshank : Movie :=
  mkMovie 2 (SText "The Shawshank Redemption") (SText "Frank Darabont")
    (SInt 1994) (SText "Drama") 0 0
    (SText "Two imprisoned men bond over a number of years, finding solace and eventual redemption through acts of common decency.")
    (SText "https://image.tmdb.org/t/p/w500/q6y0Go1tsGEsmtFryDOJo3dEmqu.jpg").

Definition pulp_fiction : Movie :=
  mkMovie 3 (SText "Pulp Fiction") (SText "Quentin Tarantino") (SInt 1994)
    (SText "Crime") 0 0
    (SText "The lives of two mob hitmen, a boxer, a gangster and his wife, and a pair of diner bandits intertwine in four tales of violence and redemption.")
    (SText "https://image.tmdb.org/t/p/w500/d5iIlFn5s0ImszYzBPb8JPIfbXD.jpg").

Definition seed : Store := mkStore [inception; shawshank; pulp_fiction] 4.

(** Row [m'] is row [m] up to its two aggregate columns. *)
Definition same_but_aggregate (m m' : Movie) : Prop :=
  id m' = id m /\ title m' = title m /\ director m' = director m
  /\ year m' = year m /\ genre m' = genre m
  /\ description m' = description m /\ poster_url m' = poster_url m.

(** Table [st'] is table [st] row by row, up to the aggregate columns of
    the rows with id [i]. *)
Definition rating_frame (i : Z) (st st' : Store) : Prop :=
  auto_increment st' = auto_increment st
  /\ Forall2 (fun m m' => same_but_aggregate m m' /\ (id m <> i -> m' = m))
             (rows st) (rows st').

(** ** Instances of the database parameters used in the examples *)

(** Strings are stored as text, integral numbers as integers, [null] and
    [undefined] as NULL except in the NOT NULL title; the rest is refused. *)
Definition example_store (c : Column) (v : JsVal) : SqlResult SqlVal :=
  match v with
  | JUndefined | JNull =>
      match c with
      | CTitle => SqlFail "ER_BAD_NULL_ERROR"
      | _ => SqlOk SNull
      end
  | JStr s =>
      match c with
      | CYear => SqlFail "ER_TRUNCATED_WRONG_VALUE_FOR_FIELD"
      | _ => SqlOk (SText s)
      end
  | JNum q =>
      match c with
      | CYear =>
          if isInteger q then SqlOk (SInt (Qfloor q))
          else SqlFail "ER_TRUNCATED_WRONG_VALUE_FOR_FIELD"
      | _ => SqlFail "ER_TRUNCATED_WRONG_VALUE_FOR_FIELD"
      end
  | JBool _ => SqlFail "ER_TRUNCATED_WRONG_VALUE_FOR_FIELD"
  end.

Fixpoint contains (pattern s : string) : bool :=
  String.prefix pattern s
  || match s with
     | EmptyString => false
     | String _ s' => contains pattern s'
     end.

(** A case-sensitive substring test on text columns. *)
Definition example_like (v : SqlVal) (pattern : string) : bool :=
  match v with
  | SText s => contains pattern s
  | _ => false
  end.

(** A PUT body that repeats what row 3 of the seeded table holds. *)
Definition same_as_pulp_fiction : MovieData :=
  mkMovieData (JStr "Pulp Fiction") JUndefined (JNum 1994) JUndefined
              JUndefined JUndefined.

(** Every row of [st'] carries the aggregate of a row of [st] with the same
    id, or the default (0.00, 0). *)
Definition aggregates_kept (st st' : Store) : Prop :=
  Forall (fun m' =>
            (exists m, In m (rows st) /\ id m = id m'
                       /\ average_rating m = average_rating m'
                       /\ num_ratings m = num_ratings m')
            \/ (average_rating m' = 0 /\ num_ratings m' = 0))
         (rows st').

(** Every row of [st'] carries the aggregate of the row of [st] with its
    id, or has an id that no row of [st] has and the default (0.00, 0). *)
Definition aggregates_preserved (st st' : Store) : Prop :=
  Forall (fun m' =>
            (exists m, In m (rows st) /\ id m = id m'
                       /\ average_rating m = average_rating m'
                       /\ num_ratings m = num_ratings m')
            \/ ((forall m, In m (rows st) -> id m <> id m')
                /\ average_rating m' = 0 /\ num_ratings m' = 0))
         (rows st').




Definition title_pulp : SearchQuery :=
  mkSearchQuery (Some "Pulp"%string) None None None None.


(** ** Concurrent submissions

    A handler gives way to other requests at each [await].  A request in
    flight is the phase it has reached; a schedule names, one after the
    other, the request that runs up to its next [await].  All requests
    rate the same item [i] with a rating that passed validation. *)

Module Interleaving.

Fixpoint set_nth {A : Type} (k : nat) (x : A) (l : list A) : list A :=
  match l, k with
  | [], _ => []
  | _ :: t, O => x :: t
  | h :: t, S k' => h :: set_nth k' x t
  end.

(** *** server.js: SELECT, then UPDATE, on the shared pool *)

Inductive Phase : Type :=
  | Pending (r : Z)
  | Selected (r a n : Z)
  | Finished (r : Z) (resp : Response).

(** Up to the answer of the SELECT. *)
Definition server_select (i r : Z) (st : Store) : Phase :=
  match select_by_id i (rows st) with
  | [] => Finished r (message 404 "Movie not found.")
  | currentMovie :: _ =>
      Selected r (average_rating currentMovie) (num_ratings currentMovie)
  end.

(** From the answer of the SELECT to the response. *)
Definition server_update (found_rows : bool) (i r a n : Z) (st : Store)
  : Phase * Store :=
  let (resp, st') :=
    ServerJs.rate_update found_rows (IdInt i) (Fin (inject_Z r)) a n st in
  (Finished r resp, st').

Record Config : Type := mkConfig {
  store : Store;
  threads : list Phase
}.

Definition server_advance (found_rows : bool) (i : Z) (k : nat) (c : Config)
  : Config :=
  match nth_error (threads c) k with
  | Some (Pending r) =>
      mkConfig (store c)
               (set_nth k (server_select i r (store c)) (threads c))
  | Some (Selected r a n) =>
      let (ph, st') := server_update found_rows i r a n (store c) in
      mkConfig st' (set_nth k ph (threads c))
  | Some (Finished _ _) | None => c
  end.

Definition server_run (found_rows : bool) (i : Z) (schedule : list nat)
  (c : Config) : Config :=
  fold_left (fun c k => server_advance found_rows i k c) schedule c.

(** *** The transactional back end: SELECT ... FOR UPDATE, UPDATE, COMMIT

    The row lock taken by [SELECT ... FOR UPDATE] is held until the
    transaction ends; a second transaction that asks for it waits.  The
    UPDATE is not visible to others before the COMMIT, so the two are one
    step here. *)

Inductive TxPhase : Type :=
  | TxPending (r : Z)
  | TxLocked (r a n : Z)
  | TxFinished (r : Z) (resp : Response).

Record TxConfig : Type := mkTxConfig {
  tx_store : Store;
  tx_lock : option nat;
  tx_threads : list TxPhase
}.

(** From the answer of the locking SELECT to the COMMIT. *)
Definition tx_update (i r a n : Z) (st : Store) : TxPhase * Store :=
  let (resp, st') :=
    TxBackend.rate_update i (JNum (inject_Z r)) a n st in
  (TxFinished r resp, st').

Definition tx_advance (i : Z) (k : nat) (c : TxConfig) : TxConfig :=
  match nth_error (tx_threads c) k with
  | Some (TxPending r) =>
      match tx_lock c with
      | Some _ => c
      | None =>
          match select_by_id i (rows (tx_store c)) with
          | [] =>
              mkTxConfig (tx_store c) None
                (set_nth k (TxFinished r (error 404 "Movie not found"))
                         (tx_threads c))
          | movie :: _ =>
              mkTxConfig (tx_store c) (Some k)
                (set_nth k (TxLocked r (average_rating movie)
                                     (num_ratings movie))
                         (tx_threads c))
          end
      end
  | Some (TxLocked r a n) =>
      let (ph, st') := tx_update i r a n (tx_store c) in
      mkTxConfig st' None (set_nth k ph (tx_threads c))
  | Some (TxFinished _ _) | None => c
  end.

Definition tx_run (i : Z) (schedule : list nat) (c : TxConfig) : TxConfig :=
  fold_left (fun c k => tx_advance i k c) schedule c.

Definition tx_finished (ph : TxPhase) : bool :=
  match ph with TxFinished _ _ => true | _ => false end.

Definition tx_rating (ph : TxPhase) : Z :=
  match ph with
  | TxPending r | TxLocked r _ _ | TxFinished r _ => r
  end.

(** Ratings of the requests that have been answered. *)
Definition tx_answered (l : list TxPhase) : list Z :=
  map tx_rating (filter tx_finished l).


End Interleaving.

(** The invariant of the transactional interleavings on item [i], which
    started from table [st]: the table is what the answered requests leave
    when they are served one after the other in some order; the request
    that holds the row lock, and no other, is past its SELECT, and what
    it read is what the table holds. *)
Definition tx_inv (i : Z) (st : Store) (c : Interleaving.TxConfig) : Prop :=
  exists order,
    Permutation order (Interleaving.tx_answered (Interleaving.tx_threads c))
    /\ Interleaving.tx_store c = tx_submit_all i order st
    /\ match Interleaving.tx_lock c with
       | None =>
           forall k r a n,
             nth_error (Interleaving.tx_threads c) k
             <> Some (Interleaving.TxLocked r a n)
       | Some k =>
           (exists r a n,
               nth_error (Interleaving.tx_threads c) k
               = Some (Interleaving.TxLocked r a n)
               /\ aggregate i (Interleaving.tx_store c) = Some (a, n))
           /\ forall k' r a n,
               nth_error (Interleaving.tx_threads c) k'
               = Some (Interleaving.TxLocked r a n) -> k' = k
       end.

(** ** Further vocabulary *)


Definition get_column (c : Column) (m : Movie) : SqlVal :=
  match c with
  | CTitle => title m
  | CDirector => director m
  | CYear => year m
  | CGenre => genre m
  | CDescription => description m
  | CPosterUrl => poster_url m
  end.

(** The field of a movie body that is written to column [c]. *)
Definition body_field (data : MovieData) (c : Column) : JsVal :=
  match c with
  | CTitle => d_title data
  | CDirector => d_director data
  | CYear => d_year data
  | CGenre => d_genre data
  | CDescription => d_description data
  | CPosterUrl => d_poster_url data
  end.

(** The primary key: ids are positive, pairwise distinct, and below the
    AUTO_INCREMENT counter. *)
Definition primary_key (st : Store) : Prop :=
  NoDup (map id (rows st))
  /\ Forall (fun m => 0 < id m < auto_increment st) (rows st)
  /\ 0 < auto_increment st.


(** All sequences of [n] ratings in 1..5. *)
Fixpoint all_sequences (n : nat) : list (list Z) :=
  match n with
  | O => [[]]
  | S n' =>
      flat_map (fun l => map (fun r => r :: l) [1; 2; 3; 4; 5])
               (all_sequences n')
  end.

(** The stored average after [rs] is the rounded mean of [rs]. *)
Definition no_drift (rs : list Z) : bool :=
  fst (fold_left fold_rating rs (0, 0)) =? round2 (mean rs).

(** ** Start-up of the transactional back end *)

Module Startup.

(** How [connectWithRetry] ends: the pool answered [SELECT 1] at attempt
    [attempt] (counted from 0), the process exited, or the loop ran out. *)
Inductive Outcome : Type :=
  | Connected (attempt : nat) (waited_ms : Z)
  | Exited (code : Z) (waited_ms : Z)
  | LoopEnded (waited_ms : Z).

(** The [while (retries)] loop; [probe k] tells whether attempt [k]
    connects and answers the test query. *)
Fixpoint retry_loop (probe : nat -> bool) (attempt : nat) (waited_ms : Z)
  (retries : nat) : Outcome :=
  match retries with
  | O => LoopEnded waited_ms
  | S retries' =>
      if probe attempt then Connected attempt waited_ms
      else if Nat.eqb retries' 0 then Exited 1 waited_ms
      else retry_loop probe (S attempt) (waited_ms + 5000) retries'
  end.

Definition connectWithRetry (probe : nat -> bool) : Outcome :=
  retry_loop probe 0 0 5.

(** [startServer]: the server listens once [connectWithRetry] returns. *)
Definition startServer (probe : nat -> bool) : bool :=
  match connectWithRetry probe with
  | Connected _ _ | LoopEnded _ => true
  | Exited _ _ => false
  end.

End Startup.

(** A body for POST /api/movies. *)
Definition heat : MovieData :=
  mkMovieData (JStr "Heat") (JStr "Michael Mann") (JNum 1995) JUndefined
              JUndefined (JStr "https://example.org/posters/Heat.JPG").

(** Row [m'] is row [m] after a partial update with body [data]: each
    column whose field is given holds what MySQL stored for it, each other
    column, the id and the aggregate are those of [m]. *)
Definition partially_updated
  (sql_store : Column -> JsVal -> SqlResult SqlVal) (data : MovieData)
  (m m' : Movie) : Prop :=
  id m' = id m
  /\ average_rating m' = average_rating m
  /\ num_ratings m' = num_ratings m
  /\ forall c,
       (body_field data c = JUndefined -> get_column c m' = get_column c m)
       /\ (body_field data c <> JUndefined ->
           sql_store c (body_field data c) = SqlOk (get_column c m')).

(** The value that POST /api/movies of server.js passes for column [c]:
    title and director as given, the optional fields through [|| null]. *)
Definition inserted_value (data : MovieData) (c : Column) : JsVal :=
  match c with
  | CTitle | CDirector => body_field data c
  | _ => ServerJs.or_null (body_field data c)
  end.


(** Query [q] with its year parameter set to [y]. *)
Definition with_year (q : SearchQuery) (y : string) : SearchQuery :=
  mkSearchQuery (q_title q) (q_director q) (q_genre q) (Some y) (q_term q).

(** The string is empty or starts with a character that is no digit. *)
Definition no_leading_digit (t : string) : Prop :=
  match t with
  | EmptyString => True
  | String c _ => digit_value c = None
  end.

(** * Properties *)

(** ** Rounding *)

Lemma half_away_round2 (x : Q) :
  (if Qle_bool 0 x then half_up x else - half_up (- x)) = round2 x.
Proof.
  unfold round2, half_up, Qceiling.
  destruct (Qle_bool 0 x); [reflexivity|].
  f_equal. apply Qfloor_comp. ring.
Qed.

Lemma toFixed2_round2 (x : Q) : toFixed2 x = round2 x.
Proof. apply half_away_round2. Qed.

Lemma decimal_3_2_round2 (x : Q) : decimal_3_2 x = round2 x.
Proof. apply half_away_round2. Qed.

Lemma Qle_bool_comp (a b c d : Q) :
  (a == c)%Q -> (b == d)%Q -> Qle_bool a b = Qle_bool c d.
Proof.
  intros Hac Hbd.
  destruct (Qle_bool a b) eqn:E1, (Qle_bool c d) eqn:E2; try reflexivity.
  - apply Qle_bool_iff in E1. rewrite Hac, Hbd in E1.
    apply Qle_bool_iff in E1. congruence.
  - apply Qle_bool_iff in E2. rewrite <- Hac, <- Hbd in E2.
    apply Qle_bool_iff in E2. congruence.
Qed.

Lemma round2_comp (x y : Q) : (x == y)%Q -> round2 x = round2 y.
Proof.
  intros H. unfold round2.
  rewrite (Qle_bool_comp 0 x 0 y) by (reflexivity || exact H).
  destruct (Qle_bool 0 y).
  - apply Qfloor_comp. rewrite H. reflexivity.
  - apply Qceiling_comp. rewrite H. reflexivity.
Qed.

(** [round2] picks a nearest hundredth. *)
Lemma round2_nearest (x : Q) :
  (Qabs (x * 100 - inject_Z (round2 x)) <= 1 # 2)%Q.
Proof.
  unfold round2. apply Qabs_Qle_condition.
  destruct (Qle_bool 0 x).
  - pose proof (Qfloor_le (x * 100 + (1 # 2))) as Hl.
    pose proof (Qlt_floor (x * 100 + (1 # 2))) as Hu.
    rewrite inject_Z_plus in Hu. change (inject_Z 1) with 1%Q in Hu.
    set (k := inject_Z (Qfloor (x * 100 + (1 # 2)))) in *. clearbody k.
    split; lra.
  - pose proof (Qle_ceiling (x * 100 - (1 # 2))) as Hl.
    pose proof (Qceiling_lt (x * 100 - (1 # 2))) as Hu.
    unfold Z.sub in Hu. rewrite inject_Z_plus, inject_Z_opp in Hu.
    change (inject_Z 1) with 1%Q in Hu.
    set (k := inject_Z (Qceiling (x * 100 - (1 # 2)))) in *. clearbody k.
    split; lra.
Qed.

(** ** The table *)

Lemma select_update_same (i : Z) (f : Movie -> Movie) (l : list Movie) :
  (forall m, id (f m) = id m) ->
  select_by_id i (update_where_id i f l) = map f (select_by_id i l).
Proof.
  intros Hid. unfold select_by_id, update_where_id.
  induction l as [|m l IH]; simpl; [reflexivity|].
  destruct (id m =? i) eqn:E; simpl.
  - rewrite Hid, E. simpl. f_equal. exact IH.
  - rewrite E. exact IH.
Qed.

Lemma select_update_other (i j : Z) (f : Movie -> Movie) (l : list Movie) :
  (forall m, id (f m) = id m) ->
  j <> i ->
  select_by_id j (update_where_id i f l) = select_by_id j l.
Proof.
  intros Hid Hij. unfold select_by_id, update_where_id.
  induction l as [|m l IH]; simpl; [reflexivity|].
  destruct (id m =? i) eqn:E.
  - rewrite Hid.
    apply Z.eqb_eq in E.
    assert (Hm : (id m =? j) = false) by (apply Z.eqb_neq; congruence).
    rewrite Hm. exact IH.
  - destruct (id m =? j); [f_equal|]; exact IH.
Qed.

Lemma Movie_eqb_num_ratings (a b : Movie) :
  num_ratings a <> num_ratings b -> Movie_eqb a b = false.
Proof.
  intros H. unfold Movie_eqb.
  apply Z.eqb_neq in H. rewrite H.
  rewrite !andb_false_r. reflexivity.
Qed.

Lemma changed_rows_rating (i a : Z) (l : list Movie) (m : Movie)
  (rest : list Movie) :
  select_by_id i l = m :: rest ->
  0 < changed_rows i (set_aggregate a (num_ratings m + 1)) l.
Proof.
  intros H. unfold changed_rows. rewrite H. simpl.
  rewrite Movie_eqb_num_ratings by (simpl; lia).
  simpl. lia.
Qed.

Lemma aggregate_select (i : Z) (st : Store) (A N : Z) :
  aggregate i st = Some (A, N) ->
  exists m rest, select_by_id i (rows st) = m :: rest
                 /\ average_rating m = A /\ num_ratings m = N.
Proof.
  unfold aggregate. destruct (select_by_id i (rows st)) as [|m rest].
  - discriminate.
  - intros H. inversion H. exists m, rest. auto.
Qed.

(** ** Rounding to a double *)

Lemma round_half_even_error (y : Q) :
  (inject_Z (round_half_even y) - (1 # 2) <= y
   /\ y <= inject_Z (round_half_even y) + (1 # 2))%Q.
Proof.
  unfold round_half_even.
  pose proof (Qfloor_le y) as Hl. pose proof (Qlt_floor y) as Hu.
  rewrite inject_Z_plus in Hu. change (inject_Z 1) with 1%Q in Hu.
  destruct (y - inject_Z (Qfloor y) ?= 1 # 2)%Q eqn:E.
  - apply Qeq_alt in E. destruct (Z.even (Qfloor y)).
    + split; lra.
    + rewrite inject_Z_plus. change (inject_Z 1) with 1%Q. split; lra.
  - apply Qlt_alt in E. split; lra.
  - apply Qgt_alt in E. rewrite inject_Z_plus. change (inject_Z 1) with 1%Q.
    split; lra.
Qed.

Lemma pow2_pos (e : Z) : (0 < 2 ^ e)%Q.
Proof. apply Qpower_0_lt. reflexivity. Qed.

Lemma pow2_Z (n : Z) : 0 <= n -> (inject_Z (2 ^ n) == 2 ^ n)%Q.
Proof. intros H. rewrite (Zpower_Qpower 2 n H). reflexivity. Qed.

Lemma pow2_succ (e : Z) : (2 ^ (e + 1) == 2 * 2 ^ e)%Q.
Proof.
  rewrite Qpower_plus by (intros H; discriminate H).
  change (2 ^ 1)%Q with 2%Q. ring.
Qed.

Lemma log2_quotient (p : Z) (q : positive) :
  0 < p ->
  (2 ^ (Z.log2 p - Z.log2 (Zpos q) - 1) <= p # q)%Q
  /\ (p # q < 2 ^ (Z.log2 p - Z.log2 (Zpos q) + 1))%Q.
Proof.
  intros Hp.
  destruct (Z.log2_spec p Hp) as [Hp1 Hp2].
  destruct (Z.log2_spec (Zpos q) (Pos2Z.is_pos q)) as [Hq1 Hq2].
  pose proof (Z.log2_nonneg p) as Hlp.
  pose proof (Z.log2_nonneg (Zpos q)) as Hlq.
  set (lp := Z.log2 p) in *. set (lq := Z.log2 (Zpos q)) in *.
  assert (E1 : (2 ^ (lp - lq - 1) == inject_Z (2 ^ lp) / inject_Z (2 ^ Z.succ lq))%Q).
  { rewrite !pow2_Z by lia.
    replace (lp - lq - 1) with (lp - Z.succ lq) by lia.
    apply Qpower_minus. intros H; discriminate H. }
  assert (E2 : (2 ^ (lp - lq + 1) == inject_Z (2 ^ Z.succ lp) / inject_Z (2 ^ lq))%Q).
  { rewrite !pow2_Z by lia.
    replace (lp - lq + 1) with (Z.succ lp - lq) by lia.
    apply Qpower_minus. intros H; discriminate H. }
  rewrite E1, E2.
  assert (Hpos1 : 0 < 2 ^ Z.succ lq) by (apply Z.pow_pos_nonneg; lia).
  assert (Hpos2 : 0 < 2 ^ lq) by (apply Z.pow_pos_nonneg; lia).
  split.
  - unfold Qle, Qdiv, Qmult, Qinv, inject_Z. simpl.
    destruct (2 ^ Z.succ lq) as [|d|d] eqn:Ed; try lia. simpl.
    nia.
  - unfold Qlt, Qdiv, Qmult, Qinv, inject_Z. simpl.
    destruct (2 ^ lq) as [|d|d] eqn:Ed; try lia. simpl.
    nia.
Qed.

Lemma binade_spec (x : Q) :
  (0 < x)%Q -> (2 ^ binade x <= x)%Q /\ (x < 2 ^ (binade x + 1))%Q.
Proof.
  intros Hx. destruct x as [p q].
  assert (Hp : 0 < p) by (unfold Qlt in Hx; simpl in Hx; lia).
  destruct (log2_quotient p q Hp) as [Hlo Hhi].
  unfold binade. simpl Qnum. simpl Qden.
  set (k := Z.log2 p - Z.log2 (Zpos q)) in *.
  destruct (Qle_bool (2 ^ k) (p # q)) eqn:E.
  - apply Qle_bool_iff in E. split; assumption.
  - split; [exact Hlo|].
    replace (k - 1 + 1) with k by lia.
    apply Qnot_le_lt. intros H. apply Qle_bool_iff in H. congruence.
Qed.


Lemma binade_normal (x : Q) :
  (2 ^ (-1022) <= x)%Q -> -1022 <= binade x.
Proof.
  intros Hx.
  assert (Hpos : (0 < x)%Q)
    by (eapply Qlt_le_trans; [apply (pow2_pos (-1022)) | exact Hx]).
  destruct (binade_spec x Hpos) as [_ Hhi].
  assert (Hlt : (2 ^ (-1022) < 2 ^ (binade x + 1))%Q)
    by (eapply Qle_lt_trans; [exact Hx | exact Hhi]).
  apply Qpower_lt_compat_l_inv in Hlt; [lia | reflexivity].
Qed.

Lemma Qabs_positive (x : Q) : (0 < x)%Q -> Qabs x = x.
Proof.
  destruct x as [p q]. unfold Qlt. simpl. intros H.
  destruct p; try lia. reflexivity.
Qed.

Lemma round_double_normal (x : Q) :
  (2 ^ (-1022) <= x)%Q -> (x <= 2 ^ 1000)%Q ->
  exists y, round_double x = Fin y
            /\ (x - x * unit_roundoff <= y)%Q /\ (y <= x + x * unit_roundoff)%Q.
Proof.
  intros Hlo Hhi.
  assert (Hpos : (0 < x)%Q)
    by (eapply Qlt_le_trans; [apply (pow2_pos (-1022)) | exact Hlo]).
  unfold round_double.
  assert (Hnz : Qeq_bool x 0 = false).
  { destruct (Qeq_bool x 0) eqn:E; [|reflexivity].
    apply Qeq_bool_iff in E. rewrite E in Hpos. discriminate Hpos. }
  assert (Hsign : Qle_bool 0 x = true) by (apply Qle_bool_iff; lra).
  rewrite Hnz, Hsign, (Qabs_positive x Hpos).
  pose proof (binade_normal x Hlo) as Hb.
  rewrite Z.max_l by lia.
  destruct (binade_spec x Hpos) as [Hb1 _].
  set (e := binade x - 52) in *.
  pose proof (pow2_pos e) as HE.
  assert (Hscale : (2 ^ e * 4503599627370496 <= x)%Q).
  { eapply Qle_trans; [|exact Hb1].
    replace (binade x) with (e + 52) by (unfold e; lia).
    rewrite Qpower_plus by (intros H; discriminate H).
    apply Qle_lteq. right. apply Qmult_comp; [reflexivity|].
    vm_compute. reflexivity. }
  pose proof (round_half_even_error (x / 2 ^ e)) as [Hm1 Hm2].
  set (m := inject_Z (round_half_even (x / 2 ^ e))) in *.
  assert (Hx : (x == x / 2 ^ e * 2 ^ e)%Q).
  { field. intros H. rewrite H in HE. discriminate HE. }
  set (z := (x / 2 ^ e)%Q) in *. set (E := (2 ^ e)%Q) in *.
  assert (H1 : ((m - (1 # 2)) * E <= z * E)%Q)
    by (apply Qmult_le_compat_r; lra).
  assert (H2 : (z * E <= (m + (1 # 2)) * E)%Q)
    by (apply Qmult_le_compat_r; lra).
  assert (Hy1 : (x - x * unit_roundoff <= m * E)%Q) by (unfold unit_roundoff; lra).
  assert (Hy2 : (m * E <= x + x * unit_roundoff)%Q) by (unfold unit_roundoff; lra).
  assert (Hover : Qle_bool (2 ^ 1024) (m * E) = false).
  { destruct (Qle_bool (2 ^ 1024) (m * E)) eqn:Ho; [|reflexivity].
    apply Qle_bool_iff in Ho. exfalso.
    assert (H1001 : (2 ^ 1001 < 2 ^ 1024)%Q)
      by (apply Qpower_lt_compat_l; [lia | reflexivity]).
    pose proof (pow2_succ 1000) as Hs. simpl Z.add in Hs.
    unfold unit_roundoff in Hy2. lra. }
  rewrite Hover. eexists. split; [reflexivity|].
  rewrite Qred_correct. split; assumption.
Qed.

(** The value computed for the magnitude [a] of a non-zero number. *)
Lemma magnitude_error (a : Q) :
  (0 < a)%Q ->
  let e := Z.max (binade a - 52) (-1074) in
  let y := (inject_Z (round_half_even (a / 2 ^ e)) * 2 ^ e)%Q in
  (a - (a * unit_roundoff + (1 # 1152921504606846976)) <= y)%Q
  /\ (y <= a + (a * unit_roundoff + (1 # 1152921504606846976)))%Q
  /\ (0 <= y)%Q.
Proof.
  intros Hpos e y.
  destruct (binade_spec a Hpos) as [Hb1 _].
  pose proof (pow2_pos e) as HE.
  pose proof (round_half_even_error (a / 2 ^ e)) as [Hm1 Hm2].
  assert (Hx : (a == a / 2 ^ e * 2 ^ e)%Q).
  { field. intros H. rewrite H in HE. discriminate HE. }
  assert (Hz : (0 < a / 2 ^ e)%Q).
  { apply Qlt_shift_div_l; [exact HE | lra]. }
  assert (Hm0 : (0 <= inject_Z (round_half_even (a / 2 ^ e)))%Q).
  { assert (Hge : -1 < round_half_even (a / 2 ^ e)).
    { apply Z.lt_le_trans with (m := 0); [lia|].
      assert (H : (inject_Z 0 - 1 < inject_Z (round_half_even (a / 2 ^ e)))%Q).
      { change (inject_Z 0) with 0%Q. lra. }
      destruct (Z_lt_le_dec (round_half_even (a / 2 ^ e)) 0) as [Hneg | Hok];
        [|exact Hok].
      exfalso. assert (Hle : round_half_even (a / 2 ^ e) <= -1) by lia.
      rewrite Zle_Qle in Hle. change (inject_Z (-1)) with (-1)%Q in Hle.
      change (inject_Z 0) with 0%Q in H. lra. }
    change 0%Q with (inject_Z 0). rewrite <- Zle_Qle. lia. }
  assert (Hcases : e = binade a - 52 \/ e = -1074) by (unfold e; lia).
  assert (Hsmall : (2 ^ e * (1 # 2)
                    <= a * unit_roundoff + (1 # 1152921504606846976))%Q).
  { destruct Hcases as [He | He].
    - assert (Hscale : (2 ^ e * 4503599627370496 <= a)%Q).
      { eapply Qle_trans; [|exact Hb1].
        replace (binade a) with (e + 52) by lia.
        rewrite Qpower_plus by (intros H; discriminate H).
        apply Qle_lteq. right. apply Qmult_comp; [reflexivity|].
        vm_compute. reflexivity. }
      unfold unit_roundoff. lra.
    - assert (Hle : (2 ^ e <= 2 ^ (-59))%Q)
        by (apply Qpower_le_compat_l; [lia | discriminate]).
      assert (E59 : (2 ^ (-59) == 1 # 576460752303423488)%Q)
        by (vm_compute; reflexivity).
      assert (Hau : (0 <= a * unit_roundoff)%Q)
        by (apply Qmult_le_0_compat; [lra | discriminate]).
      rewrite E59 in Hle. lra. }
  set (m := inject_Z (round_half_even (a / 2 ^ e))) in *.
  set (z := (a / 2 ^ e)%Q) in *. set (E := (2 ^ e)%Q) in *.
  assert (H1 : ((m - (1 # 2)) * E <= z * E)%Q)
    by (apply Qmult_le_compat_r; lra).
  assert (H2 : (z * E <= (m + (1 # 2)) * E)%Q)
    by (apply Qmult_le_compat_r; lra).
  assert (H3 : (0 <= m * E)%Q) by (apply Qmult_le_0_compat; lra).
  unfold y. fold m. repeat split; lra.
Qed.


Lemma Fin_inj (a b : Q) : Fin a = Fin b -> a = b.
Proof. intros H. congruence. Qed.

Lemma round_double_error (x y : Q) :
  round_double x = Fin y ->
  (Qabs (y - x) <= Qabs x * unit_roundoff + tiny)%Q.
Proof.
  unfold round_double.
  destruct (Qeq_bool x 0) eqn:Hz.
  - intros H. apply Fin_inj in H. rewrite <- H. apply Qeq_bool_iff in Hz.
    assert (E : (0 - x == 0)%Q) by (rewrite Hz; reflexivity).
    rewrite E, Hz. vm_compute. discriminate.
  - assert (Hne : ~ (x == 0)%Q).
    { intros H. apply Qeq_bool_iff in H. congruence. }
    assert (Ha : (0 < Qabs x)%Q).
    { destruct (Qle_lt_or_eq 0 (Qabs x) (Qabs_nonneg x)) as [H | H];
        [exact H|].
      exfalso. apply Hne. symmetry in H.
      destruct (Qabs_Qle_condition x 0) as [Hc _].
      assert (Hle : (Qabs x <= 0)%Q) by (rewrite H; apply Qle_refl).
      destruct (Hc Hle) as [H1 H2]. change (- 0)%Q with 0%Q in H1. lra. }
    destruct (magnitude_error (Qabs x) Ha) as (H1 & H2 & H3).
    set (Y := (inject_Z
                 (round_half_even
                    (Qabs x / 2 ^ Z.max (binade (Qabs x) - 52) (-1074)))
               * 2 ^ Z.max (binade (Qabs x) - 52) (-1074))%Q) in *.
    destruct (Qle_bool (2 ^ 1024) Y);
      [destruct (Qle_bool 0 x); discriminate|].
    destruct (Qle_bool 0 x) eqn:Hs; intros H; apply Fin_inj in H;
      rewrite <- H, Qred_correct; fold tiny in H1, H2.
    + apply Qle_bool_iff in Hs. rewrite (Qabs_pos x Hs) in *.
      apply Qabs_Qle_condition. split; lra.
    + assert (Hneg : (x <= 0)%Q).
      { apply Qlt_le_weak. apply Qnot_le_lt. intros Hle.
        apply Qle_bool_iff in Hle. congruence. }
      rewrite (Qabs_neg x Hneg) in *.
      apply Qabs_Qle_condition. split; lra.
Qed.

Lemma round_double_nonneg (x : Q) :
  (0 <= x)%Q -> (x <= 2 ^ 1000)%Q ->
  exists y, round_double x = Fin y /\ (0 <= y)%Q
            /\ (x - (x * unit_roundoff + tiny) <= y)%Q /\ (y <= x + (x * unit_roundoff + tiny))%Q.
Proof.
  intros H0 Hhi. unfold round_double.
  destruct (Qeq_bool x 0) eqn:Hz.
  - apply Qeq_bool_iff in Hz. exists 0%Q. split; [reflexivity|].
    split; [lra|]. rewrite Hz. split; vm_compute; discriminate.
  - assert (Hpos : (0 < x)%Q).
    { destruct (Qle_lt_or_eq 0 x H0) as [H | H]; [exact H|].
      exfalso. symmetry in H. apply Qeq_bool_iff in H. congruence. }
    assert (Hs : Qle_bool 0 x = true) by (apply Qle_bool_iff; exact H0).
    rewrite Hs.
    assert (Ha : (0 < Qabs x)%Q) by (rewrite (Qabs_pos x H0); exact Hpos).
    destruct (magnitude_error (Qabs x) Ha) as (H1 & H2 & H3).
    set (Y := (inject_Z
                 (round_half_even
                    (Qabs x / 2 ^ Z.max (binade (Qabs x) - 52) (-1074)))
               * 2 ^ Z.max (binade (Qabs x) - 52) (-1074))%Q) in *.
    rewrite (Qabs_pos x H0) in H1, H2. fold tiny in H1, H2.
    assert (Hover : Qle_bool (2 ^ 1024) Y = false).
    { destruct (Qle_bool (2 ^ 1024) Y) eqn:Ho; [|reflexivity].
      apply Qle_bool_iff in Ho. exfalso.
      assert (H1001 : (2 ^ 1002 <= 2 ^ 1024)%Q)
        by (apply Qpower_le_compat_l; [lia | discriminate]).
      pose proof (pow2_succ 1000) as Hs1. simpl Z.add in Hs1.
      pose proof (pow2_succ 1001) as Hs2. simpl Z.add in Hs2.
      assert (H1000 : (1 <= 2 ^ 1000)%Q).
      { change 1%Q with (2 ^ 0)%Q.
        apply Qpower_le_compat_l; [lia | discriminate]. }
      unfold unit_roundoff, tiny in *. lra. }
    rewrite Hover. eexists. split; [reflexivity|].
    rewrite Qred_correct. repeat split; assumption.
Qed.

(** ** The error of the rating arithmetic *)

Lemma below_big (x : Q) : (x <= 1000000000000)%Q -> (x <= 2 ^ 1000)%Q.
Proof.
  intros H. apply (Qle_trans _ _ _ H).
  apply Qle_bool_iff. vm_compute. reflexivity.
Qed.

Lemma product_bounds (p n lo hi : Q) :
  (lo <= p)%Q -> (p <= hi)%Q -> (0 <= n)%Q ->
  (lo * n <= p * n)%Q /\ (p * n <= hi * n)%Q.
Proof.
  intros H1 H2 Hn. split; apply Qmult_le_compat_r; assumption.
Qed.

Lemma quotient_bounds (s n lo hi : Q) :
  (0 < n)%Q -> (lo * n <= s)%Q -> (s <= hi * n)%Q ->
  (lo <= s / n)%Q /\ (s / n <= hi)%Q.
Proof.
  intros Hn H1 H2. split.
  - apply Qle_shift_div_l; assumption.
  - apply Qle_shift_div_r; assumption.
Qed.

Lemma decimal_value_bounds (A : Z) :
  0 <= A <= 999 -> (0 <= decimal_value A)%Q /\ (decimal_value A <= 999 # 100)%Q.
Proof.
  intros [H0 H1]. unfold decimal_value.
  assert (H0' : (inject_Z 0 <= inject_Z A)%Q) by (rewrite <- Zle_Qle; exact H0).
  assert (H1' : (inject_Z A <= inject_Z 999)%Q)
    by (rewrite <- Zle_Qle; exact H1).
  change (inject_Z 0) with 0%Q in H0'.
  change (inject_Z 999) with 999%Q in H1'.
  set (a := inject_Z A) in *. clearbody a.
  split; [apply Qle_shift_div_l | apply Qle_shift_div_r]; lra.
Qed.

(** The quotient that both handlers compute is a finite double within
    10^-13 of the exact average. *)
Lemma newAverageRating_close (A N : Z) (r : Q) :
  0 <= A <= 999 -> 0 <= N < 2147483647 -> (1 <= r)%Q -> (r <= 5)%Q ->
  exists d,
    newAverageRating (parseFloat A) N (Fin r) = Fin d
    /\ (0 <= d)%Q
    /\ (Qabs (d - (decimal_value A * inject_Z N + r) / inject_Z (N + 1))
        <= 1 # 10000000000000)%Q.
Proof.
  intros HA HN Hr1 Hr5.
  destruct (decimal_value_bounds A HA) as [Ha0 Ha1].
  assert (Hn0 : (0 <= inject_Z N)%Q)
    by (change 0%Q with (inject_Z 0); rewrite <- Zle_Qle; lia).
  assert (Hn1 : (inject_Z N <= 2147483646)%Q)
    by (change 2147483646%Q with (inject_Z 2147483646);
        rewrite <- Zle_Qle; lia).
  assert (Hsucc : (inject_Z (N + 1) == inject_Z N + 1)%Q)
    by (rewrite inject_Z_plus; reflexivity).
  unfold newAverageRating, parseFloat.
  set (a := decimal_value A) in *. set (n := inject_Z N) in *.
  clearbody a n.
  destruct (round_double_nonneg a Ha0) as (p & Ep & Hp0 & Hp1 & Hp2);
    [apply below_big; lra|].
  rewrite Ep. unfold js_mul.
  assert (Hplo : (a - ((999 # 100) * unit_roundoff + tiny) <= p)%Q)
    by (unfold unit_roundoff, tiny in *; lra).
  assert (Hphi : (p <= a + ((999 # 100) * unit_roundoff + tiny))%Q)
    by (unfold unit_roundoff, tiny in *; lra).
  destruct (product_bounds p n _ _ Hplo Hphi Hn0) as [Hpn1 Hpn2].
  assert (Hp10 : (p <= 10)%Q) by (unfold unit_roundoff, tiny in *; lra).
  destruct (product_bounds p n 0 10 Hp0 Hp10 Hn0) as [Hpn3 Hpn4].
  destruct (product_bounds a n 0 (999 # 100) Ha0 Ha1 Hn0) as [Han3 Han4].
  set (pn := (p * n)%Q) in *.
  destruct (round_double_nonneg pn) as (m & Em & Hm0 & Hm1 & Hm2);
    [lra | apply below_big; lra |].
  rewrite Em. unfold js_add.
  destruct (round_double_nonneg (m + r)) as (s & Es & Hs0 & Hs1 & Hs2);
    [lra | apply below_big; unfold unit_roundoff, tiny in *; lra |].
  rewrite Es. unfold js_div.
  assert (Hn1pos : (0 < inject_Z (N + 1))%Q) by (rewrite Hsucc; lra).
  assert (Hnz : Qeq_bool (inject_Z (N + 1)) 0 = false).
  { destruct (Qeq_bool (inject_Z (N + 1)) 0) eqn:E; [|reflexivity].
    apply Qeq_bool_iff in E. rewrite E in Hn1pos. lra. }
  rewrite Hnz.
  set (X := (a * n + r)%Q) in *.
  set (e1 := ((31 # 1) * unit_roundoff + (3 # 1) * tiny)%Q).
  assert (HsX1 : ((X / inject_Z (N + 1) - e1) * inject_Z (N + 1) <= s)%Q).
  { assert (E : ((X / inject_Z (N + 1) - e1) * inject_Z (N + 1)
                 == X - e1 * inject_Z (N + 1))%Q) by (field; lra).
    rewrite E, Hsucc. unfold e1, X, unit_roundoff, tiny in *.
    ring_simplify in Hpn1. ring_simplify in Hpn2.
    set (an := (a * n)%Q) in *. clearbody an pn. lra. }
  assert (HsX2 : (s <= (X / inject_Z (N + 1) + e1) * inject_Z (N + 1))%Q).
  { assert (E : ((X / inject_Z (N + 1) + e1) * inject_Z (N + 1)
                 == X + e1 * inject_Z (N + 1))%Q) by (field; lra).
    rewrite E, Hsucc. unfold e1, X, unit_roundoff, tiny in *.
    ring_simplify in Hpn1. ring_simplify in Hpn2.
    set (an := (a * n)%Q) in *. clearbody an pn. lra. }
  destruct (quotient_bounds s (inject_Z (N + 1)) _ _ Hn1pos HsX1 HsX2)
    as [Hq1 Hq2].
  assert (Hx0 : (0 <= X / inject_Z (N + 1))%Q).
  { apply Qle_shift_div_l; [exact Hn1pos|]. unfold X. lra. }
  assert (Hx10 : (X / inject_Z (N + 1) <= 10)%Q).
  { apply Qle_shift_div_r; [exact Hn1pos|]. rewrite Hsucc. unfold X. lra. }
  assert (Hq0 : (0 <= s / inject_Z (N + 1))%Q).
  { apply Qle_shift_div_l; [exact Hn1pos|]. lra. }
  set (x := (X / inject_Z (N + 1))%Q) in *.
  set (q := (s / inject_Z (N + 1))%Q) in *.
  destruct (round_double_nonneg q Hq0) as (d & Ed & Hd0 & Hd1 & Hd2);
    [apply below_big; unfold e1, unit_roundoff, tiny in *; lra|].
  rewrite Ed. exists d. split; [reflexivity|]. split; [exact Hd0|].
  apply Qabs_Qle_condition.
  unfold e1, unit_roundoff, tiny in *. clearbody x q. split; lra.
Qed.

(** The literal that mysql2 writes reads back as the double it stands
    for, so it is as near to it as rounding allows. *)
Lemma shortest_round_trips (v : Q) (n k : Z) (fuel : nat) :
  shortest v n k fuel = v \/ round_trips v (shortest v n k fuel) = true.
Proof.
  revert k. induction fuel as [|fuel IH]; intros k; simpl; [left; reflexivity|].
  destruct (find (round_trips v) (nearest_with_digits v n k)) as [c|] eqn:E.
  - right. apply (find_some _ _ E).
  - apply IH.
Qed.

Lemma nearest_with_digits_nonneg (v : Q) (n k : Z) (c : Q) :
  (0 <= v)%Q -> In c (nearest_with_digits v n k) -> (0 <= c)%Q.
Proof.
  intros Hv Hin. unfold nearest_with_digits in Hin.
  assert (Hscale : (0 < 10 ^ (n - k))%Q)
    by (apply Qpower_0_lt; reflexivity).
  set (scale := (10 ^ (n - k))%Q) in *.
  assert (Hs : 0 <= Qfloor (v / scale)).
  { assert (H : Qfloor 0 <= Qfloor (v / scale)).
    { apply Qfloor_resp_le. apply Qle_shift_div_l; [exact Hscale | lra]. }
    exact H. }
  set (s := Qfloor (v / scale)) in *.
  assert (Hlo : (0 <= inject_Z s * scale)%Q).
  { apply Qmult_le_0_compat; [|lra].
    change 0%Q with (inject_Z 0). rewrite <- Zle_Qle. exact Hs. }
  assert (Hhi : (0 <= inject_Z (s + 1) * scale)%Q).
  { apply Qmult_le_0_compat; [|lra].
    change 0%Q with (inject_Z 0). rewrite <- Zle_Qle. lia. }
  destruct (v - inject_Z s * scale ?= inject_Z (s + 1) * scale - v)%Q;
    [destruct (Z.even s)| |];
    simpl in Hin; destruct Hin as [<- | [<- | []]]; assumption.
Qed.

Lemma shortest_nonneg (v : Q) (n k : Z) (fuel : nat) :
  (0 <= v)%Q -> (0 <= shortest v n k fuel)%Q.
Proof.
  intros Hv. revert k.
  induction fuel as [|fuel IH]; intros k; simpl; [exact Hv|].
  destruct (find (round_trips v) (nearest_with_digits v n k)) as [c|] eqn:E.
  - apply (nearest_with_digits_nonneg v n k c Hv).
    apply (find_some _ _ E).
  - apply IH.
Qed.

Lemma shortest_decimal_close (v : Q) :
  (Qabs (v - shortest_decimal v)
   <= Qabs (shortest_decimal v) * unit_roundoff + tiny)%Q.
Proof.
  unfold shortest_decimal.
  set (c := shortest v (decimal_exponent v) 1 17).
  assert (Hc : c = v \/ round_trips v c = true)
    by apply shortest_round_trips.
  rewrite Qred_correct. destruct Hc as [Hc | Hc].
  - rewrite Hc.
    assert (E : (v - v == 0)%Q) by ring.
    rewrite E. simpl Qabs at 1.
    pose proof (Qabs_nonneg v) as Hv.
    unfold unit_roundoff, tiny. set (w := Qabs v) in *. clearbody w. lra.
  - unfold round_trips in Hc.
    destruct (round_double c) as [y| | |] eqn:Ey; try discriminate.
    apply Qeq_bool_iff in Hc.
    pose proof (round_double_error c y Ey) as H.
    rewrite <- Hc. exact H.
Qed.

Lemma decimal_literal_close (d : Q) :
  (0 <= d)%Q -> (d <= 11)%Q ->
  (Qabs (d - decimal_literal d) <= 1 # 100000000000000)%Q.
Proof.
  intros H0 H11. unfold decimal_literal.
  destruct (Qeq_bool d 0) eqn:Ez.
  - apply Qeq_bool_iff in Ez. rewrite Ez. vm_compute. discriminate.
  - assert (Hle : Qle_bool 0 d = true) by (apply Qle_bool_iff; exact H0).
    rewrite Hle.
    pose proof (shortest_decimal_close d) as H.
    set (L := shortest_decimal d) in *. clearbody L.
    apply Qabs_Qle_condition in H. destruct H as [H1 H2].
    apply Qabs_Qle_condition.
    destruct (Qlt_le_dec L 0) as [Hneg | Hpos].
    + rewrite (Qabs_neg L) in H1, H2 by lra.
      unfold unit_roundoff, tiny in *. split; lra.
    + rewrite (Qabs_pos L Hpos) in H1, H2.
      unfold unit_roundoff, tiny in *. split; lra.
Qed.

(** ** Rounding a computed average to hundredths *)

Lemma Qfloor_unique (z : Q) (k : Z) :
  (inject_Z k <= z)%Q -> (z < inject_Z k + 1)%Q -> Qfloor z = k.
Proof.
  intros H1 H2.
  pose proof (Qfloor_le z) as Hl. pose proof (Qlt_floor z) as Hu.
  rewrite inject_Z_plus in Hu. change (inject_Z 1) with 1%Q in Hu.
  assert (Ha : (inject_Z (Qfloor z) < inject_Z (k + 1))%Q)
    by (rewrite inject_Z_plus; change (inject_Z 1) with 1%Q; lra).
  assert (Hb : (inject_Z k < inject_Z (Qfloor z + 1))%Q)
    by (rewrite inject_Z_plus; change (inject_Z 1) with 1%Q; lra).
  rewrite <- Zlt_Qlt in Ha, Hb. lia.
Qed.

Lemma round2_nonneg (x : Q) :
  (0 <= x)%Q -> round2 x = Qfloor (x * 100 + (1 # 2)).
Proof.
  intros H. unfold round2.
  assert (E : Qle_bool 0 x = true) by (apply Qle_bool_iff; exact H).
  rewrite E. reflexivity.
Qed.

Lemma tie_iff (x : Q) :
  tie x = true
  <-> (x * 100 + (1 # 2) == inject_Z (Qfloor (x * 100 + (1 # 2))))%Q.
Proof. unfold tie. apply Qeq_bool_iff. Qed.

(** The exact average, scaled: an integer over twice the new count. *)
Lemma exact_average_scaled (A N r : Z) :
  0 <= N ->
  ((exact_average A N r * 100 + (1 # 2)) * inject_Z (2 * (N + 1))
   == inject_Z (2 * (A * N + 100 * r) + (N + 1)))%Q.
Proof.
  intros HN. unfold exact_average, decimal_value.
  assert (Hn : (0 <= inject_Z N)%Q)
    by (change 0%Q with (inject_Z 0); rewrite <- Zle_Qle; lia).
  rewrite !inject_Z_plus, !inject_Z_mult, !inject_Z_plus, !inject_Z_mult.
  change (inject_Z 1) with 1%Q. change (inject_Z 2) with 2%Q.
  change (inject_Z 100) with 100%Q.
  field. lra.
Qed.

Lemma exact_average_bounds (A N r : Z) :
  0 <= A <= 999 -> 0 <= N < 2147483647 -> 1 <= r <= 5 ->
  ((1 # 2147483647) <= exact_average A N r)%Q
  /\ (exact_average A N r <= 999 # 100)%Q.
Proof.
  intros HA HN Hr. unfold exact_average.
  destruct (decimal_value_bounds A HA) as [Ha0 Ha1].
  assert (Hn0 : (0 <= inject_Z N)%Q)
    by (change 0%Q with (inject_Z 0); rewrite <- Zle_Qle; lia).
  assert (Hn1 : (inject_Z N <= 2147483646)%Q)
    by (change 2147483646%Q with (inject_Z 2147483646);
        rewrite <- Zle_Qle; lia).
  assert (Hr1 : (1 <= inject_Z r)%Q)
    by (change 1%Q with (inject_Z 1); rewrite <- Zle_Qle; lia).
  assert (Hr5 : (inject_Z r <= 5)%Q)
    by (change 5%Q with (inject_Z 5); rewrite <- Zle_Qle; lia).
  rewrite inject_Z_plus. change (inject_Z 1) with 1%Q.
  destruct (product_bounds (decimal_value A) (inject_Z N) 0 (999 # 100)
              Ha0 Ha1 Hn0) as [H1 H2].
  set (an := (decimal_value A * inject_Z N)%Q) in *.
  set (n := inject_Z N) in *. set (q := inject_Z r) in *.
  clearbody an n q.
  split; [apply Qle_shift_div_l | apply Qle_shift_div_r]; lra.
Qed.

(** A value within 10^-12 of the exact average rounds to the same
    hundredth, unless the exact average is a tie: a quotient with a
    divisor below 2^32 that is no tie is 2^-32 away from one. *)
Lemma round2_near (A N r : Z) (y : Q) :
  0 <= A <= 999 -> 0 <= N < 2147483647 -> 1 <= r <= 5 ->
  (Qabs (y - exact_average A N r) <= 1 # 1000000000000)%Q ->
  near_round2 (exact_average A N r) (round2 y).
Proof.
  intros HA HN Hr Hy.
  destruct (exact_average_bounds A N r HA HN Hr) as [Hx0 Hx1].
  pose proof (exact_average_scaled A N r (proj1 HN)) as Hscaled.
  set (x := exact_average A N r) in *.
  apply Qabs_Qle_condition in Hy. destruct Hy as [Hy1 Hy2].
  assert (Hy0 : (0 <= y)%Q) by lra.
  assert (Hxnn : (0 <= x)%Q) by lra.
  rewrite (round2_nonneg y Hy0). unfold near_round2.
  rewrite (round2_nonneg x Hxnn).
  set (w := (x * 100 + (1 # 2))%Q) in *.
  set (k := Qfloor w).
  pose proof (Qfloor_le w) as Hk1. pose proof (Qlt_floor w) as Hk2.
  fold k in Hk1, Hk2.
  rewrite inject_Z_plus in Hk2. change (inject_Z 1) with 1%Q in Hk2.
  set (D := 2 * (N + 1)) in *. set (T := 2 * (A * N + 100 * r) + (N + 1)) in *.
  assert (HD0 : (0 < inject_Z D)%Q)
    by (change 0%Q with (inject_Z 0); rewrite <- Zlt_Qlt; unfold D; lia).
  assert (HD1 : (inject_Z D <= 4294967294)%Q)
    by (change 4294967294%Q with (inject_Z 4294967294);
        rewrite <- Zle_Qle; unfold D; lia).
  destruct (tie x) eqn:Etie.
  - (* a tie: the exact value sits on the boundary *)
    apply tie_iff in Etie. fold w in Etie. fold k in Etie.
    destruct (Qlt_le_dec (y * 100 + (1 # 2)) (inject_Z k)) as [Hlow | Hhigh].
    + right. split; [reflexivity|].
      apply Qfloor_unique.
      * unfold Z.sub. rewrite inject_Z_plus, inject_Z_opp.
        change (inject_Z 1) with 1%Q. unfold w in Etie. lra.
      * unfold Z.sub. rewrite inject_Z_plus, inject_Z_opp.
        change (inject_Z 1) with 1%Q. lra.
    + left. apply Qfloor_unique; [exact Hhigh|]. unfold w in Etie. lra.
  - left.
    assert (Hne : ~ (w == inject_Z k)%Q).
    { intros E. apply tie_iff in E. fold x in Etie. congruence. }
    (* the scaled distances to the two neighbours are positive integers *)
    assert (HkD : (inject_Z (k * D) < inject_Z T)%Q).
    { rewrite inject_Z_mult, <- Hscaled.
      apply Qmult_lt_compat_r; [exact HD0|].
      destruct (Qle_lt_or_eq _ _ Hk1) as [H | H]; [exact H|].
      exfalso. apply Hne. symmetry. exact H. }
    assert (HkD' : (inject_Z T < inject_Z ((k + 1) * D))%Q).
    { rewrite inject_Z_mult, <- Hscaled, inject_Z_plus.
      change (inject_Z 1) with 1%Q.
      apply Qmult_lt_compat_r; [exact HD0 | exact Hk2]. }
    rewrite <- Zlt_Qlt in HkD, HkD'.
    assert (H1 : (inject_Z (k * D + 1) <= inject_Z T)%Q)
      by (rewrite <- Zle_Qle; lia).
    assert (H2 : (inject_Z (T + 1) <= inject_Z ((k + 1) * D))%Q)
      by (rewrite <- Zle_Qle; lia).
    rewrite inject_Z_plus, inject_Z_mult, <- Hscaled in H1.
    rewrite inject_Z_plus, inject_Z_mult, inject_Z_plus, <- Hscaled in H2.
    change (inject_Z 1) with 1%Q in H1, H2.
    set (g := (1 # 8589934592)%Q).
    assert (Hlo : (inject_Z k + g < w)%Q).
    { destruct (Qlt_le_dec (inject_Z k + g) w) as [H | H]; [exact H|].
      exfalso.
      assert (Hm : (w * inject_Z D <= (inject_Z k + g) * inject_Z D)%Q)
        by (apply Qmult_le_compat_r; [exact H | lra]).
      unfold g in *. set (d := inject_Z D) in *.
      set (wd := (w * d)%Q) in *. ring_simplify in Hm.
      ring_simplify in H1.
      set (kd := (inject_Z k * d)%Q) in *. clearbody wd kd d. lra. }
    assert (Hhi : (w < inject_Z k + 1 - g)%Q).
    { destruct (Qlt_le_dec w (inject_Z k + 1 - g)) as [H | H]; [exact H|].
      exfalso.
      assert (Hm : ((inject_Z k + 1 - g) * inject_Z D <= w * inject_Z D)%Q)
        by (apply Qmult_le_compat_r; [exact H | lra]).
      unfold g in *. set (d := inject_Z D) in *.
      set (wd := (w * d)%Q) in *. ring_simplify in Hm.
      ring_simplify in H2.
      set (kd := (inject_Z k * d)%Q) in *. clearbody wd kd d. lra. }
    apply Qfloor_unique; unfold g, w in *; lra.
Qed.
(** ** Validation of a rating *)

Lemma Qle_bool_inject (a b : Z) : Qle_bool (inject_Z a) (inject_Z b) = (a <=? b).
Proof.
  unfold Qle_bool, inject_Z. simpl. rewrite !Z.mul_1_r. reflexivity.
Qed.

Lemma isInteger_inject (z : Z) : isInteger (inject_Z z) = true.
Proof.
  unfold isInteger. rewrite Qfloor_Z. apply Qeq_bool_iff. reflexivity.
Qed.

Lemma validateRating_valid (r : Z) :
  valid_rating r -> ServerJs.validateRating (JNum (inject_Z r)) = None.
Proof.
  intros [H1 H5]. unfold ServerJs.validateRating.
  rewrite isInteger_inject.
  change 1%Q with (inject_Z 1). change 5%Q with (inject_Z 5).
  rewrite !Qle_bool_inject.
  apply Z.leb_le in H1, H5. rewrite H1, H5. reflexivity.
Qed.

Lemma round_double_rating (r : Z) :
  valid_rating r -> round_double (inject_Z r) = Fin (inject_Z r).
Proof.
  intros [H1 H5].
  assert (Hcases : r = 1 \/ r = 2 \/ r = 3 \/ r = 4 \/ r = 5) by lia.
  destruct Hcases as [ -> | [ -> | [ -> | [ -> | -> ]]]];
    vm_compute; reflexivity.
Qed.

Lemma tx_rating_accepted (r : Z) :
  valid_rating r -> TxBackend.invalid_rating (JNum (inject_Z r)) = false.
Proof.
  intros [H1 H5].
  assert (Hcases : r = 1 \/ r = 2 \/ r = 3 \/ r = 4 \/ r = 5) by lia.
  destruct Hcases as [ -> | [ -> | [ -> | [ -> | -> ]]]];
    vm_compute; reflexivity.
Qed.

Lemma inject_rating_bounds (r : Z) :
  valid_rating r -> (1 <= inject_Z r)%Q /\ (inject_Z r <= 5)%Q.
Proof.
  intros [H1 H5]. split.
  - change 1%Q with (inject_Z 1). rewrite <- Zle_Qle. exact H1.
  - change 5%Q with (inject_Z 5). rewrite <- Zle_Qle. exact H5.
Qed.

(** ** One submission *)

Lemma round2_range (y : Q) :
  (0 <= y)%Q -> (y <= (999 # 100) + (1 # 1000000000000))%Q ->
  0 <= round2 y <= 999.
Proof.
  intros H0 H1. rewrite (round2_nonneg y H0). split.
  - assert (H : Qfloor 0 <= Qfloor (y * 100 + (1 # 2)))
      by (apply Qfloor_resp_le; lra).
    exact H.
  - assert (H : Qfloor (y * 100 + (1 # 2)) <= Qfloor (9996 # 10))
      by (apply Qfloor_resp_le; lra).
    exact H.
Qed.

(** The quotient of the two handlers for a stored pair [(A, N)] and a
    valid rating: its two roundings, by [toFixed(2)] and by MySQL. *)
Lemma rating_hundredths (A N r : Z) :
  0 <= A <= 999 -> 0 <= N < 2147483647 -> valid_rating r ->
  exists d,
    newAverageRating (parseFloat A) N (Fin (inject_Z r)) = Fin d
    /\ near_round2 (exact_average A N r) (toFixed2 d)
    /\ 0 <= toFixed2 d <= 999
    /\ near_round2 (exact_average A N r) (decimal_3_2 (decimal_literal d))
    /\ 0 <= decimal_3_2 (decimal_literal d) <= 999.
Proof.
  intros HA HN Hr.
  destruct (inject_rating_bounds r Hr) as [Hr1 Hr5].
  destruct (newAverageRating_close A N (inject_Z r) HA HN Hr1 Hr5)
    as (d & Ed & Hd0 & Hd).
  destruct (exact_average_bounds A N r HA HN Hr) as [Hx0 Hx1].
  fold (exact_average A N r) in Hd.
  exists d. split; [exact Ed|].
  apply Qabs_Qle_condition in Hd. destruct Hd as [Hd1 Hd2].
  assert (Hd11 : (d <= 11)%Q) by lra.
  pose proof (decimal_literal_close d Hd0 Hd11) as HL.
  apply Qabs_Qle_condition in HL. destruct HL as [HL1 HL2].
  set (x := exact_average A N r) in *.
  set (L := decimal_literal d) in *.
  rewrite toFixed2_round2, decimal_3_2_round2.
  split; [|split; [|split]].
  - apply round2_near; try assumption. fold x.
    apply Qabs_Qle_condition. clearbody x L. split; lra.
  - apply round2_range; clearbody x L; lra.
  - apply round2_near; try assumption. fold x.
    apply Qabs_Qle_condition. clearbody x L. split; lra.
  - apply round2_range; clearbody x L; lra.
Qed.

Lemma store_decimal_3_2_ok (k : Z) :
  0 <= k <= 999 -> store_decimal_3_2 k = SqlOk k.
Proof.
  intros [H0 H1]. unfold store_decimal_3_2.
  assert (E1 : (-999 <=? k) = true) by (apply Z.leb_le; lia).
  assert (E2 : (k <=? 999) = true) by (apply Z.leb_le; lia).
  rewrite E1, E2. reflexivity.
Qed.

Lemma store_int_ok (n : Z) :
  -2147483648 <= n <= 2147483647 -> store_int n = SqlOk n.
Proof.
  intros [H0 H1]. unfold store_int.
  assert (E1 : (-2147483648 <=? n) = true) by (apply Z.leb_le; lia).
  assert (E2 : (n <=? 2147483647) = true) by (apply Z.leb_le; lia).
  rewrite E1, E2. reflexivity.
Qed.

Lemma server_rate_update_ok (found_rows : bool) (i : Z) (st : Store)
  (A N r : Z) (m : Movie) (rest : list Movie) :
  select_by_id i (rows st) = m :: rest -> num_ratings m = N ->
  0 <= A <= 999 -> 0 <= N < 2147483647 -> valid_rating r ->
  exists k,
    near_round2 (exact_average A N r) k /\ 0 <= k <= 999
    /\ ServerJs.rate_update found_rows (IdInt i) (Fin (inject_Z r)) A N st
       = (mkResponse 200 (BRated "Movie rated successfully." k (N + 1)),
          with_rows st
            (update_where_id i (set_aggregate k (N + 1)) (rows st))).
Proof.
  intros Hsel HNm HA HN Hr.
  destruct (rating_hundredths A N r HA HN Hr)
    as (d & Ed & Hnear & Hrange & _).
  exists (toFixed2 d). split; [exact Hnear|]. split; [exact Hrange|].
  unfold ServerJs.rate_update. cbv zeta. rewrite Ed.
  cbv beta iota delta [ServerJs.toFixed2_decimal].
  rewrite (store_decimal_3_2_ok _ Hrange), store_int_ok by lia.
  assert (Haff : (ServerJs.affectedRows found_rows (IdInt i)
            (set_aggregate (toFixed2 d) (N + 1)) (rows st) =? 0) = false).
  { apply Z.eqb_neq. unfold ServerJs.affectedRows. simpl row_of.
    destruct found_rows.
    - unfold matched_rows. rewrite Hsel. simpl. lia.
    - pose proof (changed_rows_rating i (toFixed2 d) (rows st) m rest Hsel)
        as Hc.
      rewrite HNm in Hc. lia. }
  rewrite Haff. reflexivity.
Qed.

Lemma tx_rate_update_ok (i : Z) (st : Store) (A N r : Z) :
  0 <= A <= 999 -> 0 <= N < 2147483647 -> valid_rating r ->
  exists k k',
    near_round2 (exact_average A N r) k
    /\ near_round2 (exact_average A N r) k' /\ 0 <= k' <= 999
    /\ TxBackend.rate_update i (JNum (inject_Z r)) A N st
       = (mkResponse 200 (BRated "Rating submitted successfully" k (N + 1)),
          with_rows st
            (update_where_id i (set_aggregate k' (N + 1)) (rows st))).
Proof.
  intros HA HN Hr.
  destruct (rating_hundredths A N r HA HN Hr)
    as (d & Ed & Hnear & _ & Hnear' & Hrange').
  exists (toFixed2 d), (decimal_3_2 (decimal_literal d)).
  split; [exact Hnear|]. split; [exact Hnear'|]. split; [exact Hrange'|].
  unfold TxBackend.rate_update, TxBackend.newTotalRating, TxBackend.to_number.
  cbv zeta. rewrite (round_double_rating r Hr).
  unfold newAverageRating in Ed. rewrite Ed.
  unfold TxBackend.stored_average.
  rewrite (store_decimal_3_2_ok _ Hrange'), store_int_ok by lia.
  reflexivity.
Qed.

Lemma server_rate_ok (found_rows : bool) (i : Z) (st : Store) (A N r : Z) :
  0 < i -> aggregate i st = Some (A, N) ->
  0 <= A <= 999 -> 0 <= N < 2147483647 -> valid_rating r ->
  exists k,
    near_round2 (exact_average A N r) k /\ 0 <= k <= 999
    /\ ServerJs.post_rate found_rows (IdInt i) (JNum (inject_Z r)) st
       = (mkResponse 200 (BRated "Movie rated successfully." k (N + 1)),
          with_rows st
            (update_where_id i (set_aggregate k (N + 1)) (rows st))).
Proof.
  intros Hi Hagg HA HN Hr.
  destruct (aggregate_select _ _ _ _ Hagg) as (m & rest & Hsel & HAm & HNm).
  destruct (server_rate_update_ok found_rows i st A N r m rest
              Hsel HNm HA HN Hr) as (k & Hnear & Hrange & Hupd).
  exists k. split; [exact Hnear|]. split; [exact Hrange|].
  unfold ServerJs.post_rate.
  assert (Hinv : invalid_id (IdInt i) = false) by (simpl; apply Z.leb_gt; lia).
  rewrite Hinv, (validateRating_valid r Hr).
  change (select_param (IdInt i) (rows st)) with (select_by_id i (rows st)).
  rewrite Hsel, HAm, HNm, (round_double_rating r Hr). exact Hupd.
Qed.

Lemma tx_rate_ok (i : Z) (st : Store) (A N r : Z) :
  aggregate i st = Some (A, N) ->
  0 <= A <= 999 -> 0 <= N < 2147483647 -> valid_rating r ->
  exists k k',
    near_round2 (exact_average A N r) k
    /\ near_round2 (exact_average A N r) k' /\ 0 <= k' <= 999
    /\ TxBackend.post_rate i (JNum (inject_Z r)) st
       = (mkResponse 200 (BRated "Rating submitted successfully" k (N + 1)),
          with_rows st
            (update_where_id i (set_aggregate k' (N + 1)) (rows st))).
Proof.
  intros Hagg HA HN Hr.
  destruct (aggregate_select _ _ _ _ Hagg) as (m & rest & Hsel & HAm & HNm).
  destruct (tx_rate_update_ok i st A N r HA HN Hr)
    as (k & k' & Hk & Hk' & Hrange & Hupd).
  exists k, k'. split; [exact Hk|]. split; [exact Hk'|]. split; [exact Hrange|].
  unfold TxBackend.post_rate.
  rewrite (tx_rating_accepted r Hr), Hsel, HAm, HNm. exact Hupd.
Qed.

Lemma aggregate_after_update (i a n : Z) (st : Store) (A N : Z) :
  aggregate i st = Some (A, N) ->
  aggregate i (with_rows st (update_where_id i (set_aggregate a n) (rows st)))
  = Some (a, n).
Proof.
  intros Hagg.
  destruct (aggregate_select _ _ _ _ Hagg) as (m & rest & Hsel & _).
  unfold aggregate. simpl rows.
  rewrite select_update_same by reflexivity.
  rewrite Hsel. reflexivity.
Qed.

Lemma near_round2_no_tie (x : Q) (k : Z) :
  near_round2 x k -> tie x = false -> k = round2 x.
Proof.
  intros [H | [H _]] Ht; [exact H | congruence].
Qed.




(** ** Sequences of submissions *)

Lemma fold_rating_count (rs : list Z) (agg : Z * Z) :
  snd (fold_left fold_rating rs agg) = snd agg + Z.of_nat (List.length rs).
Proof.
  revert agg. induction rs as [|r rs IH]; intros agg.
  - simpl. lia.
  - simpl fold_left. rewrite IH. simpl snd. simpl List.length. lia.
Qed.

Lemma server_submit_all_rated (found_rows : bool) (i : Z) (rs : list Z) :
  0 < i -> Forall valid_rating rs ->
  forall st A N,
    aggregate i st = Some (A, N) -> 0 <= A <= 999 -> 0 <= N ->
    N + Z.of_nat (List.length rs) <= 2147483647 ->
    exists a,
      aggregate i (server_submit_all found_rows i rs st)
      = Some (a, N + Z.of_nat (List.length rs))
      /\ 0 <= a <= 999
      /\ rated_all (A, N) rs (a, N + Z.of_nat (List.length rs)).
Proof.
  intros Hi Hrs.
  induction Hrs as [|r rs Hr _ IH]; intros st A N Hagg HA HN Hlen.
  - exists A. simpl List.length. rewrite Z.add_0_r.
    split; [exact Hagg|]. split; [exact HA | constructor].
  - simpl List.length in *. rewrite Nat2Z.inj_succ in *.
    assert (HN' : 0 <= N < 2147483647) by lia.
    destruct (server_rate_ok found_rows i st A N r Hi Hagg HA HN' Hr)
      as (k & Hk & Hrange & E).
    destruct (IH (snd (ServerJs.post_rate found_rows (IdInt i)
                         (JNum (inject_Z r)) st)) k (N + 1))
      as (a & Ha & Harange & Hrated).
    + rewrite E. simpl snd.
      apply (aggregate_after_update _ _ _ _ A N Hagg).
    + exact Hrange.
    + lia.
    + lia.
    + replace (N + Z.succ (Z.of_nat (List.length rs)))
        with (N + 1 + Z.of_nat (List.length rs)) by lia.
      exists a. split; [exact Ha|]. split; [exact Harange|].
      apply (rated_cons A N r k); assumption.
Qed.

Lemma tx_submit_all_rated (i : Z) (rs : list Z) :
  Forall valid_rating rs ->
  forall st A N,
    aggregate i st = Some (A, N) -> 0 <= A <= 999 -> 0 <= N ->
    N + Z.of_nat (List.length rs) <= 2147483647 ->
    exists a,
      aggregate i (tx_submit_all i rs st)
      = Some (a, N + Z.of_nat (List.length rs))
      /\ 0 <= a <= 999
      /\ rated_all (A, N) rs (a, N + Z.of_nat (List.length rs)).
Proof.
  intros Hrs.
  induction Hrs as [|r rs Hr _ IH]; intros st A N Hagg HA HN Hlen.
  - exists A. simpl List.length. rewrite Z.add_0_r.
    split; [exact Hagg|]. split; [exact HA | constructor].
  - simpl List.length in *. rewrite Nat2Z.inj_succ in *.
    assert (HN' : 0 <= N < 2147483647) by lia.
    destruct (tx_rate_ok i st A N r Hagg HA HN' Hr)
      as (k & k' & Hk & Hk' & Hrange & E).
    destruct (IH (snd (TxBackend.post_rate i (JNum (inject_Z r)) st))
                 k' (N + 1))
      as (a & Ha & Harange & Hrated).
    + rewrite E. simpl snd.
      apply (aggregate_after_update _ _ _ _ A N Hagg).
    + exact Hrange.
    + lia.
    + lia.
    + replace (N + Z.succ (Z.of_nat (List.length rs)))
        with (N + 1 + Z.of_nat (List.length rs)) by lia.
      exists a. split; [exact Ha|]. split; [exact Harange|].
      apply (rated_cons A N r k'); assumption.
Qed.

(** Without a tie on the way, the submissions store the fold of the
    ratings. *)
Lemma rated_all_tie_free (rs : list Z) :
  forall agg agg',
    rated_all agg rs agg' -> tie_free agg rs = true ->
    agg' = fold_left fold_rating rs agg.
Proof.
  induction rs as [|r rs IH]; intros agg agg' H Hfree.
  - inversion H. reflexivity.
  - inversion H as [|a n r' k rs' agg'' Hk Hrest]; subst.
    simpl in Hfree. apply andb_true_iff in Hfree.
    destruct Hfree as [Htie Hfree].
    apply negb_true_iff in Htie.
    pose proof (near_round2_no_tie _ _ Hk Htie) as Ek.
    simpl fold_left. apply IH; [|exact Hfree].
    unfold fold_rating. simpl fst. simpl snd.
    unfold exact_average in Ek. rewrite <- Ek. exact Hrest.
Qed.

Lemma server_submit_all_fold (found_rows : bool) (i : Z) (rs : list Z)
  (st : Store) (A N : Z) :
  0 < i -> Forall valid_rating rs ->
  aggregate i st = Some (A, N) -> 0 <= A <= 999 -> 0 <= N ->
  N + Z.of_nat (List.length rs) <= 2147483647 ->
  tie_free (A, N) rs = true ->
  aggregate i (server_submit_all found_rows i rs st)
  = Some (fold_left fold_rating rs (A, N)).
Proof.
  intros Hi Hrs Hagg HA HN Hlen Hfree.
  destruct (server_submit_all_rated found_rows i rs Hi Hrs st A N
              Hagg HA HN Hlen) as (a & Ha & _ & Hrated).
  rewrite Ha. f_equal. apply rated_all_tie_free; assumption.
Qed.

Lemma tx_submit_all_fold (i : Z) (rs : list Z) (st : Store) (A N : Z) :
  Forall valid_rating rs ->
  aggregate i st = Some (A, N) -> 0 <= A <= 999 -> 0 <= N ->
  N + Z.of_nat (List.length rs) <= 2147483647 ->
  tie_free (A, N) rs = true ->
  aggregate i (tx_submit_all i rs st)
  = Some (fold_left fold_rating rs (A, N)).
Proof.
  intros Hrs Hagg HA HN Hlen Hfree.
  destruct (tx_submit_all_rated i rs Hrs st A N Hagg HA HN Hlen)
    as (a & Ha & _ & Hrated).
  rewrite Ha. f_equal. apply rated_all_tie_free; assumption.
Qed.

Lemma sum_app (l : list Z) (r : Z) : sum (l ++ [r]) = sum l + r.
Proof.
  unfold sum. induction l as [|x l IH]; simpl; [lia|].
  rewrite IH. lia.
Qed.

Lemma tie_comp (x y : Q) : (x == y)%Q -> tie x = tie y.
Proof.
  intros H. unfold tie.
  assert (E : Qfloor (x * 100 + (1 # 2)) = Qfloor (y * 100 + (1 # 2)))
    by (apply Qfloor_comp; rewrite H; reflexivity).
  rewrite E.
  destruct (Qeq_bool (y * 100 + (1 # 2))
              (inject_Z (Qfloor (y * 100 + (1 # 2))))) eqn:Ey.
  - apply Qeq_bool_iff. apply Qeq_bool_iff in Ey. rewrite H. exact Ey.
  - destruct (Qeq_bool (x * 100 + (1 # 2))
                (inject_Z (Qfloor (y * 100 + (1 # 2))))) eqn:Ex;
      [|reflexivity].
    apply Qeq_bool_iff in Ex. rewrite H in Ex.
    apply Qeq_bool_iff in Ex. congruence.
Qed.

(** One more rating on top of an exact mean gives the mean. *)
Lemma exact_average_mean (rs : list Z) (r a : Z) :
  (decimal_value a == mean rs)%Q \/ (rs = [] /\ a = 0) ->
  (exact_average a (Z.of_nat (List.length rs)) r == mean (rs ++ [r]))%Q.
Proof.
  intros Hmean. unfold exact_average, mean.
  rewrite sum_app, length_app. simpl List.length.
  replace (Z.of_nat (List.length rs + 1)) with (Z.of_nat (List.length rs) + 1)
    by lia.
  rewrite !inject_Z_plus.
  destruct rs as [|x rs].
  - unfold sum. simpl fold_right. simpl List.length. simpl Z.of_nat.
    change (inject_Z 0) with 0%Q. change (inject_Z 1) with 1%Q.
    field.
  - destruct Hmean as [Hmean | [Hnil _]]; [|discriminate].
    rewrite Hmean. unfold mean.
    set (n := Z.of_nat (List.length (x :: rs))).
    assert (Hn0 : ~ (inject_Z n == 0)%Q).
    { unfold n. intros H. unfold Qeq, inject_Z in H. simpl in H. lia. }
    assert (Hn1 : ~ (inject_Z n + inject_Z 1 == 0)%Q).
    { rewrite <- inject_Z_plus. unfold n. intros H.
      unfold Qeq, inject_Z in H. simpl in H. lia. }
    field. split; assumption.
Qed.

Lemma server_submit_all_app (found_rows : bool) (i : Z) (rs : list Z)
  (r : Z) (st : Store) :
  server_submit_all found_rows i (rs ++ [r]) st
  = snd (ServerJs.post_rate found_rows (IdInt i) (JNum (inject_Z r))
           (server_submit_all found_rows i rs st)).
Proof. unfold server_submit_all. rewrite fold_left_app. reflexivity. Qed.

Lemma tx_submit_all_app (i : Z) (rs : list Z) (r : Z) (st : Store) :
  tx_submit_all i (rs ++ [r]) st
  = snd (TxBackend.post_rate i (JNum (inject_Z r)) (tx_submit_all i rs st)).
Proof. unfold tx_submit_all. rewrite fold_left_app. reflexivity. Qed.

(** C2, as stated, fails: after 1, 1, 1, 1, 1, 2, 1 on a fresh item both
    back ends hold 1.15 while the rounded mean of the seven ratings is
    1.14 (the sixth average, 7/6, was stored as 1.17). *)
Lemma C2_counterexample :
  let rs := [1; 1; 1; 1; 1; 2; 1] in
  Forall valid_rating rs
  /\ aggregate 2 seed = Some (0, 0)
  /\ aggregate 2 (server_submit_all true 2 rs seed) = Some (115, 7)
  /\ aggregate 2 (tx_submit_all 2 rs seed) = Some (115, 7)
  /\ round2 (mean rs) = 114.
Proof.
  cbv zeta. split.
  - repeat constructor; unfold valid_rating; lia.
  - repeat split; vm_compute; reflexivity.
Qed.

(** C2, amended. Valid ratings r1..rN, N below 2^31, submitted one after
    the other to a fresh item leave numRatings = N in both back ends.
    The stored average is reached by folding the ratings one by one into
    the stored, already rounded, average: each submission stores
    round2((A' * k + r) / (k + 1)), or the hundredth below it when that
    quotient is a tie.  The result is round2(mean(r1..rN)) whenever the
    average stored before the last submission is the exact mean of the
    ratings before it (always so for the first one) and the mean is not a
    tie.  Submitting 4, 2, 5 gives 4.00, 3.00, 3.67 with counts 1, 2, 3. *)
Theorem C2_sequential_submissions
  (found_rows : bool) (i : Z) (st : Store) (rs : list Z) :
  0 < i -> aggregate i st = Some (0, 0) -> Forall valid_rating rs ->
  Z.of_nat (List.length rs) <= 2147483647 ->
  (exists a,
      aggregate i (server_submit_all found_rows i rs st)
      = Some (a, Z.of_nat (List.length rs))
      /\ rated_all (0, 0) rs (a, Z.of_nat (List.length rs)))
  /\ (exists a,
      aggregate i (tx_submit_all i rs st)
      = Some (a, Z.of_nat (List.length rs))
      /\ rated_all (0, 0) rs (a, Z.of_nat (List.length rs)))
  /\ (forall rs' r a,
         rs = rs' ++ [r] ->
         rs' = [] \/ (decimal_value a == mean rs')%Q ->
         tie (mean rs) = false ->
         (aggregate i (server_submit_all found_rows i rs' st)
          = Some (a, Z.of_nat (List.length rs')) ->
          aggregate i (server_submit_all found_rows i rs st)
          = Some (round2 (mean rs), Z.of_nat (List.length rs)))
         /\ (aggregate i (tx_submit_all i rs' st)
             = Some (a, Z.of_nat (List.length rs')) ->
             aggregate i (tx_submit_all i rs st)
             = Some (round2 (mean rs), Z.of_nat (List.length rs))))
  /\ (aggregate i (server_submit_all found_rows i [4] st) = Some (400, 1)
      /\ aggregate i (server_submit_all found_rows i [4; 2] st) = Some (300, 2)
      /\ aggregate i (server_submit_all found_rows i [4; 2; 5] st)
         = Some (367, 3))
  /\ (aggregate i (tx_submit_all i [4] st) = Some (400, 1)
      /\ aggregate i (tx_submit_all i [4; 2] st) = Some (300, 2)
      /\ aggregate i (tx_submit_all i [4; 2; 5] st) = Some (367, 3)).
Proof.
  intros Hi Hagg Hrs Hlen.
  assert (Hscenario : Forall valid_rating [4; 2; 5])
    by (repeat constructor; unfold valid_rating; lia).
  assert (H42 : Forall valid_rating [4; 2])
    by (repeat constructor; unfold valid_rating; lia).
  assert (H4 : Forall valid_rating [4])
    by (repeat constructor; unfold valid_rating; lia).
  assert (H00 : 0 <= 0 <= 999) by lia.
  split; [|split; [|split; [|split]]].
  - destruct (server_submit_all_rated found_rows i rs Hi Hrs st 0 0
                Hagg H00 (Z.le_refl 0) Hlen) as (a & Ha & _ & Hrated).
    exists a. split; assumption.
  - destruct (tx_submit_all_rated i rs Hrs st 0 0
                Hagg H00 (Z.le_refl 0) Hlen) as (a & Ha & _ & Hrated).
    exists a. split; assumption.
  - intros rs' r a Hsplit Hexact Htie. subst rs.
    apply Forall_app in Hrs. destruct Hrs as [Hrs' Hr].
    inversion Hr as [|r' l' Hvalid _]; subst.
    rewrite length_app in *. simpl List.length in *.
    assert (Hlen' : 0 + Z.of_nat (List.length rs') <= 2147483647) by lia.
    assert (Hlast : 0 <= Z.of_nat (List.length rs') < 2147483647) by lia.
    assert (Hmean : (decimal_value a == mean rs')%Q \/ (rs' = [] /\ a = 0)
                    -> (exact_average a (Z.of_nat (List.length rs')) r
                        == mean (rs' ++ [r]))%Q)
      by apply exact_average_mean.
    replace (Z.of_nat (List.length rs' + 1))
      with (Z.of_nat (List.length rs') + 1) by lia.
    split; intros Hbefore.
    + destruct (server_submit_all_rated found_rows i rs' Hi Hrs' st 0 0
                  Hagg H00 (Z.le_refl 0) Hlen') as (a' & Ha' & Hrange & _).
      rewrite Z.add_0_l in Ha'. rewrite Ha' in Hbefore.
      inversion Hbefore; subst a'.
      destruct (server_rate_ok found_rows i _ a _ r Hi Ha' Hrange Hlast
                  Hvalid) as (k & Hk & _ & E).
      rewrite server_submit_all_app, E. simpl snd.
      rewrite (aggregate_after_update _ _ _ _ _ _ Ha').
      assert (Hx : (exact_average a (Z.of_nat (List.length rs')) r
                    == mean (rs' ++ [r]))%Q).
      { apply Hmean. destruct Hexact as [Hnil | Hexact]; [|left; exact Hexact].
        right. split; [exact Hnil|]. subst rs'. simpl in Ha'.
        unfold server_submit_all in Ha'. simpl in Ha'. congruence. }
      rewrite (near_round2_no_tie _ _ Hk)
        by (rewrite (tie_comp _ _ Hx); exact Htie).
      rewrite (round2_comp _ _ Hx). reflexivity.
    + destruct (tx_submit_all_rated i rs' Hrs' st 0 0
                  Hagg H00 (Z.le_refl 0) Hlen') as (a' & Ha' & Hrange & _).
      rewrite Z.add_0_l in Ha'. rewrite Ha' in Hbefore.
      inversion Hbefore; subst a'.
      destruct (tx_rate_ok i _ a _ r Ha' Hrange Hlast Hvalid)
        as (k & k' & _ & Hk' & _ & E).
      rewrite tx_submit_all_app, E. simpl snd.
      rewrite (aggregate_after_update _ _ _ _ _ _ Ha').
      assert (Hx : (exact_average a (Z.of_nat (List.length rs')) r
                    == mean (rs' ++ [r]))%Q).
      { apply Hmean. destruct Hexact as [Hnil | Hexact]; [|left; exact Hexact].
        right. split; [exact Hnil|]. subst rs'. simpl in Ha'.
        unfold tx_submit_all in Ha'. simpl in Ha'. congruence. }
      rewrite (near_round2_no_tie _ _ Hk')
        by (rewrite (tie_comp _ _ Hx); exact Htie).
      rewrite (round2_comp _ _ Hx). reflexivity.
  - repeat split.
    + rewrite (server_submit_all_fold found_rows i [4] st 0 0 Hi H4 Hagg);
        try reflexivity; simpl; lia.
    + rewrite (server_submit_all_fold found_rows i [4; 2] st 0 0 Hi H42 Hagg);
        try reflexivity; simpl; lia.
    + rewrite (server_submit_all_fold found_rows i [4; 2; 5] st 0 0 Hi
                 Hscenario Hagg); try reflexivity; simpl; lia.
  - repeat split.
    + rewrite (tx_submit_all_fold i [4] st 0 0 H4 Hagg);
        try reflexivity; simpl; lia.
    + rewrite (tx_submit_all_fold i [4; 2] st 0 0 H42 Hagg);
        try reflexivity; simpl; lia.
    + rewrite (tx_submit_all_fold i [4; 2; 5] st 0 0 Hscenario Hagg);
        try reflexivity; simpl; lia.
Qed.

Lemma C2_witness :
  (exists a,
      aggregate 2 (server_submit_all false 2 [4; 2; 5] seed)
      = Some (a, Z.of_nat (List.length [4; 2; 5]))
      /\ rated_all (0, 0) [4; 2; 5] (a, Z.of_nat (List.length [4; 2; 5])))
  /\ (exists a,
      aggregate 2 (tx_submit_all 2 [4; 2; 5] seed)
      = Some (a, Z.of_nat (List.length [4; 2; 5]))
      /\ rated_all (0, 0) [4; 2; 5] (a, Z.of_nat (List.length [4; 2; 5])))
  /\ (forall rs' r a,
         [4; 2; 5] = rs' ++ [r] ->
         rs' = [] \/ (decimal_value a == mean rs')%Q ->
         tie (mean [4; 2; 5]) = false ->
         (aggregate 2 (server_submit_all false 2 rs' seed)
          = Some (a, Z.of_nat (List.length rs')) ->
          aggregate 2 (server_submit_all false 2 [4; 2; 5] seed)
          = Some (round2 (mean [4; 2; 5]),
                  Z.of_nat (List.length [4; 2; 5])))
         /\ (aggregate 2 (tx_submit_all 2 rs' seed)
             = Some (a, Z.of_nat (List.length rs')) ->
             aggregate 2 (tx_submit_all 2 [4; 2; 5] seed)
             = Some (round2 (mean [4; 2; 5]),
                     Z.of_nat (List.length [4; 2; 5]))))
  /\ (aggregate 2 (server_submit_all false 2 [4] seed) = Some (400, 1)
      /\ aggregate 2 (server_submit_all false 2 [4; 2] seed) = Some (300, 2)
      /\ aggregate 2 (server_submit_all false 2 [4; 2; 5] seed)
         = Some (367, 3))
  /\ (aggregate 2 (tx_submit_all 2 [4] seed) = Some (400, 1)
      /\ aggregate 2 (tx_submit_all 2 [4; 2] seed) = Some (300, 2)
      /\ aggregate 2 (tx_submit_all 2 [4; 2; 5] seed) = Some (367, 3)).
Proof.
  apply (C2_sequential_submissions false 2 seed [4; 2; 5]).
  - lia.
  - reflexivity.
  - repeat constructor; unfold valid_rating; lia.
  - simpl. lia.
Defined.

(** ** Rejected submissions *)



(** C4. The transactional back end only checks that the rating is truthy
    and between 1 and 5: the non-integer 2.5 is accepted and folded into
    the aggregate, which becomes (2.50, 1), where server.js answers 400 and
    leaves the table alone. *)
Theorem C4_tx_accepts_fractional_rating :
  (exists st',
      TxBackend.post_rate 2 (JNum (5 # 2)) seed
      = (mkResponse 200 (BRated "Rating submitted successfully" 250 1), st')
      /\ aggregate 2 seed = Some (0, 0)
      /\ aggregate 2 st' = Some (250, 1))
  /\ ServerJs.post_rate true (IdInt 2) (JNum (5 # 2)) seed
     = (error 400 "Rating must be an integer between 1 and 5.", seed).
Proof.
  split.
  - eexists. split; [vm_compute; reflexivity|].
    split; vm_compute; reflexivity.
  - vm_compute. reflexivity.
Qed.

(** ** Submissions for an absent item *)

Lemma with_rows_same (st : Store) : with_rows st (rows st) = st.
Proof. destruct st. reflexivity. Qed.

(** Whatever the rating, a submission for an id that selects no row
    changes nothing and answers 400 or 404. *)
Lemma server_rate_absent_unchanged
  (found_rows : bool) (p : IdParam) (v : JsVal) (st : Store) :
  select_param p (rows st) = [] ->
  snd (ServerJs.post_rate found_rows p v st) = st
  /\ (status (fst (ServerJs.post_rate found_rows p v st)) = 400
      \/ status (fst (ServerJs.post_rate found_rows p v st)) = 404).
Proof.
  intros Habs. unfold ServerJs.post_rate.
  destruct (invalid_id p); [split; [reflexivity | left; reflexivity]|].
  destruct (ServerJs.validateRating v);
    [split; [reflexivity | left; reflexivity]|].
  rewrite Habs. split; [reflexivity | right; reflexivity].
Qed.

Lemma tx_rate_absent_unchanged (i : Z) (v : JsVal) (st : Store) :
  select_by_id i (rows st) = [] ->
  snd (TxBackend.post_rate i v st) = st
  /\ (status (fst (TxBackend.post_rate i v st)) = 400
      \/ status (fst (TxBackend.post_rate i v st)) = 404).
Proof.
  intros Habs. unfold TxBackend.post_rate.
  destruct (TxBackend.invalid_rating v);
    [split; [reflexivity | left; reflexivity]|].
  rewrite Habs. split; [reflexivity | right; reflexivity].
Qed.

(** C5, as stated, fails: the rating is validated before the item is
    looked up, so an invalid rating for an absent item is answered with
    400, not 404; so is, in server.js, an id that is not positive. *)
Lemma C5_counterexample :
  select_by_id 99 (rows seed) = []
  /\ ServerJs.post_rate true (IdInt 99) (JNum 9) seed
     = (error 400 "Rating must be an integer between 1 and 5.", seed)
  /\ TxBackend.post_rate 99 (JNum 9) seed
     = (error 400 "Invalid rating. Must be between 1 and 5.", seed)
  /\ select_by_id 0 (rows seed) = []
  /\ ServerJs.post_rate true (IdInt 0) (JNum 4) seed
     = (error 400 "Invalid movie ID. Must be a positive number.", seed).
Proof. repeat split; vm_compute; reflexivity. Qed.

(** C5, amended. For every positive id that references no existing item
    and every valid rating, the submission is answered with 404; and for
    every rating, valid or not (absent, null, a boolean, a number or a
    string), the table after the call is the table before it.  Both back
    ends.  In server.js the same holds of every spelling of the id that
    passes its guard and matches no item. *)
Theorem C5_absent_item_not_found
  (found_rows : bool) (i r : Z) (st : Store) :
  0 < i -> select_by_id i (rows st) = [] -> valid_rating r ->
  ServerJs.post_rate found_rows (IdInt i) (JNum (inject_Z r)) st
  = (message 404 "Movie not found.", st)
  /\ TxBackend.post_rate i (JNum (inject_Z r)) st
     = (error 404 "Movie not found", st)
  /\ (forall v, snd (ServerJs.post_rate found_rows (IdInt i) v st) = st)
  /\ (forall v, snd (TxBackend.post_rate i v st) = st)
  /\ (forall p v,
         select_param p (rows st) = [] ->
         snd (ServerJs.post_rate found_rows p v st) = st
         /\ (invalid_id p = false ->
             ServerJs.post_rate found_rows p (JNum (inject_Z r)) st
             = (message 404 "Movie not found.", st))).
Proof.
  intros Hi Habs Hr. split; [|split; [|split; [|split]]].
  3: { intros v. apply server_rate_absent_unchanged. exact Habs. }
  3: { intros v. apply (tx_rate_absent_unchanged i v st Habs). }
  - unfold ServerJs.post_rate.
    assert (Hinv : invalid_id (IdInt i) = false) by (simpl; apply Z.leb_gt; lia).
    rewrite Hinv, (validateRating_valid r Hr).
    change (select_param (IdInt i) (rows st)) with (select_by_id i (rows st)).
    rewrite Habs. reflexivity.
  - unfold TxBackend.post_rate.
    rewrite (tx_rating_accepted r Hr), Habs. reflexivity.
  - intros p v Hp. split.
    + apply server_rate_absent_unchanged. exact Hp.
    + intros Hinv. unfold ServerJs.post_rate.
      rewrite Hinv, (validateRating_valid r Hr), Hp. reflexivity.
Qed.

Lemma C5_witness :
  ServerJs.post_rate true (IdInt 99) (JNum (inject_Z 4)) seed
  = (message 404 "Movie not found.", seed)
  /\ TxBackend.post_rate 99 (JNum (inject_Z 4)) seed
     = (error 404 "Movie not found", seed)
  /\ (forall v, snd (ServerJs.post_rate true (IdInt 99) v seed) = seed)
  /\ (forall v, snd (TxBackend.post_rate 99 v seed) = seed)
  /\ (forall p v,
         select_param p (rows seed) = [] ->
         snd (ServerJs.post_rate true p v seed) = seed
         /\ (invalid_id p = false ->
             ServerJs.post_rate true p (JNum (inject_Z 4)) seed
             = (message 404 "Movie not found.", seed))).
Proof.
  apply (C5_absent_item_not_found true 99 4 seed).
  - lia.
  - reflexivity.
  - unfold valid_rating. lia.
Defined.

(** ** What a submission leaves alone *)

Lemma update_aggregate_frame (i a n : Z) (l : list Movie) :
  Forall2 (fun m m' => same_but_aggregate m m' /\ (id m <> i -> m' = m))
          l (update_where_id i (set_aggregate a n) l).
Proof.
  induction l as [|m l IH]; simpl; constructor; [|exact IH].
  destruct (id m =? i) eqn:E.
  - apply Z.eqb_eq in E. split.
    + unfold same_but_aggregate. simpl. repeat split.
    + intros Hne. contradiction.
  - split; [|reflexivity].
    unfold same_but_aggregate. repeat split.
Qed.

Lemma rating_frame_refl (i : Z) (st : Store) : rating_frame i st st.
Proof.
  split; [reflexivity|].
  induction (rows st) as [|m l IH]; constructor; [|exact IH].
  split; [|reflexivity]. unfold same_but_aggregate. repeat split.
Qed.

(** What the last part of each handler does to the table: nothing, or
    the UPDATE of the two aggregate columns. *)
Lemma server_rate_update_cases (found_rows : bool) (p : IdParam)
  (r : JsNum) (a n : Z) (st : Store) :
  snd (ServerJs.rate_update found_rows p r a n st) = st
  \/ exists a' n',
       snd (ServerJs.rate_update found_rows p r a n st)
       = with_rows st
           (ServerJs.update_param p (set_aggregate a' n') (rows st)).
Proof.
  unfold ServerJs.rate_update. cbv zeta.
  destruct (ServerJs.toFixed2_decimal _) as [avg|]; [|left; reflexivity].
  destruct (store_decimal_3_2 avg) as [avg'|]; [|left; reflexivity].
  destruct (store_int (n + 1)) as [num'|]; [|left; reflexivity].
  right. exists avg', num'.
  destruct (ServerJs.affectedRows _ _ _ _ =? 0); reflexivity.
Qed.

Lemma server_rate_update_ok_status (found_rows : bool) (p : IdParam)
  (r : JsNum) (a n : Z) (st : Store) :
  status (fst (ServerJs.rate_update found_rows p r a n st)) = 200 ->
  exists a' n',
    snd (ServerJs.rate_update found_rows p r a n st)
    = with_rows st (ServerJs.update_param p (set_aggregate a' n') (rows st)).
Proof.
  unfold ServerJs.rate_update. cbv zeta.
  destruct (ServerJs.toFixed2_decimal _) as [avg|]; [|discriminate].
  destruct (store_decimal_3_2 avg) as [avg'|]; [|discriminate].
  destruct (store_int (n + 1)) as [num'|]; [|discriminate].
  destruct (ServerJs.affectedRows _ _ _ _ =? 0); [discriminate|].
  intros _. exists avg', num'. reflexivity.
Qed.

Lemma tx_rate_update_cases (i : Z) (v : JsVal) (a n : Z) (st : Store) :
  (snd (TxBackend.rate_update i v a n st) = st
   /\ status (fst (TxBackend.rate_update i v a n st)) = 500)
  \/ exists a' n',
       snd (TxBackend.rate_update i v a n st)
       = with_rows st (update_where_id i (set_aggregate a' n') (rows st))
       /\ status (fst (TxBackend.rate_update i v a n st)) = 200.
Proof.
  unfold TxBackend.rate_update. cbv zeta.
  destruct (TxBackend.stored_average _) as [avg'|];
    [|left; split; reflexivity].
  destruct (store_int (n + 1)) as [num'|]; [|left; split; reflexivity].
  destruct (js_div _ _) as [q| | |]; try (left; split; reflexivity).
  right. exists avg', num'. split; reflexivity.
Qed.

(** C7. A submission answered with 200 overwrites the two aggregate
    columns of the rows with the targeted id and nothing else: every row
    keeps its other columns, every other row is unchanged, and no row is
    added or removed.  Both back ends, whatever the rating sent. *)
Theorem C7_rating_frame
  (found_rows : bool) (i : Z) (v : JsVal) (st : Store) :
  (forall p, row_of p = Some i ->
      status (fst (ServerJs.post_rate found_rows p v st)) = 200 ->
      rating_frame i st (snd (ServerJs.post_rate found_rows p v st)))
  /\ (status (fst (TxBackend.post_rate i v st)) = 200 ->
      rating_frame i st (snd (TxBackend.post_rate i v st))).
Proof.
  split.
  - intros p Hrow. unfold ServerJs.post_rate.
    destruct (invalid_id p); [discriminate|].
    destruct (ServerJs.validateRating v); [discriminate|].
    destruct (select_param p (rows st)) as [|m rest]; [discriminate|].
    intros Hok.
    destruct (server_rate_update_ok_status _ _ _ _ _ _ Hok)
      as (a' & n' & E).
    rewrite E. unfold ServerJs.update_param. rewrite Hrow.
    split; [reflexivity|]. simpl rows. apply update_aggregate_frame.
  - unfold TxBackend.post_rate.
    destruct (TxBackend.invalid_rating v); [discriminate|].
    destruct (select_by_id i (rows st)) as [|m rest]; [discriminate|].
    intros Hok.
    destruct (tx_rate_update_cases i v (average_rating m) (num_ratings m) st)
      as [[_ H500] | (a' & n' & E & _)]; [congruence|].
    rewrite E. split; [reflexivity|]. simpl rows.
    apply update_aggregate_frame.
Qed.

Lemma C7_witness :
  rating_frame 2 seed
    (snd (ServerJs.post_rate true (IdInt 2) (JNum 3) seed))
  /\ rating_frame 2 seed (snd (TxBackend.post_rate 2 (JStr "3") seed)).
Proof.
  split.
  - apply (proj1 (C7_rating_frame true 2 (JNum 3) seed) (IdInt 2)).
    + reflexivity.
    + reflexivity.
  - apply (proj2 (C7_rating_frame true 2 (JStr "3") seed)).
    reflexivity.
Defined.
(** ** DELETE *)

Lemma delete_absent (i : Z) (l : list Movie) :
  select_by_id i l = [] -> delete_where_id i l = l.
Proof.
  unfold select_by_id, delete_where_id.
  induction l as [|m l IH]; simpl; [reflexivity|].
  destruct (id m =? i); simpl; [discriminate|].
  intros H. f_equal. exact (IH H).
Qed.

Lemma delete_length (i : Z) (l : list Movie) :
  Z.of_nat (List.length l) - Z.of_nat (List.length (delete_where_id i l))
  = matched_rows i l.
Proof.
  unfold matched_rows, select_by_id, delete_where_id.
  induction l as [|m l IH]; [reflexivity|].
  cbn [filter]. destruct (id m =? i); cbn [negb List.length];
    rewrite ?Nat2Z.inj_succ; lia.
Qed.

Lemma select_after_delete (i : Z) (l : list Movie) :
  select_by_id i (delete_where_id i l) = [].
Proof.
  unfold select_by_id, delete_where_id.
  induction l as [|m l IH]; simpl; [reflexivity|].
  destruct (id m =? i) eqn:E; simpl; [exact IH|].
  rewrite E. exact IH.
Qed.


(** C9. The DELETE of the transactional back end never looks at the
    outcome of the statement: for id 99, which no item of the seeded table
    has, it answers 200 "Movie deleted successfully" and leaves the table
    as it was, where server.js, which checks [affectedRows], answers
    404. *)
Theorem C9_tx_delete_absent_is_200 :
  select_by_id 99 (rows seed) = []
  /\ TxBackend.delete_movie 99 seed
     = (message 200 "Movie deleted successfully", seed)
  /\ ServerJs.delete_movie (IdInt 99) seed
     = (message 404 "Movie not found.", seed).
Proof. repeat split; vm_compute; reflexivity. Qed.



(** ** PUT *)

Lemma SqlVal_eqb_refl (v : SqlVal) : SqlVal_eqb v v = true.
Proof.
  destruct v; simpl; [reflexivity | apply Z.eqb_refl | apply String.eqb_refl].
Qed.

Lemma Movie_eqb_refl (m : Movie) : Movie_eqb m m = true.
Proof.
  unfold Movie_eqb. rewrite !SqlVal_eqb_refl, !Z.eqb_refl. reflexivity.
Qed.

Lemma update_identity (i : Z) (f : Movie -> Movie) (l : list Movie) :
  (forall m, In m (select_by_id i l) -> f m = m) ->
  update_where_id i f l = l.
Proof.
  unfold select_by_id, update_where_id.
  induction l as [|m l IH]; simpl; [reflexivity|].
  destruct (id m =? i) eqn:E; intros H.
  - rewrite (H m) by (left; reflexivity).
    f_equal. apply IH. intros m' Hm'. apply H. right. exact Hm'.
  - f_equal. apply IH. exact H.
Qed.

Lemma changed_rows_identity (i : Z) (f : Movie -> Movie) (l : list Movie) :
  (forall m, In m (select_by_id i l) -> f m = m) ->
  changed_rows i f l = 0.
Proof.
  unfold changed_rows. induction (select_by_id i l) as [|m s IH]; intros H.
  - reflexivity.
  - simpl filter. rewrite (H m) by (left; reflexivity).
    rewrite Movie_eqb_refl. simpl negb.
    apply IH. intros m' Hm'. apply H. right. exact Hm'.
Qed.

Lemma absent_rows_fixed (i : Z) (f : Movie -> Movie) (l : list Movie) :
  select_by_id i l = [] -> forall m, In m (select_by_id i l) -> f m = m.
Proof. intros H m Hm. rewrite H in Hm. destruct Hm. Qed.

(** A PUT whose fields are all stored as the values that the row already
    holds: the answer follows what the connection reports as
    [affectedRows]. *)
Lemma put_without_change
  (found_rows : bool) (sql_store : Column -> JsVal -> SqlResult SqlVal)
  (j : Z) (data : MovieData) (st : Store)
  (assignments : list (Column * SqlVal)) :
  0 < j ->
  ServerJs.validateMovieData data false = None ->
  ServerJs.fieldsToUpdate data <> [] ->
  ServerJs.store_all sql_store (ServerJs.fieldsToUpdate data)
  = SqlOk assignments ->
  (forall m', In m' (select_by_id j (rows st)) ->
              set_columns assignments m' = m') ->
  ServerJs.put_movie found_rows sql_store (IdInt j) data st
  = (if found_rows && negb (matched_rows j (rows st) =? 0)
     then message 200 "Movie updated successfully."
     else message 404 "Movie not found or no changes made.", st).
Proof.
  intros Hj Hvalid Hfields Hstore Hid. unfold ServerJs.put_movie.
  assert (Hinv : invalid_id (IdInt j) = false)
    by (simpl; apply Z.leb_gt; lia).
  rewrite Hinv, Hvalid.
  destruct (ServerJs.fieldsToUpdate data) as [|x l] eqn:Hf;
    [contradiction|].
  simpl Nat.eqb. cbv iota. rewrite Hstore.
  unfold ServerJs.affectedRows, ServerJs.update_param. simpl row_of.
  cbv iota beta.
  rewrite (update_identity j _ (rows st) Hid), with_rows_same.
  destruct found_rows; simpl andb.
  - destruct (matched_rows j (rows st) =? 0); reflexivity.
  - rewrite (changed_rows_identity j _ (rows st) Hid). reflexivity.
Qed.

(** C10, as stated, fails: db.js opens its pool with the flags that mysql2
    sets by default, CLIENT_FOUND_ROWS among them, so [affectedRows]
    counts the row that the WHERE clause matched although nothing
    changed: the PUT that sends item 3 the title and the year it already
    has is answered with 200. *)
Lemma C10_counterexample :
  select_by_id 3 (rows seed) = [pulp_fiction]
  /\ ServerJs.put_movie mysql2_found_rows example_store (IdInt 3)
       same_as_pulp_fiction seed
     = (message 200 "Movie updated successfully.", seed).
Proof. split; vm_compute; reflexivity. Qed.

(** C10, amended. A PUT on an existing item whose provided fields are all
    stored as the values the row already holds changes no row and leaves
    the table as it was.  On the connection that db.js opens, which
    reports the rows matched as [affectedRows], it is answered with 200
    "Movie updated successfully."; only a connection that reports the rows
    changed answers it with 404 "Movie not found or no changes made.",
    which is the answer for an absent item on either connection. *)
Theorem C10_put_without_change
  (sql_store : Column -> JsVal -> SqlResult SqlVal)
  (i : Z) (data : MovieData) (st : Store)
  (assignments : list (Column * SqlVal)) (m : Movie) (rest : list Movie) :
  0 < i ->
  ServerJs.validateMovieData data false = None ->
  ServerJs.fieldsToUpdate data <> [] ->
  ServerJs.store_all sql_store (ServerJs.fieldsToUpdate data)
  = SqlOk assignments ->
  select_by_id i (rows st) = m :: rest ->
  (forall m', In m' (select_by_id i (rows st)) ->
              set_columns assignments m' = m') ->
  ServerJs.put_movie mysql2_found_rows sql_store (IdInt i) data st
  = (message 200 "Movie updated successfully.", st)
  /\ ServerJs.put_movie false sql_store (IdInt i) data st
     = (message 404 "Movie not found or no changes made.", st)
  /\ (forall found_rows j, 0 < j -> select_by_id j (rows st) = [] ->
        ServerJs.put_movie found_rows sql_store (IdInt j) data st
        = (message 404 "Movie not found or no changes made.", st)).
Proof.
  intros Hi Hvalid Hfields Hstore Hsel Hsame.
  split; [|split].
  - rewrite (put_without_change mysql2_found_rows sql_store i data st
               assignments Hi Hvalid Hfields Hstore Hsame).
    unfold matched_rows. rewrite Hsel. reflexivity.
  - rewrite (put_without_change false sql_store i data st
               assignments Hi Hvalid Hfields Hstore Hsame).
    reflexivity.
  - intros found_rows j Hj Habs.
    rewrite (put_without_change found_rows sql_store j data st
               assignments Hj Hvalid Hfields Hstore
               (absent_rows_fixed j _ (rows st) Habs)).
    unfold matched_rows. rewrite Habs. simpl.
    rewrite andb_false_r. reflexivity.
Qed.

Lemma C10_witness :
  ServerJs.put_movie mysql2_found_rows example_store (IdInt 3)
    same_as_pulp_fiction seed
  = (message 200 "Movie updated successfully.", seed)
  /\ ServerJs.put_movie false example_store (IdInt 3)
       same_as_pulp_fiction seed
     = (message 404 "Movie not found or no changes made.", seed)
  /\ (forall found_rows j, 0 < j -> select_by_id j (rows seed) = [] ->
        ServerJs.put_movie found_rows example_store (IdInt j)
          same_as_pulp_fiction seed
        = (message 404 "Movie not found or no changes made.", seed)).
Proof.
  apply (C10_put_without_change example_store 3 same_as_pulp_fiction
           seed [(CTitle, SText "Pulp Fiction"); (CYear, SInt 1994)]
           pulp_fiction []).
  - lia.
  - reflexivity.
  - discriminate.
  - reflexivity.
  - reflexivity.
  - intros m' [Hm | []]. rewrite <- Hm. reflexivity.
Defined.

(** ** Who writes the aggregate *)

Lemma set_column_keeps (c : Column) (v : SqlVal) (m : Movie) :
  id (set_column c v m) = id m
  /\ average_rating (set_column c v m) = average_rating m
  /\ num_ratings (set_column c v m) = num_ratings m.
Proof. destruct c; repeat split. Qed.

Lemma set_columns_keeps (l : list (Column * SqlVal)) (m : Movie) :
  id (set_columns l m) = id m
  /\ average_rating (set_columns l m) = average_rating m
  /\ num_ratings (set_columns l m) = num_ratings m.
Proof.
  unfold set_columns. revert m.
  induction l as [|[c v] l IH]; intros m; simpl; [repeat split|].
  destruct (IH (set_column c v m)) as (H1 & H2 & H3).
  destruct (set_column_keeps c v m) as (K1 & K2 & K3).
  rewrite H1, H2, H3. auto.
Qed.

Lemma aggregates_preserved_sub (l l' : list Movie) (n n' : Z) :
  (forall m', In m' l' ->
     exists m, In m l /\ id m = id m'
               /\ average_rating m = average_rating m'
               /\ num_ratings m = num_ratings m') ->
  aggregates_preserved (mkStore l n) (mkStore l' n').
Proof.
  intros H. unfold aggregates_preserved. simpl. apply Forall_forall.
  intros m' Hm'. left. apply H. exact Hm'.
Qed.

Lemma aggregates_preserved_refl (st : Store) : aggregates_preserved st st.
Proof.
  destruct st as [l n]. apply aggregates_preserved_sub.
  intros m' Hm'. exists m'. auto.
Qed.

Lemma aggregates_preserved_update (st : Store) (p : IdParam)
  (l : list (Column * SqlVal)) :
  aggregates_preserved st
    (with_rows st (ServerJs.update_param p (set_columns l) (rows st))).
Proof.
  unfold ServerJs.update_param. destruct (row_of p) as [i|];
    [|rewrite with_rows_same; apply aggregates_preserved_refl].
  destruct st as [t n]. unfold with_rows. simpl rows. simpl auto_increment.
  apply aggregates_preserved_sub. intros m' Hm'.
  unfold update_where_id in Hm'. apply in_map_iff in Hm'.
  destruct Hm' as (m & Hm & Hin). exists m. split; [exact Hin|].
  destruct (id m =? i); subst m'; [|auto].
  destruct (set_columns_keeps l m) as (H1 & H2 & H3). auto.
Qed.

Lemma aggregates_preserved_delete (st : Store) (p : IdParam) :
  aggregates_preserved st
    (with_rows st (ServerJs.delete_param p (rows st))).
Proof.
  unfold ServerJs.delete_param. destruct (row_of p) as [i|];
    [|rewrite with_rows_same; apply aggregates_preserved_refl].
  destruct st as [t n]. unfold with_rows. simpl rows. simpl auto_increment.
  apply aggregates_preserved_sub. intros m' Hm'.
  unfold delete_where_id in Hm'. apply filter_In in Hm'.
  exists m'. split; [apply Hm'|auto].
Qed.

Lemma insert_row_default (sql_store : Column -> JsVal -> SqlResult SqlVal)
  (n : Z) (t d y g ds p : JsVal) (m : Movie) :
  ServerJs.insert_row sql_store n t d y g ds p = SqlOk m ->
  id m = n /\ average_rating m = 0 /\ num_ratings m = 0.
Proof.
  unfold ServerJs.insert_row.
  destruct (sql_store CTitle t); [|discriminate].
  destruct (sql_store CDirector d); [|discriminate].
  destruct (sql_store CYear y); [|discriminate].
  destruct (sql_store CGenre g); [|discriminate].
  destruct (sql_store CDescription ds); [|discriminate].
  destruct (sql_store CPosterUrl p); [|discriminate].
  intros H. inversion H. repeat split.
Qed.

(** X21. server.js: a request other than a rating leaves the aggregate of
    every item as it was, and the one row that a request can add, with
    an id that no item had, starts at (0.00, 0). *)
Lemma server_only_rate_writes_aggregate
  (found_rows : bool) (sql_store : Column -> JsVal -> SqlResult SqlVal)
  (like : SqlVal -> string -> bool) (req : ServerJs.Request) (st : Store) :
  primary_key st ->
  (forall p v, req <> ServerJs.PostRate p v) ->
  aggregates_preserved st
    (snd (ServerJs.handle found_rows sql_store like req st)).
Proof.
  intros Hkey Hreq. destruct req as [|q|p|data|p data|p|p v]; simpl.
  - apply aggregates_preserved_refl.
  - apply aggregates_preserved_refl.
  - apply aggregates_preserved_refl.
  - unfold ServerJs.post_movie.
    destruct (ServerJs.validateMovieData data true);
      [apply aggregates_preserved_refl|].
    destruct (ServerJs.insert_row _ _ _ _ _ _ _ _) as [m|code] eqn:Hins.
    + destruct (insert_row_default _ _ _ _ _ _ _ _ _ Hins) as (Hid & Ha & Hn).
      unfold aggregates_preserved. simpl. apply Forall_app. split.
      * apply Forall_forall. intros m' Hm'. left. exists m'. auto.
      * constructor; [|constructor]. right. split; [|auto].
        intros m0 Hm0. destruct Hkey as (_ & Hbelow & _).
        rewrite Forall_forall in Hbelow. specialize (Hbelow m0 Hm0). lia.
    + destruct (String.eqb code "ER_DUP_ENTRY");
        apply aggregates_preserved_refl.
  - unfold ServerJs.put_movie.
    destruct (invalid_id p); [apply aggregates_preserved_refl|].
    destruct (ServerJs.validateMovieData data false);
      [apply aggregates_preserved_refl|].
    destruct (Nat.eqb _ 0); [apply aggregates_preserved_refl|].
    destruct (ServerJs.store_all sql_store (ServerJs.fieldsToUpdate data))
      as [l|code]; [|apply aggregates_preserved_refl].
    destruct (ServerJs.affectedRows found_rows p (set_columns l) (rows st) =? 0);
      apply aggregates_preserved_update.
  - unfold ServerJs.delete_movie.
    destruct (invalid_id p); [apply aggregates_preserved_refl|].
    match goal with
    | |- context [if ?c then _ else _] => destruct c
    end; apply aggregates_preserved_delete.
  - exfalso. apply (Hreq p v). reflexivity.
Qed.


(** C6. The PUT of the transactional back end hands the whole request body
    to [UPDATE movies SET ?]: a body that names the aggregate columns
    overwrites them, here from (0.00, 0) to (5.00, 1000), without any
    rating being submitted. *)
Theorem C6_tx_put_overwrites_aggregate :
  exists st',
    TxBackend.put_movie example_store 2
      [TxBackend.SetAverageRating 5; TxBackend.SetNumRatings 1000] seed
    = (message 200 "Movie updated successfully", st')
    /\ aggregate 2 seed = Some (0, 0)
    /\ aggregate 2 st' = Some (500, 1000)
    /\ ~ aggregates_kept seed st'.
Proof.
  eexists. split; [vm_compute; reflexivity|].
  split; [reflexivity|]. split; [vm_compute; reflexivity|].
  intros H. unfold aggregates_kept in H. simpl rows in H.
  inversion H as [|x l Hx Hl]; subst.
  inversion Hl as [|y l' Hy Hl']; subst.
  destruct Hy as [(m & Hin & Hid & Havg & Hnum) | [Havg Hnum]].
  - simpl in Hin. destruct Hin as [<- | [<- | [<- | []]]];
      vm_compute in Hnum; discriminate.
  - vm_compute in Hnum. discriminate.
Qed.

(** ** Search *)





(** ** Concurrent submissions *)

(** A request that runs alone goes through its phases to the response and
    the table of the handler. *)
Lemma server_alone (found_rows : bool) (i r : Z) (st : Store) :
  0 < i -> valid_rating r ->
  Interleaving.server_run found_rows i [0%nat; 0%nat]
    (Interleaving.mkConfig st [Interleaving.Pending r])
  = Interleaving.mkConfig
      (snd (ServerJs.post_rate found_rows (IdInt i) (JNum (inject_Z r)) st))
      [Interleaving.Finished r
         (fst (ServerJs.post_rate found_rows (IdInt i) (JNum (inject_Z r)) st))].
Proof.
  intros Hi Hr. unfold ServerJs.post_rate.
  assert (Hinv : invalid_id (IdInt i) = false) by (simpl; apply Z.leb_gt; lia).
  rewrite Hinv, (validateRating_valid r Hr), (round_double_rating r Hr).
  change (select_param (IdInt i) (rows st)) with (select_by_id i (rows st)).
  unfold Interleaving.server_run. simpl fold_left.
  unfold Interleaving.server_advance at 2. simpl.
  unfold Interleaving.server_select.
  destruct (select_by_id i (rows st)) as [|m rest] eqn:Hsel.
  - reflexivity.
  - unfold Interleaving.server_advance. simpl.
    unfold Interleaving.server_update.
    destruct (ServerJs.rate_update found_rows (IdInt i) (Fin (inject_Z r))
                (average_rating m) (num_ratings m) st) as [resp st'].
    reflexivity.
Qed.

Lemma tx_alone (i r : Z) (st : Store) :
  valid_rating r ->
  Interleaving.tx_run i [0%nat; 0%nat]
    (Interleaving.mkTxConfig st None [Interleaving.TxPending r])
  = Interleaving.mkTxConfig
      (snd (TxBackend.post_rate i (JNum (inject_Z r)) st)) None
      [Interleaving.TxFinished r
         (fst (TxBackend.post_rate i (JNum (inject_Z r)) st))].
Proof.
  intros Hr. unfold TxBackend.post_rate.
  rewrite (tx_rating_accepted r Hr).
  unfold Interleaving.tx_run. simpl fold_left.
  unfold Interleaving.tx_advance at 2. simpl.
  destruct (select_by_id i (rows st)) as [|m rest] eqn:Hsel.
  - reflexivity.
  - unfold Interleaving.tx_advance. simpl.
    unfold Interleaving.tx_update.
    destruct (TxBackend.rate_update i (JNum (inject_Z r))
                (average_rating m) (num_ratings m) st) as [resp st'].
    reflexivity.
Qed.

(** C3. server.js reads the aggregate and writes it back in two separate
    statements, without a transaction.  When two submissions, 4 and 2, for
    the fresh item 2 both read before either writes, both are answered
    with 200 and the table ends with (2.00, 1): one submission is lost,
    where every serial order gives (3.00, 2). *)
Theorem C3_server_lost_update :
  let c := Interleaving.server_run true 2 [0; 1; 0; 1]%nat
             (Interleaving.mkConfig seed
                [Interleaving.Pending 4; Interleaving.Pending 2]) in
  aggregate 2 seed = Some (0, 0)
  /\ Interleaving.threads c
     = [Interleaving.Finished 4
          (mkResponse 200 (BRated "Movie rated successfully." 400 1));
        Interleaving.Finished 2
          (mkResponse 200 (BRated "Movie rated successfully." 200 1))]
  /\ aggregate 2 (Interleaving.store c) = Some (200, 1)
  /\ fold_left fold_rating [4; 2] (0, 0) = (300, 2)
  /\ fold_left fold_rating [2; 4] (0, 0) = (300, 2).
Proof. cbv zeta. repeat split; vm_compute; reflexivity. Qed.


(** *** The transactional back end serialises the submissions *)

Section SetNth.

Import Interleaving.

Context {A : Type}.

Lemma nth_error_set_nth_same (k : nat) (x y : A) (l : list A) :
  nth_error l k = Some y -> nth_error (set_nth k x l) k = Some x.
Proof.
  revert k. induction l as [|h t IH]; intros [|k] H; simpl in *;
    try discriminate; [reflexivity|].
  apply IH. exact H.
Qed.

Lemma nth_error_set_nth_other (k k' : nat) (x : A) (l : list A) :
  k' <> k -> nth_error (set_nth k x l) k' = nth_error l k'.
Proof.
  revert k k'. induction l as [|h t IH]; intros [|k] [|k'] H; simpl;
    try reflexivity; [contradiction|].
  apply IH. congruence.
Qed.

Lemma length_set_nth (k : nat) (x : A) (l : list A) :
  List.length (set_nth k x l) = List.length l.
Proof.
  revert k. induction l as [|h t IH]; intros [|k]; simpl; try reflexivity.
  f_equal. apply IH.
Qed.

End SetNth.

Section Answered.

Import Interleaving.

Lemma answered_set_nth_unfinished (k : nat) (x y : TxPhase)
  (l : list TxPhase) :
  nth_error l k = Some y -> tx_finished y = false -> tx_finished x = false ->
  tx_answered (set_nth k x l) = tx_answered l.
Proof.
  unfold tx_answered.
  revert k. induction l as [|h t IH]; intros [|k] H Hy Hx; simpl in *;
    try discriminate.
  - inversion H; subst. rewrite Hx, Hy. reflexivity.
  - destruct (tx_finished h); simpl; [f_equal|]; apply (IH k H Hy Hx).
Qed.

Lemma answered_set_nth_finish (k : nat) (x y : TxPhase) (l : list TxPhase) :
  nth_error l k = Some y -> tx_finished y = false -> tx_finished x = true ->
  Permutation (tx_answered l ++ [tx_rating x]) (tx_answered (set_nth k x l)).
Proof.
  unfold tx_answered.
  revert k. induction l as [|h t IH]; intros [|k] H Hy Hx; simpl in *;
    try discriminate.
  - inversion H; subst. rewrite Hx, Hy. simpl.
    apply Permutation_sym, Permutation_cons_append.
  - destruct (tx_finished h); simpl.
    + apply perm_skip. apply (IH k H Hy Hx).
    + apply (IH k H Hy Hx).
Qed.

Lemma ratings_set_nth (k : nat) (x y : TxPhase) (l : list TxPhase) :
  nth_error l k = Some y -> tx_rating x = tx_rating y ->
  map tx_rating (set_nth k x l) = map tx_rating l.
Proof.
  revert k. induction l as [|h t IH]; intros [|k] H Hxy; simpl in *;
    try discriminate.
  - inversion H; subst. rewrite Hxy. reflexivity.
  - rewrite (IH k H Hxy). reflexivity.
Qed.

Lemma answered_all_finished (l : list TxPhase) :
  forallb tx_finished l = true -> tx_answered l = map tx_rating l.
Proof.
  unfold tx_answered. induction l as [|h t IH]; simpl; [reflexivity|].
  intros H. apply andb_true_iff in H. destruct H as [Hh Ht].
  rewrite Hh. simpl. rewrite (IH Ht). reflexivity.
Qed.

End Answered.

Section Serialised.

Import Interleaving.

Variable i : Z.

Lemma tx_advance_ratings (k : nat) (c : TxConfig) :
  map tx_rating (tx_threads (tx_advance i k c))
  = map tx_rating (tx_threads c).
Proof.
  unfold tx_advance.
  destruct (nth_error (tx_threads c) k) as [[r | r a n | r resp]|] eqn:Hk;
    try reflexivity.
  - destruct (tx_lock c); [reflexivity|].
    destruct (select_by_id i (rows (tx_store c))); simpl;
      apply (ratings_set_nth k _ _ _ Hk); reflexivity.
  - unfold tx_update.
    destruct (TxBackend.rate_update i (JNum (inject_Z r)) a n (tx_store c)).
    simpl. apply (ratings_set_nth k _ _ _ Hk). reflexivity.
Qed.

Lemma tx_run_ratings (schedule : list nat) (c : TxConfig) :
  map tx_rating (tx_threads (tx_run i schedule c))
  = map tx_rating (tx_threads c).
Proof.
  unfold tx_run. revert c.
  induction schedule as [|k s IH]; intros c; simpl; [reflexivity|].
  rewrite IH. apply tx_advance_ratings.
Qed.

(** The handler is its locking SELECT followed by the rest. *)
Lemma tx_post_rate_selected (r a n : Z) (st : Store) :
  valid_rating r -> aggregate i st = Some (a, n) ->
  TxBackend.post_rate i (JNum (inject_Z r)) st
  = TxBackend.rate_update i (JNum (inject_Z r)) a n st.
Proof.
  intros Hr Hagg.
  destruct (aggregate_select _ _ _ _ Hagg) as (m & rest & Hsel & Ha & Hn).
  unfold TxBackend.post_rate.
  rewrite (tx_rating_accepted r Hr), Hsel, Ha, Hn. reflexivity.
Qed.

Lemma tx_submit_all_snoc (order : list Z) (r : Z) (st : Store) :
  tx_submit_all i (order ++ [r]) st
  = snd (TxBackend.post_rate i (JNum (inject_Z r))
           (tx_submit_all i order st)).
Proof. apply tx_submit_all_app. Qed.

Lemma tx_advance_inv (st0 : Store) (k : nat) (c : TxConfig) :
  Forall valid_rating (map tx_rating (tx_threads c)) ->
  tx_inv i st0 c -> tx_inv i st0 (tx_advance i k c).
Proof.
  intros Hvalid Hinv. pose proof Hinv as (order & Hperm & Hstore & Hlock).
  unfold tx_advance.
  destruct (nth_error (tx_threads c) k) as [[r | r a n | r resp]|] eqn:Hk;
    [| | exact Hinv | exact Hinv].
  - (* the locking SELECT *)
    destruct (tx_lock c) as [k0|] eqn:Hl; [exact Hinv|].
    destruct (select_by_id i (rows (tx_store c))) as [|m rest] eqn:Hsel.
    + (* no such item: answered at once *)
      exists (order ++ [r]). simpl. split; [|split].
      * eapply Permutation_trans;
          [apply Permutation_app_tail; exact Hperm|].
        apply (answered_set_nth_finish k (TxFinished r _) _ _ Hk);
          reflexivity.
      * rewrite tx_submit_all_snoc, <- Hstore.
        symmetry. apply tx_rate_absent_unchanged. exact Hsel.
      * intros k' r' a' n' Hk'.
        destruct (Nat.eq_dec k' k) as [He | Hne].
        -- subst k'.
           rewrite (nth_error_set_nth_same k _ _ _ Hk) in Hk'. discriminate.
        -- rewrite nth_error_set_nth_other in Hk' by exact Hne.
           exact (Hlock k' r' a' n' Hk').
    + exists order. simpl. split; [|split; [exact Hstore|split]].
      * rewrite (answered_set_nth_unfinished k _ _ _ Hk); auto.
      * exists r, (average_rating m), (num_ratings m). split.
        -- apply (nth_error_set_nth_same k _ _ _ Hk).
        -- unfold aggregate. rewrite Hsel. reflexivity.
      * intros k' r' a' n' Hk'.
        destruct (Nat.eq_dec k' k) as [He | Hne]; [exact He|].
        rewrite nth_error_set_nth_other in Hk' by exact Hne.
        exfalso. exact (Hlock k' r' a' n' Hk').
  - (* UPDATE and COMMIT, or ROLLBACK *)
    destruct (tx_lock c) as [k0|] eqn:Hl;
      [|exfalso; exact (Hlock k r a n Hk)].
    destruct Hlock as ((r0 & a0 & n0 & Hk0 & Hagg0) & Honly).
    assert (Hkk : k = k0) by (apply (Honly k r a n Hk)). subst k0.
    rewrite Hk in Hk0. inversion Hk0; subst r0 a0 n0.
    assert (Hr : valid_rating r).
    { rewrite Forall_forall in Hvalid. apply Hvalid.
      apply in_map_iff. exists (TxLocked r a n). split; [reflexivity|].
      apply (nth_error_In _ _ Hk). }
    unfold tx_update.
    pose proof (tx_post_rate_selected r a n (tx_store c) Hr Hagg0) as Hpost.
    destruct (TxBackend.rate_update i (JNum (inject_Z r)) a n (tx_store c))
      as [resp st'] eqn:Hupd.
    exists (order ++ [r]). simpl. split; [|split].
    + eapply Permutation_trans;
        [apply Permutation_app_tail; exact Hperm|].
      apply (answered_set_nth_finish k (TxFinished r _) _ _ Hk); reflexivity.
    + rewrite tx_submit_all_snoc, <- Hstore, Hpost. reflexivity.
    + intros k' r' a' n' Hk'.
      destruct (Nat.eq_dec k' k) as [He | Hne].
      * subst k'.
        rewrite (nth_error_set_nth_same k _ _ _ Hk) in Hk'. discriminate.
      * rewrite nth_error_set_nth_other in Hk' by exact Hne.
        apply Hne. exact (Honly k' r' a' n' Hk').
Qed.

Lemma tx_run_inv (st0 : Store) (schedule : list nat) (c : TxConfig) :
  Forall valid_rating (map tx_rating (tx_threads c)) ->
  tx_inv i st0 c -> tx_inv i st0 (tx_run i schedule c).
Proof.
  unfold tx_run. revert c.
  induction schedule as [|k s IH]; intros c Hvalid Hinv; simpl;
    [exact Hinv|].
  apply IH.
  - rewrite tx_advance_ratings. exact Hvalid.
  - apply tx_advance_inv; assumption.
Qed.

Lemma tx_inv_initial (st : Store) (rs : list Z) :
  tx_inv i st (mkTxConfig st None (map TxPending rs)).
Proof.
  exists []. simpl. split; [|split; [reflexivity|]].
  - unfold tx_answered.
    induction rs as [|r rs IH]; simpl; [constructor | exact IH].
  - intros k r a n Hk. apply nth_error_In in Hk.
    apply in_map_iff in Hk. destruct Hk as (x & Hx & _). discriminate.
Qed.

Lemma pending_ratings (rs : list Z) :
  map tx_rating (map TxPending rs) = rs.
Proof. rewrite map_map. simpl. apply map_id. Qed.

(** X22. Whatever the interleaving of K valid submissions in their
    transactions, once all are answered the table is the one that the
    same submissions leave when they are served one after the other in
    some order; for an item that holds (A, N) the count has grown by K
    and the average has been reached by folding the K ratings in that
    order. *)
Lemma tx_serialised (st : Store) (rs : list Z) (schedule : list nat) :
  Forall valid_rating rs ->
  let c := tx_run i schedule (mkTxConfig st None (map TxPending rs)) in
  forallb tx_finished (tx_threads c) = true ->
  exists order,
    Permutation order rs
    /\ tx_store c = tx_submit_all i order st
    /\ forall A N,
         aggregate i st = Some (A, N) -> 0 <= A <= 999 -> 0 <= N ->
         N + Z.of_nat (List.length rs) <= 2147483647 ->
         exists a,
           aggregate i (tx_store c)
           = Some (a, N + Z.of_nat (List.length rs))
           /\ rated_all (A, N) order (a, N + Z.of_nat (List.length rs)).
Proof.
  intros Hrs c Hdone.
  assert (Hvalid : Forall valid_rating
                     (map tx_rating
                        (tx_threads (mkTxConfig st None (map TxPending rs)))))
    by (simpl; rewrite pending_ratings; exact Hrs).
  destruct (tx_run_inv st schedule _ Hvalid (tx_inv_initial st rs))
    as (order & Hperm & Hfinal & _).
  fold c in Hperm, Hfinal.
  rewrite (answered_all_finished _ Hdone) in Hperm.
  unfold c in Hperm. rewrite tx_run_ratings in Hperm. simpl in Hperm.
  rewrite pending_ratings in Hperm.
  exists order. split; [exact Hperm|]. split; [exact Hfinal|].
  intros A N Hagg HA HN Hlen.
  assert (Horder : Forall valid_rating order).
  { rewrite Forall_forall in *. intros r Hin. apply Hrs.
    apply (Permutation_in _ Hperm Hin). }
  rewrite <- (Permutation_length Hperm) in *.
  destruct (tx_submit_all_rated i order Horder st A N Hagg HA HN Hlen)
    as (a & Ha & _ & Hrated).
  exists a. rewrite Hfinal. split; assumption.
Qed.





Variables A N : Z.
Hypothesis N_nonneg : 0 <= N.


End Serialised.

(** * Further properties of the code *)

(** ** Validation *)



Lemma tx_serialised_witness :
  exists order,
    Permutation order [4; 2]
    /\ Interleaving.tx_store
         (Interleaving.tx_run 2 [0; 1; 1; 0; 1; 1]%nat
            (Interleaving.mkTxConfig seed None
               (map Interleaving.TxPending [4; 2])))
       = tx_submit_all 2 order seed
    /\ forall A N,
         aggregate 2 seed = Some (A, N) -> 0 <= A <= 999 -> 0 <= N ->
         N + Z.of_nat (List.length [4; 2]) <= 2147483647 ->
         exists a,
           aggregate 2
             (Interleaving.tx_store
                (Interleaving.tx_run 2 [0; 1; 1; 0; 1; 1]%nat
                   (Interleaving.mkTxConfig seed None
                      (map Interleaving.TxPending [4; 2]))))
           = Some (a, N + Z.of_nat (List.length [4; 2]))
           /\ rated_all (A, N) order (a, N + Z.of_nat (List.length [4; 2])).
Proof.
  apply (tx_serialised 2 seed [4; 2] [0; 1; 1; 0; 1; 1]%nat).
  - repeat constructor; unfold valid_rating; lia.
  - reflexivity.
Defined.


Lemma not_undefined_or (v : JsVal) (bad : JsVal -> bool) :
  negb (ServerJs.is_undefined v) && bad v = false ->
  v = JUndefined \/ bad v = false.
Proof.
  destruct v; simpl; auto.
Qed.

(** X2. A body that [validateMovieData] accepts for a creation is also
    accepted for an update; its title and director are strings that are
    not blank, and each optional field is absent or well formed: the year
    a positive integer, genre and description strings that are not blank,
    the poster an image URL. *)
Theorem validateMovieData_accepted (data : MovieData) :
  ServerJs.validateMovieData data true = None ->
  ServerJs.validateMovieData data false = None
  /\ (exists t, d_title data = JStr t /\ blank t = false)
  /\ (exists d, d_director data = JStr d /\ blank d = false)
  /\ (d_year data = JUndefined
      \/ exists q, d_year data = JNum q /\ isInteger q = true /\ (0 < q)%Q)
  /\ (d_genre data = JUndefined
      \/ exists s, d_genre data = JStr s /\ blank s = false)
  /\ (d_description data = JUndefined
      \/ exists s, d_description data = JStr s /\ blank s = false)
  /\ (d_poster_url data = JUndefined
      \/ exists s, d_poster_url data = JStr s /\ is_image_url s = true).
Proof.
  unfold ServerJs.validateMovieData. simpl andb.
  destruct (ServerJs.missing_text (d_title data)) eqn:Ht; [discriminate|].
  destruct (ServerJs.missing_text (d_director data)) eqn:Hd; [discriminate|].
  destruct (negb (ServerJs.is_undefined (d_year data))
            && ServerJs.bad_year (d_year data)) eqn:Hy; [discriminate|].
  destruct (negb (ServerJs.is_undefined (d_genre data))
            && ServerJs.bad_text (d_genre data)) eqn:Hg; [discriminate|].
  destruct (negb (ServerJs.is_undefined (d_description data))
            && ServerJs.bad_text (d_description data)) eqn:Hs; [discriminate|].
  destruct (negb (ServerJs.is_undefined (d_poster_url data))
            && ServerJs.bad_poster_url (d_poster_url data)) eqn:Hp;
    [discriminate|].
  intros _. split; [reflexivity|].
  split; [|split; [|split; [|split; [|split]]]].
  - destruct (d_title data) as [| | | |t]; try discriminate Ht.
    exists t. split; [reflexivity|]. simpl in Ht.
    apply orb_false_iff in Ht. apply Ht.
  - destruct (d_director data) as [| | | |d]; try discriminate Hd.
    exists d. split; [reflexivity|]. simpl in Hd.
    apply orb_false_iff in Hd. apply Hd.
  - destruct (not_undefined_or _ _ Hy) as [H | H]; [left; exact H|].
    right. destruct (d_year data) as [| | |q|]; try discriminate H.
    exists q. split; [reflexivity|]. simpl in H.
    apply orb_false_iff in H. destruct H as [Hint Hpos].
    split; [destruct (isInteger q); [reflexivity | discriminate]|].
    apply Qnot_le_lt. intros Hle. apply Qle_bool_iff in Hle. congruence.
  - destruct (not_undefined_or _ _ Hg) as [H | H]; [left; exact H|].
    right. destruct (d_genre data) as [| | | |s]; try discriminate H.
    exists s. split; [reflexivity | exact H].
  - destruct (not_undefined_or _ _ Hs) as [H | H]; [left; exact H|].
    right. destruct (d_description data) as [| | | |s]; try discriminate H.
    exists s. split; [reflexivity | exact H].
  - destruct (not_undefined_or _ _ Hp) as [H | H]; [left; exact H|].
    right. destruct (d_poster_url data) as [| | | |s]; try discriminate H.
    exists s. split; [reflexivity|]. simpl in H.
    destruct (is_image_url s); [reflexivity | discriminate].
Qed.

Lemma validateMovieData_accepted_witness :
  ServerJs.validateMovieData heat false = None
  /\ (exists t, d_title heat = JStr t /\ blank t = false)
  /\ (exists d, d_director heat = JStr d /\ blank d = false)
  /\ (d_year heat = JUndefined
      \/ exists q, d_year heat = JNum q /\ isInteger q = true /\ (0 < q)%Q)
  /\ (d_genre heat = JUndefined
      \/ exists s, d_genre heat = JStr s /\ blank s = false)
  /\ (d_description heat = JUndefined
      \/ exists s, d_description heat = JStr s /\ blank s = false)
  /\ (d_poster_url heat = JUndefined
      \/ exists s, d_poster_url heat = JStr s /\ is_image_url s = true).
Proof.
  apply (validateMovieData_accepted heat). reflexivity.
Defined.

(** ** The poster URL pattern *)

Lemma strip_prefix_app (p l : list ascii) : strip_prefix p (p ++ l) = Some l.
Proof.
  induction p as [|a p IH]; simpl; [destruct l; reflexivity|].
  rewrite Ascii.eqb_refl. exact IH.
Qed.

Lemma strip_prefix_Some (p l r : list ascii) :
  strip_prefix p l = Some r -> l = p ++ r.
Proof.
  revert l. induction p as [|a p IH]; intros l H.
  - destruct l; simpl in H; inversion H; reflexivity.
  - destruct l as [|b l]; simpl in H; [discriminate|].
    destruct (Ascii.eqb a b) eqn:E; [|discriminate].
    apply Ascii.eqb_eq in E. subst b. simpl. f_equal. apply IH. exact H.
Qed.

(** X3. The poster pattern accepts exactly the strings that, once put in
    lower case, read http:// or https://, then one or more characters none
    of which ends a line, then a dot and one of jpg, jpeg, png, gif, bmp,
    webp, with nothing after it. *)
Theorem is_image_url_iff (s : string) :
  is_image_url s = true
  <-> exists scheme body ext,
        (scheme = "http://"%string \/ scheme = "https://"%string)
        /\ In ext image_extensions
        /\ body <> []
        /\ Forall (fun c => is_line_terminator c = false) body
        /\ map lower (list_ascii_of_string s)
           = list_ascii_of_string scheme ++ body
             ++ list_ascii_of_string ("." ++ ext).
Proof.
  unfold is_image_url. set (l := map lower (list_ascii_of_string s)).
  split.
  - intros H.
    assert (Hscheme : exists scheme r,
               (scheme = "http://"%string \/ scheme = "https://"%string)
               /\ l = list_ascii_of_string scheme ++ r
               /\ existsb (ends_with_extension (rev r)) image_extensions
                  = true).
    { destruct (strip_prefix (list_ascii_of_string "https://") l) as [r|] eqn:E.
      - exists "https://"%string, r. split; [right; reflexivity|].
        split; [apply strip_prefix_Some; exact E | exact H].
      - destruct (strip_prefix (list_ascii_of_string "http://") l) as [r|] eqn:E';
          [|discriminate].
        exists "http://"%string, r. split; [left; reflexivity|].
        split; [apply strip_prefix_Some; exact E' | exact H]. }
    destruct Hscheme as (scheme & r & Hs & Hl & Hex).
    apply existsb_exists in Hex. destruct Hex as (ext & Hin & Hend).
    unfold ends_with_extension in Hend.
    destruct (strip_prefix (rev (list_ascii_of_string ("." ++ ext))) (rev r))
      as [before|] eqn:E; [|discriminate].
    apply andb_true_iff in Hend. destruct Hend as [Hlen Hall].
    apply strip_prefix_Some in E.
    assert (Hr : r = rev before ++ list_ascii_of_string ("." ++ ext)).
    { rewrite <- (rev_involutive r), E, rev_app_distr, rev_involutive.
      reflexivity. }
    exists scheme, (rev before), ext.
    split; [exact Hs|]. split; [exact Hin|]. split; [|split].
    + destruct before; [discriminate Hlen|]. simpl. intros Hnil.
      apply app_eq_nil in Hnil. destruct Hnil as [_ Hnil]. discriminate.
    + apply Forall_forall. intros c Hc. apply in_rev in Hc.
      rewrite forallb_forall in Hall. specialize (Hall c Hc).
      destruct (is_line_terminator c); [discriminate | reflexivity].
    + rewrite Hl, Hr. reflexivity.
  - intros (scheme & body & ext & Hs & Hin & Hne & Hall & Hl).
    assert (Hend : ends_with_extension
                     (rev (body ++ list_ascii_of_string ("." ++ ext))) ext
                   = true).
    { unfold ends_with_extension. rewrite rev_app_distr, strip_prefix_app.
      apply andb_true_iff. split.
      - rewrite length_rev. destruct body; [contradiction | reflexivity].
      - apply forallb_forall. intros c Hc. apply in_rev in Hc.
        rewrite Forall_forall in Hall. rewrite (Hall c Hc). reflexivity. }
    assert (Hex : existsb
                    (ends_with_extension
                       (rev (body ++ list_ascii_of_string ("." ++ ext))))
                    image_extensions = true).
    { apply existsb_exists. exists ext. split; assumption. }
    rewrite Hl. destruct Hs as [Hs | Hs]; subst scheme.
    + assert (Hno : strip_prefix (list_ascii_of_string "https://")
                      (list_ascii_of_string "http://" ++ body
                       ++ list_ascii_of_string ("." ++ ext)) = None)
        by reflexivity.
      rewrite Hno, strip_prefix_app. exact Hex.
    + rewrite strip_prefix_app. exact Hex.
Qed.

(** ** PUT in server.js *)

Lemma SqlVal_eqb_eq (a b : SqlVal) : SqlVal_eqb a b = true -> a = b.
Proof.
  destruct a, b; simpl; intros H; try discriminate; try reflexivity.
  - apply Z.eqb_eq in H. congruence.
  - apply String.eqb_eq in H. congruence.
Qed.

Lemma Movie_eqb_eq (a b : Movie) : Movie_eqb a b = true -> a = b.
Proof.
  unfold Movie_eqb. intros H.
  repeat (apply andb_true_iff in H; destruct H as [H ?]).
  destruct a, b. simpl in *.
  repeat match goal with
         | E : (_ =? _) = true |- _ => apply Z.eqb_eq in E
         | E : SqlVal_eqb _ _ = true |- _ => apply SqlVal_eqb_eq in E
         end.
  congruence.
Qed.

Lemma changed_rows_zero (i : Z) (f : Movie -> Movie) (l : list Movie) :
  changed_rows i f l = 0 ->
  forall m, In m (select_by_id i l) -> f m = m.
Proof.
  unfold changed_rows. induction (select_by_id i l) as [|x s IH];
    intros H m Hm; [destruct Hm|].
  simpl filter in H.
  destruct (Movie_eqb (f x) x) eqn:E; simpl negb in H; cbv iota in H.
  - destruct Hm as [<- | Hm]; [apply Movie_eqb_eq; exact E|].
    apply IH; assumption.
  - simpl List.length in H. lia.
Qed.

Lemma matched_rows_zero (i : Z) (l : list Movie) :
  matched_rows i l = 0 -> select_by_id i l = [].
Proof.
  unfold matched_rows. destruct (select_by_id i l); [reflexivity|].
  simpl List.length. lia.
Qed.

Lemma affectedRows_zero_unchanged (found_rows : bool) (p : IdParam)
  (f : Movie -> Movie) (st : Store) :
  ServerJs.affectedRows found_rows p f (rows st) = 0 ->
  with_rows st (ServerJs.update_param p f (rows st)) = st.
Proof.
  unfold ServerJs.affectedRows, ServerJs.update_param.
  destruct (row_of p) as [i|]; [|intros _; apply with_rows_same].
  intros H. rewrite update_identity; [apply with_rows_same|].
  destruct found_rows.
  - apply absent_rows_fixed. apply matched_rows_zero. exact H.
  - apply changed_rows_zero. exact H.
Qed.

(** X4. A PUT of server.js that is not answered with 200 leaves the table
    exactly as it was, whichever way the connection counts affected
    rows. *)
Theorem put_not_ok_unchanged
  (found_rows : bool) (sql_store : Column -> JsVal -> SqlResult SqlVal)
  (p : IdParam) (data : MovieData) (st : Store) :
  status (fst (ServerJs.put_movie found_rows sql_store p data st)) <> 200 ->
  snd (ServerJs.put_movie found_rows sql_store p data st) = st.
Proof.
  unfold ServerJs.put_movie.
  destruct (invalid_id p); [reflexivity|].
  destruct (ServerJs.validateMovieData data false); [reflexivity|].
  destruct (Nat.eqb _ 0); [reflexivity|].
  destruct (ServerJs.store_all sql_store (ServerJs.fieldsToUpdate data))
    as [l|code]; [|reflexivity].
  destruct (ServerJs.affectedRows found_rows p (set_columns l) (rows st) =? 0)
    eqn:E.
  - intros _. simpl snd.
    apply (affectedRows_zero_unchanged found_rows p (set_columns l) st).
    apply Z.eqb_eq. exact E.
  - simpl. intros H. contradiction.
Qed.

Lemma put_not_ok_unchanged_witness :
  snd (ServerJs.put_movie true example_store (IdInt 99) same_as_pulp_fiction
         seed) = seed.
Proof.
  apply (put_not_ok_unchanged true example_store (IdInt 99)
           same_as_pulp_fiction seed).
  vm_compute. discriminate.
Defined.

Lemma Column_eq_dec (a b : Column) : {a = b} + {a <> b}.
Proof. decide equality. Qed.

Lemma get_set_column_same (c : Column) (v : SqlVal) (m : Movie) :
  get_column c (set_column c v m) = v.
Proof. destruct c; reflexivity. Qed.

Lemma get_set_column_other (c c' : Column) (v : SqlVal) (m : Movie) :
  c <> c' -> get_column c' (set_column c v m) = get_column c' m.
Proof. destruct c, c'; intros H; try reflexivity; contradiction. Qed.

Lemma get_set_columns_absent (c : Column) (l : list (Column * SqlVal)) :
  forall m, ~ In c (map fst l) ->
            get_column c (set_columns l m) = get_column c m.
Proof.
  unfold set_columns.
  induction l as [|[c0 v0] l IH]; intros m Hnot; simpl; [reflexivity|].
  rewrite IH by (intros H; apply Hnot; right; exact H).
  apply get_set_column_other. intros E. apply Hnot. left. exact E.
Qed.

Lemma get_set_columns_present (c : Column) (v : SqlVal)
  (l : list (Column * SqlVal)) :
  NoDup (map fst l) -> In (c, v) l ->
  forall m, get_column c (set_columns l m) = v.
Proof.
  induction l as [|[c0 v0] l IH]; intros Hnd Hin m; [destruct Hin|].
  simpl in Hnd. inversion Hnd as [|x xs Hx Hxs]; subst.
  destruct Hin as [E | Hin].
  - inversion E; subst.
    change (set_columns ((c, v) :: l) m)
      with (set_columns l (set_column c v m)).
    rewrite get_set_columns_absent by exact Hx.
    apply get_set_column_same.
  - change (set_columns ((c0, v0) :: l) m)
      with (set_columns l (set_column c0 v0 m)).
    apply IH; assumption.
Qed.

Section StoreAll.

Variable sql_store : Column -> JsVal -> SqlResult SqlVal.

Lemma store_all_columns (l : list (Column * JsVal)) :
  forall l', ServerJs.store_all sql_store l = SqlOk l' ->
             map fst l' = map fst l.
Proof.
  induction l as [|[c v] l IH]; intros l' H; simpl in H.
  - inversion H. reflexivity.
  - destruct (sql_store c v) as [v'|]; [|discriminate].
    destruct (ServerJs.store_all sql_store l) as [r'|]; [|discriminate].
    inversion H. simpl. f_equal. apply IH. reflexivity.
Qed.

Lemma store_all_In (l : list (Column * JsVal)) (c : Column) (v : JsVal) :
  forall l', ServerJs.store_all sql_store l = SqlOk l' ->
             In (c, v) l ->
             exists v', In (c, v') l' /\ sql_store c v = SqlOk v'.
Proof.
  induction l as [|[c0 v0] l IH]; intros l' H Hin; [destruct Hin|].
  simpl in H.
  destruct (sql_store c0 v0) as [v0'|] eqn:E0; [|discriminate].
  destruct (ServerJs.store_all sql_store l) as [r'|]; [|discriminate].
  inversion H; subst l'. destruct Hin as [E | Hin].
  - inversion E; subst. exists v0'. split; [left; reflexivity | exact E0].
  - destruct (IH r' eq_refl Hin) as (v' & Hin' & Hs).
    exists v'. split; [right; exact Hin' | exact Hs].
Qed.

End StoreAll.

Lemma fieldsToUpdate_In (data : MovieData) (c : Column) :
  body_field data c <> JUndefined ->
  In (c, body_field data c) (ServerJs.fieldsToUpdate data).
Proof.
  intros H. unfold ServerJs.fieldsToUpdate. apply filter_In. split.
  - destruct c; simpl; auto 7.
  - simpl. destruct (body_field data c); try reflexivity. contradiction.
Qed.

Lemma fieldsToUpdate_absent (data : MovieData) (c : Column) :
  body_field data c = JUndefined ->
  ~ In c (map fst (ServerJs.fieldsToUpdate data)).
Proof.
  intros H Hin. apply in_map_iff in Hin. destruct Hin as ([c' v] & Hc & Hin).
  simpl in Hc. subst c'. unfold ServerJs.fieldsToUpdate in Hin.
  apply filter_In in Hin. destruct Hin as [Hin Hdef]. simpl in Hdef.
  assert (Hv : v = body_field data c).
  { simpl in Hin.
    repeat (destruct Hin as [E | Hin]; [inversion E; reflexivity|]).
    destruct Hin. }
  rewrite Hv, H in Hdef. discriminate.
Qed.

Lemma NoDup_map_fst_filter (T U : Type) (f : T * U -> bool)
  (l : list (T * U)) :
  NoDup (map fst l) -> NoDup (map fst (filter f l)).
Proof.
  induction l as [|x l IH]; intros H; simpl; [constructor|].
  simpl in H. inversion H as [|y ys Hy Hys]; subst.
  destruct (f x); simpl; [|apply IH; exact Hys].
  constructor; [|apply IH; exact Hys].
  intros Hin. apply Hy. apply in_map_iff in Hin.
  destruct Hin as (z & Hz & Hin). apply filter_In in Hin.
  apply in_map_iff. exists z. split; [exact Hz | apply Hin].
Qed.

Lemma fieldsToUpdate_NoDup (data : MovieData) :
  NoDup (map fst (ServerJs.fieldsToUpdate data)).
Proof.
  unfold ServerJs.fieldsToUpdate. apply NoDup_map_fst_filter. simpl.
  repeat constructor; simpl; intuition discriminate.
Qed.

Lemma set_columns_partially_updated
  (sql_store : Column -> JsVal -> SqlResult SqlVal) (data : MovieData)
  (l : list (Column * SqlVal)) (m : Movie) :
  ServerJs.store_all sql_store (ServerJs.fieldsToUpdate data) = SqlOk l ->
  partially_updated sql_store data m (set_columns l m).
Proof.
  intros Hstore.
  destruct (set_columns_keeps l m) as (Hid & Havg & Hnum).
  split; [exact Hid|]. split; [exact Havg|]. split; [exact Hnum|].
  intros c. split.
  - intros Habs. apply get_set_columns_absent.
    rewrite (store_all_columns sql_store _ _ Hstore).
    apply fieldsToUpdate_absent. exact Habs.
  - intros Hgiven.
    destruct (store_all_In sql_store _ c (body_field data c) l Hstore
                (fieldsToUpdate_In data c Hgiven)) as (v' & Hin & Hs).
    rewrite (get_set_columns_present c v' l); [exact Hs | | exact Hin].
    rewrite (store_all_columns sql_store _ _ Hstore).
    apply fieldsToUpdate_NoDup.
Qed.

(** X5. A PUT of server.js answered with 200 is a partial update: in every
    row with the targeted id each column named in the body holds the value
    MySQL stored for the field, and the columns not named, the id and the
    aggregate are as before; every other row is unchanged and no row is
    added or removed. *)
Theorem put_partial_update
  (found_rows : bool) (sql_store : Column -> JsVal -> SqlResult SqlVal)
  (i : Z) (data : MovieData) (st : Store) :
  status (fst (ServerJs.put_movie found_rows sql_store (IdInt i) data st))
  = 200 ->
  Forall2 (fun m m' =>
             (id m <> i -> m' = m)
             /\ (id m = i -> partially_updated sql_store data m m'))
          (rows st)
          (rows (snd (ServerJs.put_movie found_rows sql_store (IdInt i)
                        data st)))
  /\ auto_increment
       (snd (ServerJs.put_movie found_rows sql_store (IdInt i) data st))
     = auto_increment st.
Proof.
  unfold ServerJs.put_movie.
  destruct (invalid_id (IdInt i)); [discriminate|].
  destruct (ServerJs.validateMovieData data false); [discriminate|].
  destruct (Nat.eqb _ 0); [discriminate|].
  destruct (ServerJs.store_all sql_store (ServerJs.fieldsToUpdate data))
    as [l|code] eqn:Hstore; [|discriminate].
  destruct (ServerJs.affectedRows found_rows (IdInt i) (set_columns l)
              (rows st) =? 0); [discriminate|].
  intros _. simpl. split; [|reflexivity].
  unfold update_where_id.
  induction (rows st) as [|m t IH]; simpl; constructor; [|exact IH].
  destruct (id m =? i) eqn:E.
  - apply Z.eqb_eq in E. split; [intros H; contradiction|].
    intros _. apply set_columns_partially_updated. exact Hstore.
  - apply Z.eqb_neq in E. split; [reflexivity | intros H; contradiction].
Qed.

Lemma put_partial_update_witness :
  Forall2 (fun m m' =>
             (id m <> 3 -> m' = m)
             /\ (id m = 3 -> partially_updated example_store heat m m'))
          (rows seed)
          (rows (snd (ServerJs.put_movie true example_store (IdInt 3) heat
                        seed)))
  /\ auto_increment
       (snd (ServerJs.put_movie true example_store (IdInt 3) heat seed))
     = auto_increment seed.
Proof.
  apply (put_partial_update true example_store 3 heat seed).
  reflexivity.
Defined.

(** X6. A well-formed PUT of server.js (positive id, valid body, at least
    one field, values MySQL can store) on an absent item is answered with
    404 and changes nothing, whichever way affected rows are counted; on a
    connection that reports matched rows it is answered with 200 whenever
    the item exists, even if no value changes. *)
Theorem put_found_or_not
  (sql_store : Column -> JsVal -> SqlResult SqlVal)
  (i : Z) (data : MovieData) (st : Store) (l : list (Column * SqlVal)) :
  0 < i ->
  ServerJs.validateMovieData data false = None ->
  ServerJs.fieldsToUpdate data <> [] ->
  ServerJs.store_all sql_store (ServerJs.fieldsToUpdate data) = SqlOk l ->
  (select_by_id i (rows st) = [] ->
   forall found_rows,
     ServerJs.put_movie found_rows sql_store (IdInt i) data st
     = (message 404 "Movie not found or no changes made.", st))
  /\ (select_by_id i (rows st) <> [] ->
      ServerJs.put_movie true sql_store (IdInt i) data st
      = (message 200 "Movie updated successfully.",
         with_rows st (update_where_id i (set_columns l) (rows st)))).
Proof.
  intros Hi Hvalid Hfields Hstore.
  assert (Hinv : invalid_id (IdInt i) = false) by (simpl; apply Z.leb_gt; lia).
  assert (Hlen : Nat.eqb (List.length (ServerJs.fieldsToUpdate data)) 0
                 = false).
  { destruct (ServerJs.fieldsToUpdate data); [contradiction | reflexivity]. }
  split.
  - intros Habs found_rows. unfold ServerJs.put_movie.
    rewrite Hinv, Hvalid, Hlen, Hstore.
    assert (Hfix : forall m, In m (select_by_id i (rows st)) ->
                             set_columns l m = m)
      by (apply absent_rows_fixed; exact Habs).
    assert (Haff : ServerJs.affectedRows found_rows (IdInt i) (set_columns l)
                     (rows st) = 0).
    { unfold ServerJs.affectedRows, row_of. destruct found_rows.
      - unfold matched_rows. rewrite Habs. reflexivity.
      - apply changed_rows_identity. exact Hfix. }
    rewrite Haff. simpl. unfold ServerJs.update_param, row_of.
    rewrite (update_identity i _ (rows st) Hfix), with_rows_same.
    reflexivity.
  - intros Hpres. unfold ServerJs.put_movie.
    rewrite Hinv, Hvalid, Hlen, Hstore.
    unfold ServerJs.affectedRows, row_of, matched_rows.
    destruct (select_by_id i (rows st)) as [|m rest]; [contradiction|].
    simpl List.length.
    assert (Hnz : (Z.of_nat (S (List.length rest)) =? 0) = false)
      by (apply Z.eqb_neq; lia).
    rewrite Hnz. reflexivity.
Qed.

Lemma put_found_or_not_witness :
  (select_by_id 3 (rows seed) = [] ->
   forall found_rows,
     ServerJs.put_movie found_rows example_store (IdInt 3) heat seed
     = (message 404 "Movie not found or no changes made.", seed))
  /\ (select_by_id 3 (rows seed) <> [] ->
      ServerJs.put_movie true example_store (IdInt 3) heat seed
      = (message 200 "Movie updated successfully.",
         with_rows seed
           (update_where_id 3
              (set_columns
                 [(CTitle, SText "Heat"); (CDirector, SText "Michael Mann");
                  (CYear, SInt 1995);
                  (CPosterUrl,
                   SText "https://example.org/posters/Heat.JPG")])
              (rows seed)))).
Proof.
  apply (put_found_or_not example_store 3 heat seed).
  - lia.
  - reflexivity.
  - discriminate.
  - reflexivity.
Defined.

(** ** POST and GET in server.js *)

Lemma select_fresh (i : Z) (l : list Movie) :
  Forall (fun m => id m < i) l -> select_by_id i l = [].
Proof.
  unfold select_by_id. induction 1 as [|m l Hm _ IH]; simpl; [reflexivity|].
  assert (E : (id m =? i) = false) by (apply Z.eqb_neq; lia).
  rewrite E. exact IH.
Qed.

Lemma select_app (i : Z) (l l' : list Movie) :
  select_by_id i (l ++ l') = select_by_id i l ++ select_by_id i l'.
Proof. unfold select_by_id. apply filter_app. Qed.

Lemma insert_row_columns (sql_store : Column -> JsVal -> SqlResult SqlVal)
  (n : Z) (t d y g ds p : JsVal) (m : Movie) :
  ServerJs.insert_row sql_store n t d y g ds p = SqlOk m ->
  sql_store CTitle t = SqlOk (title m)
  /\ sql_store CDirector d = SqlOk (director m)
  /\ sql_store CYear y = SqlOk (year m)
  /\ sql_store CGenre g = SqlOk (genre m)
  /\ sql_store CDescription ds = SqlOk (description m)
  /\ sql_store CPosterUrl p = SqlOk (poster_url m).
Proof.
  unfold ServerJs.insert_row.
  destruct (sql_store CTitle t); [|discriminate].
  destruct (sql_store CDirector d); [|discriminate].
  destruct (sql_store CYear y); [|discriminate].
  destruct (sql_store CGenre g); [|discriminate].
  destruct (sql_store CDescription ds); [|discriminate].
  destruct (sql_store CPosterUrl p); [|discriminate].
  intros H. inversion H. simpl. repeat split.
Qed.

(** X7. Round trip in server.js: when POST /api/movies answers 201 on a
    table whose ids are below the AUTO_INCREMENT counter, exactly one row
    is appended; its id is the one in the response, its columns hold what
    MySQL stored for the submitted fields, its aggregate is (0.00, 0), and
    GET /api/movies/:id with that id returns this row. *)
Theorem post_then_get
  (sql_store : Column -> JsVal -> SqlResult SqlVal)
  (data : MovieData) (st : Store) :
  primary_key st ->
  status (fst (ServerJs.post_movie sql_store data st)) = 201 ->
  exists m,
    rows (snd (ServerJs.post_movie sql_store data st)) = rows st ++ [m]
    /\ id m = auto_increment st
    /\ auto_increment (snd (ServerJs.post_movie sql_store data st))
       = auto_increment st + 1
    /\ (forall c, sql_store c (inserted_value data c)
                  = SqlOk (get_column c m))
    /\ aggregate (id m) (snd (ServerJs.post_movie sql_store data st))
       = Some (0, 0)
    /\ body (fst (ServerJs.post_movie sql_store data st))
       = BCreated (id m) (inserted_value data CTitle)
           (inserted_value data CDirector) (inserted_value data CYear)
           (inserted_value data CGenre) 0 0
           (inserted_value data CDescription)
           (inserted_value data CPosterUrl)
    /\ ServerJs.get_movie (IdInt (id m))
         (snd (ServerJs.post_movie sql_store data st))
       = mkResponse 200 (BMovie m).
Proof.
  intros (_ & Hfresh & Hpos). unfold ServerJs.post_movie.
  destruct (ServerJs.validateMovieData data true); [discriminate|].
  destruct (ServerJs.insert_row _ _ _ _ _ _ _ _) as [m|code] eqn:Hins;
    [|destruct (String.eqb code "ER_DUP_ENTRY"); discriminate].
  intros _. simpl.
  destruct (insert_row_default _ _ _ _ _ _ _ _ _ Hins) as (Hid & Ha & Hn).
  destruct (insert_row_columns _ _ _ _ _ _ _ _ _ Hins)
    as (Ht & Hd & Hy & Hg & Hs & Hp).
  assert (Hsel : select_by_id (id m) (rows st ++ [m]) = [m]).
  { rewrite select_app, select_fresh.
    - unfold select_by_id. simpl. rewrite Z.eqb_refl. reflexivity.
    - rewrite Hid. eapply Forall_impl; [|exact Hfresh].
      simpl. intros x Hx. lia. }
  exists m. split; [reflexivity|]. split; [exact Hid|].
  split; [reflexivity|]. split.
  { intros c. destruct c; simpl; assumption. }
  split.
  { unfold aggregate. simpl rows. rewrite Hsel, Ha, Hn. reflexivity. }
  split.
  { rewrite Hid. reflexivity. }
  unfold ServerJs.get_movie.
  assert (Hinv : invalid_id (IdInt (id m)) = false)
    by (simpl; apply Z.leb_gt; lia).
  rewrite Hinv. unfold select_param, row_of. simpl rows. rewrite Hsel. reflexivity.
Qed.

Lemma primary_key_seed : primary_key seed.
Proof.
  split; [|split].
  - simpl. repeat constructor; simpl; intuition discriminate.
  - repeat constructor; simpl; lia.
  - simpl. lia.
Defined.

Lemma server_only_rate_writes_aggregate_witness :
  aggregates_preserved seed
    (snd (ServerJs.handle true example_store example_like
            (ServerJs.PostMovie heat) seed)).
Proof.
  apply (server_only_rate_writes_aggregate true example_store example_like
           (ServerJs.PostMovie heat) seed).
  - exact primary_key_seed.
  - intros p v H. discriminate H.
Defined.

Lemma post_then_get_witness :
  exists m,
    rows (snd (ServerJs.post_movie example_store heat seed))
    = rows seed ++ [m]
    /\ id m = auto_increment seed
    /\ auto_increment (snd (ServerJs.post_movie example_store heat seed))
       = auto_increment seed + 1
    /\ (forall c, example_store c (inserted_value heat c)
                  = SqlOk (get_column c m))
    /\ aggregate (id m) (snd (ServerJs.post_movie example_store heat seed))
       = Some (0, 0)
    /\ body (fst (ServerJs.post_movie example_store heat seed))
       = BCreated (id m) (inserted_value heat CTitle)
           (inserted_value heat CDirector) (inserted_value heat CYear)
           (inserted_value heat CGenre) 0 0
           (inserted_value heat CDescription)
           (inserted_value heat CPosterUrl)
    /\ ServerJs.get_movie (IdInt (id m))
         (snd (ServerJs.post_movie example_store heat seed))
       = mkResponse 200 (BMovie m).
Proof.
  apply (post_then_get example_store heat seed).
  - exact primary_key_seed.
  - reflexivity.
Defined.

(** ** The primary key *)

Lemma primary_key_same_ids (st st' : Store) :
  map id (rows st') = map id (rows st) ->
  auto_increment st' = auto_increment st ->
  primary_key st -> primary_key st'.
Proof.
  intros Hids Hn (Hnd & Hall & Hpos). unfold primary_key.
  rewrite Hids, Hn. split; [exact Hnd|]. split; [|exact Hpos].
  apply (proj1 (Forall_map id (fun z => 0 < z < auto_increment st) (rows st'))).
  rewrite Hids.
  apply (proj2 (Forall_map id (fun z => 0 < z < auto_increment st) (rows st))).
  exact Hall.
Qed.

Lemma map_id_update (i : Z) (f : Movie -> Movie) (l : list Movie) :
  (forall m, id (f m) = id m) ->
  map id (update_where_id i f l) = map id l.
Proof.
  intros Hf. unfold update_where_id. rewrite map_map. apply map_ext.
  intros m. destruct (id m =? i); [apply Hf | reflexivity].
Qed.

Lemma primary_key_update (p : IdParam) (f : Movie -> Movie) (st : Store) :
  (forall m, id (f m) = id m) ->
  primary_key st ->
  primary_key (with_rows st (ServerJs.update_param p f (rows st))).
Proof.
  intros Hf. apply primary_key_same_ids; [|reflexivity].
  unfold ServerJs.update_param.
  destruct (row_of p) as [i|]; simpl;
    [apply map_id_update; exact Hf | reflexivity].
Qed.

Lemma NoDup_map_filter (T U : Type) (g : T -> U) (f : T -> bool)
  (l : list T) :
  NoDup (map g l) -> NoDup (map g (filter f l)).
Proof.
  induction l as [|x l IH]; intros H; simpl; [constructor|].
  simpl in H. inversion H as [|y ys Hy Hys]; subst.
  destruct (f x); simpl; [|apply IH; exact Hys].
  constructor; [|apply IH; exact Hys].
  intros Hin. apply Hy. apply in_map_iff in Hin.
  destruct Hin as (z & Hz & Hin). apply filter_In in Hin.
  apply in_map_iff. exists z. split; [exact Hz | apply Hin].
Qed.

Lemma primary_key_delete (p : IdParam) (st : Store) :
  primary_key st ->
  primary_key (with_rows st (ServerJs.delete_param p (rows st))).
Proof.
  unfold ServerJs.delete_param. destruct (row_of p) as [i|]; simpl;
    [|rewrite with_rows_same; intros H; exact H].
  intros (Hnd & Hall & Hpos). unfold primary_key, with_rows. simpl.
  split; [|split; [|exact Hpos]].
  - apply NoDup_map_filter. exact Hnd.
  - unfold delete_where_id. apply Forall_forall. intros m Hm.
    apply filter_In in Hm. rewrite Forall_forall in Hall.
    apply Hall. apply Hm.
Qed.

(** X8. Every request to server.js keeps the primary key: the ids stay
    positive, pairwise distinct and below the AUTO_INCREMENT counter,
    whatever the request and however the database answers. *)
Theorem handle_keeps_primary_key
  (found_rows : bool) (sql_store : Column -> JsVal -> SqlResult SqlVal)
  (like : SqlVal -> string -> bool) (req : ServerJs.Request) (st : Store) :
  primary_key st ->
  primary_key (snd (ServerJs.handle found_rows sql_store like req st)).
Proof.
  intros Hpk. destruct req as [|q|p|data|p data|p|p v]; simpl;
    try exact Hpk.
  - unfold ServerJs.post_movie.
    destruct (ServerJs.validateMovieData data true); [exact Hpk|].
    destruct (ServerJs.insert_row _ _ _ _ _ _ _ _) as [m|code] eqn:Hins;
      [|destruct (String.eqb code "ER_DUP_ENTRY"); exact Hpk].
    destruct (insert_row_default _ _ _ _ _ _ _ _ _ Hins) as (Hid & _ & _).
    destruct Hpk as (Hnd & Hall & Hpos).
    unfold primary_key. simpl. split; [|split; [|lia]].
    + rewrite map_app. simpl. apply NoDup_app.
      * exact Hnd.
      * repeat constructor. intros H; exact H.
      * intros z Hz [Hm | []]. subst z.
        apply in_map_iff in Hz. destruct Hz as (x & Hx & Hin).
        rewrite Forall_forall in Hall. specialize (Hall x Hin). lia.
    + apply Forall_app. split.
      * eapply Forall_impl; [|exact Hall]. simpl. intros x Hx. lia.
      * repeat constructor; lia.
  - unfold ServerJs.put_movie.
    destruct (invalid_id p); [exact Hpk|].
    destruct (ServerJs.validateMovieData data false); [exact Hpk|].
    destruct (Nat.eqb _ 0); [exact Hpk|].
    destruct (ServerJs.store_all sql_store (ServerJs.fieldsToUpdate data))
      as [l|code]; [|exact Hpk].
    destruct (ServerJs.affectedRows found_rows p (set_columns l) (rows st)
              =? 0); simpl;
      (apply primary_key_update;
       [intros m; apply (set_columns_keeps l m) | exact Hpk]).
  - unfold ServerJs.delete_movie.
    destruct (invalid_id p); [exact Hpk|].
    match goal with
    | |- context [if ?c then _ else _] => destruct c
    end; simpl; apply primary_key_delete; exact Hpk.
  - unfold ServerJs.post_rate.
    destruct (invalid_id p); [exact Hpk|].
    destruct (ServerJs.validateRating v); [exact Hpk|].
    destruct (select_param p (rows st)) as [|m rest]; [exact Hpk|].
    match goal with
    | |- context [ServerJs.rate_update ?f ?p ?r ?a ?n ?s] =>
        destruct (server_rate_update_cases f p r a n s)
          as [E | (a' & n' & E)]; rewrite E
    end.
    + exact Hpk.
    + apply primary_key_update; [reflexivity | exact Hpk].
Qed.

Lemma handle_keeps_primary_key_witness :
  primary_key
    (snd (ServerJs.handle true example_store example_like
            (ServerJs.PostMovie heat) seed)).
Proof.
  apply (handle_keeps_primary_key true example_store example_like
           (ServerJs.PostMovie heat) seed).
  exact primary_key_seed.
Defined.

(** ** DELETE, again *)

(** X9. In server.js, once DELETE has run for a positive id, whether it
    found the item or not, GET for that id answers 404 and a second DELETE
    answers 404 and changes nothing. *)
Theorem delete_then_gone (i : Z) (st : Store) :
  0 < i ->
  let st' := snd (ServerJs.delete_movie (IdInt i) st) in
  ServerJs.get_movie (IdInt i) st' = message 404 "Movie not found."
  /\ ServerJs.delete_movie (IdInt i) st'
     = (message 404 "Movie not found.", st').
Proof.
  intros Hi st'.
  assert (Hinv : invalid_id (IdInt i) = false) by (simpl; apply Z.leb_gt; lia).
  assert (Hgone : select_by_id i (rows st') = []).
  { unfold st', ServerJs.delete_movie. rewrite Hinv.
    match goal with
    | |- context [if ?c then _ else _] => destruct c
    end; simpl; apply select_after_delete. }
  split.
  - unfold ServerJs.get_movie. rewrite Hinv. unfold select_param, row_of.
    rewrite Hgone. reflexivity.
  - unfold ServerJs.delete_movie at 1. rewrite Hinv.
    change (ServerJs.delete_param (IdInt i) (rows st'))
      with (delete_where_id i (rows st')).
    rewrite delete_length.
    unfold matched_rows. rewrite Hgone. simpl.
    rewrite (delete_absent i (rows st') Hgone), with_rows_same. reflexivity.
Qed.

Lemma delete_then_gone_witness :
  let st' := snd (ServerJs.delete_movie (IdInt 2) seed) in
  ServerJs.get_movie (IdInt 2) st' = message 404 "Movie not found."
  /\ ServerJs.delete_movie (IdInt 2) st'
     = (message 404 "Movie not found.", st').
Proof.
  apply (delete_then_gone 2 seed). lia.
Defined.

Lemma select_delete_other (i j : Z) (l : list Movie) :
  j <> i -> select_by_id j (delete_where_id i l) = select_by_id j l.
Proof.
  intros Hj. unfold select_by_id, delete_where_id.
  induction l as [|x l IH]; simpl; [reflexivity|].
  destruct (id x =? i) eqn:E; simpl.
  - apply Z.eqb_eq in E.
    assert (Hx : (id x =? j) = false) by (apply Z.eqb_neq; lia).
    rewrite Hx. exact IH.
  - destruct (id x =? j); [f_equal|]; exact IH.
Qed.

(** X10. The DELETE of the transactional back end answers 200 for every id,
    present or absent; afterwards no row has that id, the rows with other
    ids are as before, and for an absent id the table is unchanged. *)
Theorem tx_delete_always_ok (i : Z) (st : Store) :
  fst (TxBackend.delete_movie i st)
  = message 200 "Movie deleted successfully"
  /\ select_by_id i (rows (snd (TxBackend.delete_movie i st))) = []
  /\ (forall j, j <> i ->
        select_by_id j (rows (snd (TxBackend.delete_movie i st)))
        = select_by_id j (rows st))
  /\ (select_by_id i (rows st) = [] -> snd (TxBackend.delete_movie i st) = st).
Proof.
  unfold TxBackend.delete_movie. simpl.
  split; [reflexivity|]. split; [apply select_after_delete|]. split.
  - intros j Hj. apply select_delete_other. exact Hj.
  - intros Habs. rewrite (delete_absent i (rows st) Habs). apply with_rows_same.
Qed.

(** ** The transactional back end, again *)




(** X12. The rating handler of the transactional back end accepts every
    number between 1 and 5, integer or not (what counts is the double r
    nearest to the number sent): for an existing item with aggregate
    (A, N) it answers 200 with count N + 1, which it stores, and both the
    average it returns and the average it stores are within half a
    hundredth, and 10^-12, of (A * N + r) / (N + 1). *)
Theorem tx_rate_any_number_in_range
  (i : Z) (st : Store) (A N : Z) (q r : Q) :
  aggregate i st = Some (A, N) -> 0 <= A <= 999 -> 0 <= N < 2147483647 ->
  round_double q = Fin r -> (1 <= r)%Q -> (r <= 5)%Q ->
  exists k k' st',
    TxBackend.post_rate i (JNum q) st
    = (mkResponse 200 (BRated "Rating submitted successfully" k (N + 1)),
       st')
    /\ aggregate i st' = Some (k', N + 1)
    /\ (Qabs (inject_Z k / 100
              - (decimal_value A * inject_Z N + r) / inject_Z (N + 1))
        <= (1 # 200) + (1 # 1000000000000))%Q
    /\ (Qabs (inject_Z k' / 100
              - (decimal_value A * inject_Z N + r) / inject_Z (N + 1))
        <= (1 # 200) + (1 # 1000000000000))%Q.
Proof.
  intros Hagg HA HN Hq H1 H5.
  destruct (aggregate_select _ _ _ _ Hagg) as (m & rest & Hsel & HAm & HNm).
  destruct (newAverageRating_close A N r HA HN H1 H5) as (d & Ed & Hd0 & Hd).
  set (x := ((decimal_value A * inject_Z N + r) / inject_Z (N + 1))%Q) in *.
  assert (Hx : (x <= 999 # 100)%Q).
  { unfold x. destruct (decimal_value_bounds A HA) as [Ha0 Ha1].
    assert (Hn0 : (0 <= inject_Z N)%Q)
      by (change 0%Q with (inject_Z 0); rewrite <- Zle_Qle; lia).
    destruct (product_bounds (decimal_value A) (inject_Z N) 0 (999 # 100)
                Ha0 Ha1 Hn0) as [Hp1 Hp2].
    rewrite inject_Z_plus. change (inject_Z 1) with 1%Q.
    set (an := (decimal_value A * inject_Z N)%Q) in *.
    set (n := inject_Z N) in *. clearbody an n.
    apply Qle_shift_div_r; lra. }
  apply Qabs_Qle_condition in Hd. destruct Hd as [Hd1 Hd2].
  assert (Hd11 : (d <= 11)%Q) by lra.
  pose proof (decimal_literal_close d Hd0 Hd11) as HL.
  apply Qabs_Qle_condition in HL. destruct HL as [HL1 HL2].
  set (L := decimal_literal d) in *.
  assert (HL0 : (0 <= L)%Q).
  { unfold L, decimal_literal.
    destruct (Qeq_bool d 0); [lra|].
    assert (E : Qle_bool 0 d = true) by (apply Qle_bool_iff; exact Hd0).
    rewrite E. unfold shortest_decimal. rewrite Qred_correct.
    apply shortest_nonneg. exact Hd0. }
  assert (Hrange : 0 <= round2 L <= 999)
    by (apply round2_range; clearbody x L; lra).
  pose proof (round2_nearest d) as Hk.
  pose proof (round2_nearest L) as Hk'.
  apply Qabs_Qle_condition in Hk, Hk'.
  destruct Hk as [Hk1 Hk2]. destruct Hk' as [Hk'1 Hk'2].
  exists (round2 d), (round2 L). eexists. split; [|split; [|split]].
  - unfold TxBackend.post_rate, TxBackend.invalid_rating.
    assert (Hq0 : Qeq_bool q 0 = false).
    { destruct (Qeq_bool q 0) eqn:E; [|reflexivity].
      unfold round_double in Hq. rewrite E in Hq.
      apply Fin_inj in Hq. subst r. exfalso. lra. }
    simpl truthy. rewrite Hq0. simpl TxBackend.to_number. rewrite Hq.
    unfold js_lt.
    assert (E1 : Qle_bool 1 r = true) by (apply Qle_bool_iff; exact H1).
    assert (E5 : Qle_bool r 5 = true) by (apply Qle_bool_iff; exact H5).
    rewrite E1, E5. simpl negb. simpl orb. cbv iota.
    rewrite Hsel, HAm, HNm.
    unfold TxBackend.rate_update, TxBackend.newTotalRating,
      TxBackend.to_number.
    cbv zeta. rewrite Hq. unfold newAverageRating in Ed. rewrite Ed.
    unfold TxBackend.stored_average. fold L.
    rewrite decimal_3_2_round2, toFixed2_round2.
    rewrite (store_decimal_3_2_ok _ Hrange), store_int_ok by lia.
    reflexivity.
  - apply (aggregate_after_update _ _ _ _ A N Hagg).
  - apply Qabs_Qle_condition.
    set (k := inject_Z (round2 d)) in *. clearbody k x L.
    unfold Qdiv. change (/ 100)%Q with (1 # 100)%Q. split; lra.
  - apply Qabs_Qle_condition.
    set (k := inject_Z (round2 L)) in *. clearbody k x L.
    unfold Qdiv. change (/ 100)%Q with (1 # 100)%Q. split; lra.
Qed.

Lemma tx_rate_any_number_in_range_witness :
  exists k k' st',
    TxBackend.post_rate 2 (JNum (2675 # 1000)) seed
    = (mkResponse 200 (BRated "Rating submitted successfully" k (0 + 1)),
       st')
    /\ aggregate 2 st' = Some (k', 0 + 1)
    /\ (Qabs (inject_Z k / 100
              - (decimal_value 0 * inject_Z 0
                 + (3011782250804019 # 1125899906842624))
                / inject_Z (0 + 1))
        <= (1 # 200) + (1 # 1000000000000))%Q
    /\ (Qabs (inject_Z k' / 100
              - (decimal_value 0 * inject_Z 0
                 + (3011782250804019 # 1125899906842624))
                / inject_Z (0 + 1))
        <= (1 # 200) + (1 # 1000000000000))%Q.
Proof.
  apply (tx_rate_any_number_in_range 2 seed 0 0 (2675 # 1000)
           (3011782250804019 # 1125899906842624)).
  - reflexivity.
  - lia.
  - lia.
  - vm_compute. reflexivity.
  - discriminate.
  - discriminate.
Defined.

(** ** Search, again *)



(** ** The stored average stays between 1.00 and 5.00 *)

Lemma average_between (A n r : Q) :
  (0 <= n)%Q -> (1 <= A)%Q -> (A <= 5)%Q -> (1 <= r)%Q -> (r <= 5)%Q ->
  (1 <= (A * n + r) / (n + 1))%Q /\ ((A * n + r) / (n + 1) <= 5)%Q.
Proof.
  intros Hn HA1 HA5 Hr1 Hr5. assert (Hpos : (0 < n + 1)%Q) by lra.
  split.
  - apply Qle_shift_div_l; [exact Hpos|]. nra.
  - apply Qle_shift_div_r; [exact Hpos|]. nra.
Qed.

Lemma round2_between (x : Q) :
  (1 <= x)%Q -> (x <= 5)%Q -> 100 <= round2 x <= 500.
Proof.
  intros H1 H5. unfold round2.
  assert (H0 : Qle_bool 0 x = true) by (apply Qle_bool_iff; lra).
  rewrite H0. split.
  - assert (H : Qfloor 100 <= Qfloor (x * 100 + (1 # 2)))
      by (apply Qfloor_resp_le; lra).
    exact H.
  - assert (H : Qfloor (x * 100 + (1 # 2)) <= Qfloor (1001 # 2))
      by (apply Qfloor_resp_le; lra).
    exact H.
Qed.

Lemma exact_average_range (a n r : Z) :
  0 <= n -> n = 0 \/ 100 <= a <= 500 -> valid_rating r ->
  (1 <= exact_average a n r)%Q /\ (exact_average a n r <= 5)%Q.
Proof.
  intros Hn Hrange [Hr1 Hr5]. unfold exact_average.
  assert (Hrq1 : (1 <= inject_Z r)%Q)
    by (change 1%Q with (inject_Z 1); rewrite <- Zle_Qle; exact Hr1).
  assert (Hrq5 : (inject_Z r <= 5)%Q)
    by (change 5%Q with (inject_Z 5); rewrite <- Zle_Qle; exact Hr5).
  destruct Hrange as [Hz | [Ha1 Ha5]].
  - subst n.
    assert (E : ((decimal_value a * inject_Z 0 + inject_Z r)
                 / inject_Z (0 + 1) == inject_Z r)%Q).
    { change (inject_Z (0 + 1)) with 1%Q. change (inject_Z 0) with 0%Q.
      field. }
    rewrite E. split; assumption.
  - assert (HA1 : (1 <= decimal_value a)%Q).
    { unfold decimal_value. apply Qle_shift_div_l; [reflexivity|].
      change (1 * 100)%Q with (inject_Z 100). rewrite <- Zle_Qle. exact Ha1. }
    assert (HA5 : (decimal_value a <= 5)%Q).
    { unfold decimal_value. apply Qle_shift_div_r; [reflexivity|].
      change (5 * 100)%Q with (inject_Z 500). rewrite <- Zle_Qle. exact Ha5. }
    assert (Hnq : (0 <= inject_Z n)%Q)
      by (change 0%Q with (inject_Z 0); rewrite <- Zle_Qle; exact Hn).
    rewrite inject_Z_plus. change (inject_Z 1) with 1%Q.
    apply average_between; assumption.
Qed.

(** Rounding an average between 1 and 5, even to the hundredth below a
    tie, stays between 1.00 and 5.00. *)
Lemma near_round2_between (x : Q) (k : Z) :
  (1 <= x)%Q -> (x <= 5)%Q -> near_round2 x k -> 100 <= k <= 500.
Proof.
  intros H1 H5 Hk.
  pose proof (round2_between x H1 H5) as [Hlo Hhi].
  destruct Hk as [-> | [Htie ->]]; [lia|].
  split; [|lia].
  apply tie_iff in Htie.
  assert (H0 : (0 <= x)%Q) by lra.
  rewrite (round2_nonneg x H0).
  set (w := Qfloor (x * 100 + (1 # 2))) in *.
  assert (Hw : (inject_Z 100 < inject_Z w)%Q)
    by (change (inject_Z 100) with 100%Q; lra).
  rewrite <- Zlt_Qlt in Hw. lia.
Qed.

Lemma rated_all_range (rs : list Z) :
  forall a n agg,
    rated_all (a, n) rs agg -> Forall valid_rating rs -> rs <> [] ->
    0 <= n -> n = 0 \/ 100 <= a <= 500 ->
    100 <= fst agg <= 500.
Proof.
  induction rs as [|r rs IH]; intros a n agg H Hrs Hne Hn Hrange;
    [contradiction|].
  inversion H as [|a' n' r' k rs' agg' Hk Hrest]; subst.
  inversion Hrs as [|r' rs' Hr Hrs']; subst.
  destruct (exact_average_range a n r Hn Hrange Hr) as [H1 H5].
  pose proof (near_round2_between _ k H1 H5 Hk) as Hstep.
  destruct rs as [|r2 rs2].
  - inversion Hrest; subst. exact Hstep.
  - apply (IH k (n + 1) agg Hrest Hrs'); [discriminate | lia | right; exact Hstep].
Qed.

(** X14. Once an item has been rated the stored average lies between 1.00
    and 5.00: from a fresh aggregate, or from one already in that range,
    any non-empty sequence of valid ratings leaves, in each back end, an
    average in [1.00, 5.00] (so within the DECIMAL(3,2) column) and the
    count grown by the number of ratings, as long as the count stays
    within the INT column.  The two back ends need not store the same
    average. *)
Theorem average_stays_in_range
  (found_rows : bool) (i : Z) (st : Store) (A N : Z) (rs : list Z) :
  0 < i -> aggregate i st = Some (A, N) -> 0 <= N ->
  (N = 0 /\ 0 <= A <= 999) \/ 100 <= A <= 500 ->
  Forall valid_rating rs -> rs <> [] ->
  N + Z.of_nat (List.length rs) <= 2147483647 ->
  (exists a,
      100 <= a <= 500
      /\ aggregate i (server_submit_all found_rows i rs st)
         = Some (a, N + Z.of_nat (List.length rs)))
  /\ (exists a,
      100 <= a <= 500
      /\ aggregate i (tx_submit_all i rs st)
         = Some (a, N + Z.of_nat (List.length rs))).
Proof.
  intros Hi Hagg HN Hrange Hrs Hne Hlen.
  assert (HA : 0 <= A <= 999) by (destruct Hrange as [[_ H] | H]; lia).
  assert (Hrange' : N = 0 \/ 100 <= A <= 500)
    by (destruct Hrange as [[H _] | H]; [left | right]; assumption).
  split.
  - destruct (server_submit_all_rated found_rows i rs Hi Hrs st A N
                Hagg HA HN Hlen) as (a & Ha & _ & Hrated).
    exists a. split; [|exact Ha].
    apply (rated_all_range rs A N _ Hrated Hrs Hne HN Hrange').
  - destruct (tx_submit_all_rated i rs Hrs st A N Hagg HA HN Hlen)
      as (a & Ha & _ & Hrated).
    exists a. split; [|exact Ha].
    apply (rated_all_range rs A N _ Hrated Hrs Hne HN Hrange').
Qed.

Lemma average_stays_in_range_witness :
  (exists a,
      100 <= a <= 500
      /\ aggregate 2 (server_submit_all true 2 [5; 1; 3] seed)
         = Some (a, 0 + Z.of_nat (List.length [5; 1; 3])))
  /\ (exists a,
      100 <= a <= 500
      /\ aggregate 2 (tx_submit_all 2 [5; 1; 3] seed)
         = Some (a, 0 + Z.of_nat (List.length [5; 1; 3]))).
Proof.
  apply (average_stays_in_range true 2 seed 0 0 [5; 1; 3]).
  - lia.
  - reflexivity.
  - lia.
  - left. lia.
  - repeat constructor; unfold valid_rating; lia.
  - discriminate.
  - simpl. lia.
Defined.

(** ** The first six ratings *)

Lemma in_all_sequences (rs : list Z) :
  Forall valid_rating rs -> In rs (all_sequences (List.length rs)).
Proof.
  induction 1 as [|r rs Hr _ IH]; simpl; [left; reflexivity|].
  apply in_flat_map. exists rs. split; [exact IH|].
  destruct Hr as [H1 H5].
  assert (Hcases : r = 1 \/ r = 2 \/ r = 3 \/ r = 4 \/ r = 5) by lia.
  simpl. destruct Hcases as [ -> | [ -> | [ -> | [ -> | -> ]]]]; auto 6.
Qed.

(** Up to six ratings no average on the way is a tie, and the fold of the
    ratings is their rounded mean. *)
Lemma no_drift_all_sequences (k : nat) :
  (k <= 6)%nat ->
  forallb (fun rs => tie_free (0, 0) rs && no_drift rs) (all_sequences k)
  = true.
Proof.
  intros Hk.
  assert (Hcases : (k = 0 \/ k = 1 \/ k = 2 \/ k = 3 \/ k = 4 \/ k = 5
                    \/ k = 6)%nat) by lia.
  destruct Hcases as [ -> | [ -> | [ -> | [ -> | [ -> | [ -> | -> ]]]]]];
    vm_compute; reflexivity.
Qed.

(** X15. Up to six ratings there is no drift: valid ratings r1..rN with
    N <= 6 submitted one after the other to a fresh item leave the count N
    and the average round2(mean(r1..rN)), in both back ends. *)
Theorem no_drift_up_to_six
  (found_rows : bool) (i : Z) (st : Store) (rs : list Z) :
  0 < i -> aggregate i st = Some (0, 0) -> Forall valid_rating rs ->
  (List.length rs <= 6)%nat ->
  aggregate i (server_submit_all found_rows i rs st)
  = Some (round2 (mean rs), Z.of_nat (List.length rs))
  /\ aggregate i (tx_submit_all i rs st)
     = Some (round2 (mean rs), Z.of_nat (List.length rs)).
Proof.
  intros Hi Hagg Hrs Hlen.
  pose proof (no_drift_all_sequences _ Hlen) as Hall.
  rewrite forallb_forall in Hall.
  specialize (Hall rs (in_all_sequences rs Hrs)).
  apply andb_true_iff in Hall. destruct Hall as [Hfree Hall].
  assert (Hfold : fold_left fold_rating rs (0, 0)
                  = (round2 (mean rs), Z.of_nat (List.length rs))).
  { unfold no_drift in Hall. apply Z.eqb_eq in Hall.
    pose proof (fold_rating_count rs (0, 0)) as Hc.
    destruct (fold_left fold_rating rs (0, 0)) as [a n].
    simpl in Hall, Hc. subst a n. reflexivity. }
  rewrite <- Hfold. split.
  - apply server_submit_all_fold; try assumption; lia.
  - apply tx_submit_all_fold; try assumption; lia.
Qed.

Lemma no_drift_up_to_six_witness :
  aggregate 2 (server_submit_all true 2 [1; 1; 1; 1; 1; 2] seed)
  = Some (round2 (mean [1; 1; 1; 1; 1; 2]),
          Z.of_nat (List.length [1; 1; 1; 1; 1; 2]))
  /\ aggregate 2 (tx_submit_all 2 [1; 1; 1; 1; 1; 2] seed)
     = Some (round2 (mean [1; 1; 1; 1; 1; 2]),
             Z.of_nat (List.length [1; 1; 1; 1; 1; 2])).
Proof.
  apply (no_drift_up_to_six true 2 seed [1; 1; 1; 1; 1; 2]).
  - lia.
  - reflexivity.
  - repeat constructor; unfold valid_rating; lia.
  - simpl. lia.
Defined.

(** ** Start-up *)

Ltac below_five :=
  let j := fresh "j" in
  let Hj := fresh "Hj" in
  intros j Hj;
  destruct j as [|[|[|[|[|j]]]]]; try assumption; exfalso; lia.

(** X16. [connectWithRetry] makes at most five attempts, five seconds
    apart.  It returns at the first attempt that connects, having waited
    five seconds for each failed one before it; when all five fail the
    process exits with code 1 after four waits; the loop never runs out
    otherwise, so the server listens exactly when one of the first five
    attempts connects. *)
Theorem connectWithRetry_outcome (probe : nat -> bool) :
  match Startup.connectWithRetry probe with
  | Startup.Connected k waited =>
      (k < 5)%nat /\ probe k = true
      /\ (forall j, (j < k)%nat -> probe j = false)
      /\ waited = 5000 * Z.of_nat k
      /\ Startup.startServer probe = true
  | Startup.Exited code waited =>
      code = 1 /\ waited = 20000
      /\ (forall j, (j < 5)%nat -> probe j = false)
      /\ Startup.startServer probe = false
  | Startup.LoopEnded _ => False
  end.
Proof.
  unfold Startup.startServer, Startup.connectWithRetry. simpl.
  destruct (probe 0%nat) eqn:E0;
    [repeat split; try lia; try assumption; below_five|].
  destruct (probe 1%nat) eqn:E1;
    [repeat split; try lia; try assumption; below_five|].
  destruct (probe 2%nat) eqn:E2;
    [repeat split; try lia; try assumption; below_five|].
  destruct (probe 3%nat) eqn:E3;
    [repeat split; try lia; try assumption; below_five|].
  destruct (probe 4%nat) eqn:E4;
    repeat split; try lia; try assumption; below_five.
Qed.

(** ** The year parameter *)

Lemma list_ascii_app (s t : string) :
  list_ascii_of_string (s ++ t)
  = list_ascii_of_string s ++ list_ascii_of_string t.
Proof. induction s as [|c s IH]; simpl; [reflexivity|]. f_equal. exact IH. Qed.

Lemma leading_digits_app (r t : list ascii) :
  match t with [] => True | c :: _ => digit_value c = None end ->
  forall acc, leading_digits acc (r ++ t) = leading_digits acc r.
Proof.
  intros Ht. induction r as [|c r IH]; intros acc; simpl.
  - destruct t as [|c t]; [reflexivity|]. simpl. rewrite Ht. reflexivity.
  - destruct (digit_value c); [apply IH | reflexivity].
Qed.

Lemma unsigned_prefix_app (r t : list ascii) (v : Z) :
  match t with [] => True | c :: _ => digit_value c = None end ->
  unsigned_prefix r = Some v -> unsigned_prefix (r ++ t) = Some v.
Proof.
  intros Ht. unfold unsigned_prefix. destruct r as [|c r]; [discriminate|].
  change ((c :: r) ++ t) with (c :: (r ++ t)). cbv beta iota.
  destruct (digit_value c) eqn:E; [|discriminate].
  intros H. rewrite <- H. f_equal.
  apply (leading_digits_app (c :: r) t Ht 0).
Qed.

Lemma skip_white_space_app (l t : list ascii) :
  skip_white_space l <> [] ->
  skip_white_space (l ++ t) = skip_white_space l ++ t.
Proof.
  induction l as [|c l IH]; simpl; [intros H; contradiction|].
  destruct (is_white_space c); [exact IH | reflexivity].
Qed.

Lemma parseInt_app (s t : string) (Y : Z) :
  no_leading_digit t -> parseInt s = Some Y -> parseInt (s ++ t) = Some Y.
Proof.
  intros Ht. unfold parseInt. rewrite list_ascii_app.
  assert (Ht' : match list_ascii_of_string t with
                | [] => True
                | c :: _ => digit_value c = None
                end) by (destruct t; exact Ht).
  destruct (skip_white_space (list_ascii_of_string s)) as [|c r] eqn:E;
    [discriminate|].
  rewrite skip_white_space_app by (rewrite E; discriminate).
  rewrite E.
  change ((c :: r) ++ list_ascii_of_string t)
    with (c :: (r ++ list_ascii_of_string t)).
  cbv beta iota.
  destruct (Ascii.eqb c "-").
  - destruct (unsigned_prefix r) as [v|] eqn:Ev; [|discriminate].
    rewrite (unsigned_prefix_app r _ v Ht' Ev). intros H; exact H.
  - destruct (Ascii.eqb c "+").
    + apply unsigned_prefix_app. exact Ht'.
    + apply (unsigned_prefix_app (c :: r)). exact Ht'.
Qed.

(** X17. The search of server.js reads the year with [parseInt]: what
    follows the number is ignored, so a year parameter extended by text
    that does not start with a digit gets the same answer. *)
Theorem server_search_year_suffix
  (like : SqlVal -> string -> bool) (q : SearchQuery) (st : Store)
  (s t : string) (Y : Z) :
  parseInt s = Some Y -> no_leading_digit t ->
  ServerJs.get_search like (with_year q (s ++ t)) st
  = ServerJs.get_search like (with_year q s) st.
Proof.
  intros Hs Ht. unfold ServerJs.get_search, with_year. simpl.
  assert (Hne : s <> EmptyString) by (intros E; subst s; discriminate Hs).
  assert (E1 : String.eqb s EmptyString = false)
    by (apply String.eqb_neq; exact Hne).
  assert (E2 : String.eqb (s ++ t) EmptyString = false).
  { apply String.eqb_neq. destruct s; [contradiction | discriminate]. }
  rewrite E1, E2, Hs, (parseInt_app s t Y Ht Hs). reflexivity.
Qed.

Lemma server_search_year_suffix_witness :
  ServerJs.get_search example_like (with_year title_pulp ("1994" ++ "-05")) seed
  = ServerJs.get_search example_like (with_year title_pulp "1994") seed.
Proof.
  apply (server_search_year_suffix example_like title_pulp seed
           "1994" "-05" 1994).
  - reflexivity.
  - reflexivity.
Defined.

(** ** GET by id *)

Lemma select_unique (m : Movie) (l : list Movie) :
  NoDup (map id l) -> In m l -> select_by_id (id m) l = [m].
Proof.
  unfold select_by_id. induction l as [|x l IH]; intros Hnd Hin;
    [destruct Hin|].
  simpl in Hnd. inversion Hnd as [|y ys Hx Hl]; subst. simpl.
  destruct Hin as [-> | Hin].
  - rewrite Z.eqb_refl. f_equal.
    assert (Hnone : forall t, ~ In (id m) (map id t) ->
                              filter (fun m0 => id m0 =? id m) t = []).
    { induction t as [|z t IHt]; intros Hz; simpl; [reflexivity|].
      assert (E : (id z =? id m) = false).
      { apply Z.eqb_neq. intros E. apply Hz. left. exact E. }
      rewrite E. apply IHt. intros H. apply Hz. right. exact H. }
    apply Hnone. exact Hx.
  - assert (E : (id x =? id m) = false).
    { apply Z.eqb_neq. intros E. apply Hx. rewrite E.
      apply in_map. exact Hin. }
    rewrite E. apply IH; assumption.
Qed.

(** X18. GET /api/movies/:id of server.js, for a positive id: it answers
    404 exactly when no row has the id; a row it returns is a row of the
    table with that id; and, ids being distinct, every row of the table is
    returned by the GET for its id. *)
Theorem get_movie_by_id (i : Z) (st : Store) :
  0 < i ->
  (select_by_id i (rows st) = []
   <-> ServerJs.get_movie (IdInt i) st = message 404 "Movie not found.")
  /\ (forall m, ServerJs.get_movie (IdInt i) st = mkResponse 200 (BMovie m) ->
                In m (rows st) /\ id m = i)
  /\ (primary_key st ->
      forall m, In m (rows st) -> id m = i ->
                ServerJs.get_movie (IdInt i) st = mkResponse 200 (BMovie m)).
Proof.
  intros Hi.
  assert (Hinv : invalid_id (IdInt i) = false) by (simpl; apply Z.leb_gt; lia).
  unfold ServerJs.get_movie. rewrite Hinv. unfold select_param, row_of.
  split; [|split].
  - destruct (select_by_id i (rows st)); split; intros H;
      try reflexivity; discriminate.
  - intros m H.
    destruct (select_by_id i (rows st)) as [|x rest] eqn:Hsel;
      [discriminate|].
    inversion H; subst x.
    assert (Hin : In m (select_by_id i (rows st)))
      by (rewrite Hsel; left; reflexivity).
    unfold select_by_id in Hin. apply filter_In in Hin.
    destruct Hin as [Hin Hid]. apply Z.eqb_eq in Hid. auto.
  - intros (Hnd & _ & _) m Hin Hid. subst i.
    rewrite (select_unique m (rows st) Hnd Hin). reflexivity.
Qed.

Lemma get_movie_by_id_witness :
  (select_by_id 3 (rows seed) = []
   <-> ServerJs.get_movie (IdInt 3) seed = message 404 "Movie not found.")
  /\ (forall m, ServerJs.get_movie (IdInt 3) seed
                = mkResponse 200 (BMovie m) ->
                In m (rows seed) /\ id m = 3)
  /\ (primary_key seed ->
      forall m, In m (rows seed) -> id m = 3 ->
                ServerJs.get_movie (IdInt 3) seed
                = mkResponse 200 (BMovie m)).
Proof.
  apply (get_movie_by_id 3 seed). lia.
Defined.

(** ** POST in the transactional back end *)

(** X19. POST /api/movies of the transactional back end only requires a
    truthy title and director.  When it answers 201 on a table whose ids
    are below the AUTO_INCREMENT counter, the response is the row it read
    back by its new id: the appended row, whose columns hold what MySQL
    stored for the fields as submitted and whose aggregate is
    (0.00, 0). *)
Theorem tx_post_returns_new_row
  (sql_store : Column -> JsVal -> SqlResult SqlVal)
  (data : MovieData) (st : Store) :
  primary_key st ->
  status (fst (TxBackend.post_movie sql_store data st)) = 201 ->
  exists m,
    fst (TxBackend.post_movie sql_store data st) = mkResponse 201 (BMovie m)
    /\ snd (TxBackend.post_movie sql_store data st)
       = mkStore (rows st ++ [m]) (auto_increment st + 1)
    /\ id m = auto_increment st
    /\ average_rating m = 0 /\ num_ratings m = 0
    /\ (forall c, sql_store c (body_field data c) = SqlOk (get_column c m))
    /\ truthy (d_title data) = true /\ truthy (d_director data) = true.
Proof.
  intros (_ & Hfresh & Hpos). unfold TxBackend.post_movie.
  destruct (truthy (d_title data)) eqn:Ht; [|discriminate].
  destruct (truthy (d_director data)) eqn:Hd; [|discriminate].
  simpl negb. simpl orb. cbv iota.
  destruct (ServerJs.insert_row _ _ _ _ _ _ _ _) as [m|code] eqn:Hins;
    [|discriminate].
  intros _. simpl.
  destruct (insert_row_default _ _ _ _ _ _ _ _ _ Hins) as (Hid & Ha & Hn).
  destruct (insert_row_columns _ _ _ _ _ _ _ _ _ Hins)
    as (Hc1 & Hc2 & Hc3 & Hc4 & Hc5 & Hc6).
  assert (Hsel : select_by_id (auto_increment st) (rows st ++ [m]) = [m]).
  { rewrite select_app, select_fresh.
    - unfold select_by_id. simpl. rewrite Hid, Z.eqb_refl. reflexivity.
    - eapply Forall_impl; [|exact Hfresh]. simpl. intros x Hx. lia. }
  exists m. rewrite Hsel. simpl hd.
  split; [reflexivity|]. split; [reflexivity|]. split; [exact Hid|].
  split; [exact Ha|]. split; [exact Hn|]. split; [|split; reflexivity].
  intros c. destruct c; simpl; assumption.
Qed.

Lemma tx_post_returns_new_row_witness :
  exists m,
    fst (TxBackend.post_movie example_store heat seed)
    = mkResponse 201 (BMovie m)
    /\ snd (TxBackend.post_movie example_store heat seed)
       = mkStore (rows seed ++ [m]) (auto_increment seed + 1)
    /\ id m = auto_increment seed
    /\ average_rating m = 0 /\ num_ratings m = 0
    /\ (forall c, example_store c (body_field heat c)
                  = SqlOk (get_column c m))
    /\ truthy (d_title heat) = true /\ truthy (d_director heat) = true.
Proof.
  apply (tx_post_returns_new_row example_store heat seed).
  - exact primary_key_seed.
  - reflexivity.
Defined.
